(** * Solar data analyzer: a shallow embedding of [src/data_analyzer.py]

    The development follows the three classes of the module:
    [SolarDataAnalyzer] (missing values, outliers, cleaning),
    [DataQualityAssessor] (quality score) and [CorrelationAnalyzer].

    Modelling conventions.
    - A pandas [DataFrame] is a row count together with an ordered list of
      named columns.  A column is numeric (float64/int64) or textual
      (object dtype).  A cell of a numeric column is a finite number or
      missing (NaN); a column that holds infinities is treated apart, on
      its cells only, see [clean_cells].
    - Finite numbers are rationals ([Q]).  The arithmetic of a method on
      floats takes the rounding as a parameter [fl : Q -> Q], applied to
      the result of each operation: [analyze_missing_values_with],
      [median_with], [clean_data].  [binary64] is the rounding to the
      nearest float64; [no_rounding] gives the exact reading, under
      which the methods keep their name ([analyze_missing_values],
      [median], [detect_outliers]).  The sign of zero, overflow and
      subnormal numbers are not modelled.  The special values that numpy
      produces without raising (NaN for 0/0, infinities for x/0) are kept,
      see [fval].
    - What [scipy.stats.zscore] and [DataFrame.corr] compute is a
      parameter of the methods that call them ([detect_outliers_with],
      [get_strong_correlations_with], [analyze_correlations_with]); the
      statements on the values they return assume of the routine only
      what [zscore_contract] and [corr_contract] say.  Their exact reading
      is [zscore_exact] and [corr_of]: a z-score and a Pearson coefficient
      are quotients by a square root, kept exactly as a pair (numerator,
      radicand), see [sqfrac]; the comparison [|v| > t] is decided on
      squares and is proved equal to the comparison of real numbers in
      [abs_gt_real].
    - A Python exception is a value of [exn]; a method that can raise
      returns a [result].
    - [df[col].fillna(v, inplace=True)] writes to the frame in pandas
      without copy-on-write and to a copy with copy-on-write (pandas 3.0
      and later); [copy_on_write] is a parameter of [clean_data].
      [DataFrame.corr] is called without [numeric_only]; its default
      changed with pandas 2.0 and is a parameter as well. *)

From Stdlib Require Import String.
From Stdlib Require Import PrimFloat.
From Stdlib Require Import Reals Qreals Lra.
From Stdlib Require Import SpecFloat FloatOps.
From Stdlib Require Import Bool Arith Lia ZArith QArith Qround Qpower Lqa.
From Stdlib Require Import List Sorted Permutation.
Import ListNotations.

Local Open Scope string_scope.
Local Open Scope list_scope.
Local Open Scope Q_scope.

(* ===================================================================== *)
(** * Numbers                                                             *)
(* ===================================================================== *)

(** Values of a float64 computation: a finite number, an infinity or NaN. *)
Inductive fval : Type :=
| Fin (q : Q)
| PInf
| NInf
| NaN.

Definition Qsign (q : Q) : comparison := q ?= 0.

Definition fopp (a : fval) : fval :=
  match a with
  | Fin q => Fin (Qred (- q))
  | PInf => NInf
  | NInf => PInf
  | NaN => NaN
  end.

Definition fadd (a b : fval) : fval :=
  match a, b with
  | NaN, _ | _, NaN => NaN
  | Fin x, Fin y => Fin (Qred (x + y))
  | PInf, NInf | NInf, PInf => NaN
  | PInf, _ | _, PInf => PInf
  | NInf, _ | _, NInf => NInf
  end.

Definition fsub (a b : fval) : fval := fadd a (fopp b).

(** Infinity of the sign of a nonzero rational; NaN for zero. *)
Definition inf_of_sign (c : comparison) : fval :=
  match c with
  | Gt => PInf
  | Lt => NInf
  | Eq => NaN
  end.

Definition fsign (a : fval) : comparison :=
  match a with
  | Fin q => Qsign q
  | PInf => Gt
  | NInf => Lt
  | NaN => Eq
  end.

Definition sign_mul (c d : comparison) : comparison :=
  match c, d with
  | Eq, _ | _, Eq => Eq
  | Gt, Gt | Lt, Lt => Gt
  | Gt, Lt | Lt, Gt => Lt
  end.

Definition fmul (a b : fval) : fval :=
  match a, b with
  | NaN, _ | _, NaN => NaN
  | Fin x, Fin y => Fin (Qred (x * y))
  | _, _ => inf_of_sign (sign_mul (fsign a) (fsign b))
  end.

(** Division as numpy performs it: no exception, [0/0] is NaN and [x/0]
    an infinity of the sign of [x]. *)
Definition fdiv (a b : fval) : fval :=
  match a, b with
  | NaN, _ | _, NaN => NaN
  | Fin x, Fin y =>
      if Qeq_bool y 0 then inf_of_sign (Qsign x) else Fin (Qred (x / y))
  | Fin _, _ => Fin 0
  | _, Fin y => inf_of_sign (sign_mul (fsign a) (if Qeq_bool y 0 then Gt else Qsign y))
  | _, _ => NaN
  end.

(** [a > t]: every comparison with NaN is false. *)
Definition fgt (a : fval) (t : Q) : bool :=
  match a with
  | Fin q => negb (Qle_bool q t)
  | PInf => true
  | NInf => false
  | NaN => false
  end.

Definition of_nat (n : nat) : fval := Fin (inject_Z (Z.of_nat n)).

(** Rounding.  A float64 operation returns the float nearest to its exact
    result.  [fl] is that rounding as a function on the rationals; it is
    applied to the finite result of an operation. *)
Definition rounded (fl : Q -> Q) (v : fval) : fval :=
  match v with
  | Fin q => Fin (fl q)
  | _ => v
  end.

(** The reading of the operations without rounding. *)
Definition no_rounding (q : Q) : Q := q.

(** What the statements use of rounding to nearest: the rounded value
    depends on the number only, rounding keeps the order, and the numbers
    0, 1 and 100 are floats. *)
Record rounding (fl : Q -> Q) : Prop := mkRounding {
  fl_proper : forall x y, x == y -> fl x == fl y;
  fl_monotone : forall x y, x <= y -> fl x <= fl y;
  fl_zero : fl 0 == 0;
  fl_one : fl 1 == 1;
  fl_hundred : fl 100 == 100
}.

(** Rounding to the nearest float64, ties to even, on the rationals.  A
    positive number [x] of the binade [2^e <= x < 2^(e+1)] is rounded to
    the nearest multiple of [2^(e-52)]: a float64 holds 53 significant
    bits.  The range of the exponent is not bounded: the numbers rounded
    here are quotients of counts and percentages, far from overflow and
    from the subnormal numbers. *)
Definition pow2 (e : Z) : Q := 2 ^ e.

(** The exponent [e] with [2^e <= x < 2^(e+1)], for a positive [x]. *)
Definition binade (x : Q) : Z :=
  let e := (Z.log2 (Qnum x) - Z.log2 (Z.pos (Qden x)))%Z in
  if Qle_bool (pow2 e) x then e else (e - 1)%Z.

(** The integer nearest to [x], the even one of two at the same distance. *)
Definition round_half_even (x : Q) : Z :=
  let f := Qfloor x in
  match Qcompare (x - inject_Z f) (1 # 2) with
  | Lt => f
  | Gt => (f + 1)%Z
  | Eq => if Z.even f then f else (f + 1)%Z
  end.

(** The multiple of [2^s] nearest to [x]. *)
Definition round_to (s : Z) (x : Q) : Q :=
  inject_Z (round_half_even (x / pow2 s)) * pow2 s.

Definition binary64 (x : Q) : Q :=
  match Qcompare x 0 with
  | Eq => 0
  | Gt => round_to (binade x - 52) x
  | Lt => - round_to (binade (- x) - 52) (- x)
  end.

(** The rational that a finite float64 of the machine stands for. *)
Definition float_value (f : float) : option Q :=
  match Prim2SF f with
  | S754_zero _ => Some 0
  | S754_finite s m e =>
      Some ((if s then - (1) else 1) * inject_Z (Z.pos m) * pow2 e)
  | _ => None
  end.

(** [v] is a finite number between [lo] and [hi]. *)
Definition in_range (lo hi : Q) (v : fval) : Prop :=
  match v with
  | Fin q => lo <= q /\ q <= hi
  | _ => False
  end.

(** [v] is the finite number [q], up to the representation of fractions. *)
Definition is_fin (v : fval) (q : Q) : Prop :=
  match v with
  | Fin x => x == q
  | _ => False
  end.

(** The exact quotient [num / sqrt rad] of two rationals. *)
Record sqfrac : Type := mkSqfrac { sq_num : Q; sq_rad : Q }.

(** [|num / sqrt rad| > t].  With [rad = 0] the quotient is [0/0 = NaN]
    (never greater) or an infinity (always greater); otherwise the test is
    made on squares. *)
Definition abs_gt (v : sqfrac) (t : Q) : bool :=
  if Qle_bool (sq_rad v) 0 then negb (Qeq_bool (sq_num v) 0)
  else if negb (Qle_bool 0 t) then true
  else negb (Qle_bool (sq_num v * sq_num v) (t * t * sq_rad v)).

(* ===================================================================== *)
(** * Exceptions                                                          *)
(* ===================================================================== *)

Inductive exn : Type :=
| ValueError (msg : string)
| TypeError (msg : string)
| KeyError (key : string).

Inductive result (A : Type) : Type :=
| Ok (a : A)
| Raise (e : exn).

Arguments Ok {A} a.
Arguments Raise {A} e.

Definition bind {A B : Type} (r : result A) (k : A -> result B) : result B :=
  match r with
  | Ok a => k a
  | Raise e => Raise e
  end.

Notation "x <- c ;; k" := (bind c (fun x => k))
  (at level 61, c at next level, right associativity).

Definition raises {A : Type} (r : result A) : Prop :=
  match r with
  | Ok _ => False
  | Raise _ => True
  end.

(** A [for] loop whose body may raise. *)
Fixpoint for_each {A S : Type} (body : S -> A -> result S) (xs : list A) (s : S)
  : result S :=
  match xs with
  | [] => Ok s
  | x :: xs' => s' <- body s x ;; for_each body xs' s'
  end.

(* ===================================================================== *)
(** * Data frames                                                         *)
(* ===================================================================== *)

(** A cell of a numeric column is a finite number or missing ([None], the
    NaN of pandas); a cell of a textual column is a string or missing. *)
Inductive column : Type :=
| NumCol (xs : list (option Q))
| TextCol (xs : list (option string)).

Record DataFrame : Type := mkDataFrame {
  nrows : nat;
  columns : list (string * column)
}.

Definition col_len (c : column) : nat :=
  match c with
  | NumCol xs => length xs
  | TextCol xs => length xs
  end.

Definition column_names (df : DataFrame) : list string := map fst (columns df).

(** A frame as [read_csv] builds it: every column has one cell per row and
    no two columns share a name. *)
Definition well_formed (df : DataFrame) : Prop :=
  Forall (fun nc => col_len (snd nc) = nrows df) (columns df) /\
  NoDup (column_names df).

Definition is_numeric (c : column) : bool :=
  match c with
  | NumCol _ => true
  | TextCol _ => false
  end.

Definition is_none {A : Type} (o : option A) : bool :=
  match o with
  | None => true
  | Some _ => false
  end.

(** [Series.isna().sum()] *)
Definition count_na (c : column) : nat :=
  match c with
  | NumCol xs => length (filter is_none xs)
  | TextCol xs => length (filter is_none xs)
  end.

Fixpoint lookup {A : Type} (name : string) (l : list (string * A)) : option A :=
  match l with
  | [] => None
  | (n, a) :: l' => if String.eqb name n then Some a else lookup name l'
  end.

(** [col in df.columns] *)
Definition has_column (df : DataFrame) (name : string) : bool :=
  existsb (String.eqb name) (column_names df).

(** [df[name]] *)
Definition get_column (df : DataFrame) (name : string) : option column :=
  lookup name (columns df).

(** Assignment to [df[name]]: an existing column is replaced where it
    stands, a new one is appended last. *)
Fixpoint assign {A : Type} (name : string) (a : A) (l : list (string * A))
  : list (string * A) :=
  match l with
  | [] => [(name, a)]
  | (n, x) :: l' =>
      if String.eqb name n then (n, a) :: l' else (n, x) :: assign name a l'
  end.

Definition set_column (df : DataFrame) (name : string) (c : column) : DataFrame :=
  {| nrows := nrows df; columns := assign name c (columns df) |}.

(** The numeric columns among [cols], in their order. *)
Definition numeric_columns (cols : list (string * column))
  : list (string * list (option Q)) :=
  flat_map (fun nc => match snd nc with
                      | NumCol xs => [(fst nc, xs)]
                      | TextCol _ => []
                      end) cols.

(** [df.select_dtypes(include=[np.number])] *)
Definition select_numeric (df : DataFrame) : list (string * list (option Q)) :=
  numeric_columns (columns df).

(** The non-missing values of a numeric column, in row order. *)
Definition present (xs : list (option Q)) : list Q :=
  flat_map (fun o => match o with Some x => [x] | None => [] end) xs.

Fixpoint insert_sorted (x : Q) (l : list Q) : list Q :=
  match l with
  | [] => [x]
  | y :: l' => if Qle_bool x y then x :: l else y :: insert_sorted x l'
  end.

Definition sort_values (l : list Q) : list Q := fold_right insert_sorted [] l.

(** [Series.median()]: missing values are skipped; the middle value of the
    sorted rest, or the mean of the two middle values; NaN ([None]) when
    nothing is left.  The mean of the two middle values is a sum and a
    division by two, each rounded by [fl]. *)
Definition median_with (fl : Q -> Q) (xs : list (option Q)) : option Q :=
  let s := sort_values (present xs) in
  let n := length s in
  match n with
  | O => None
  | _ =>
      if Nat.even n
      then Some (Qred (fl (fl (nth (n / 2 - 1) s 0 + nth (n / 2) s 0) / 2)))
      else Some (nth (n / 2) s 0)
  end.

(** The exact reading. *)
Definition median : list (option Q) -> option Q := median_with no_rounding.

(** [Series.fillna(v)]; filling with NaN changes nothing. *)
Definition fillna (v : option Q) (xs : list (option Q)) : list (option Q) :=
  map (fun o => match o with Some x => Some x | None => v end) xs.

(** [s[s < 0] = 0]; a comparison with NaN is false. *)
Definition clamp_negative (xs : list (option Q)) : list (option Q) :=
  map (fun o => match o with
                | Some x => if negb (Qle_bool 0 x) then Some 0 else Some x
                | None => None
                end) xs.

(** ** A column that holds infinities

    A float64 column can also hold infinities (a field [inf] of the CSV
    file).  The two loops of [clean_data] without copy-on-write, on the
    cells of one column that is a measurement column and a non-negative
    column, NaN being the missing cell. *)
Definition is_nan (v : fval) : bool :=
  match v with
  | NaN => true
  | _ => false
  end.

(** [a <= b] on values that are not NaN. *)
Definition fle (a b : fval) : bool :=
  match a, b with
  | NInf, _ | _, PInf => true
  | Fin x, Fin y => Qle_bool x y
  | _, _ => false
  end.

Fixpoint insert_cell (x : fval) (l : list fval) : list fval :=
  match l with
  | [] => [x]
  | y :: l' => if fle x y then x :: l else y :: insert_cell x l'
  end.

Definition sort_cells (l : list fval) : list fval := fold_right insert_cell [] l.

(** [Series.median()] on such cells: the sum of an infinity and the
    opposite infinity is NaN. *)
Definition median_cells (xs : list fval) : fval :=
  let s := sort_cells (filter (fun v => negb (is_nan v)) xs) in
  let n := length s in
  match n with
  | O => NaN
  | _ =>
      if Nat.even n
      then fdiv (fadd (nth (n / 2 - 1) s NaN) (nth (n / 2) s NaN)) (Fin 2)
      else nth (n / 2) s NaN
  end.

(** [v < 0]. *)
Definition negative (v : fval) : bool :=
  match v with
  | Fin q => negb (Qle_bool 0 q)
  | NInf => true
  | _ => false
  end.

Definition clean_cells (xs : list fval) : list fval :=
  let filled :=
    if existsb is_nan xs
    then let median_value := median_cells xs in
         map (fun v => if is_nan v then median_value else v) xs
    else xs in
  map (fun v => if negative v then Fin 0 else v) filled.

Definition Qsum (l : list Q) : Q := fold_right Qplus 0 l.

Definition Qlen {A : Type} (l : list A) : Q := inject_Z (Z.of_nat (length l)).

(** Mean of a non-empty list of values. *)
Definition mean (l : list Q) : Q := Qsum l / Qlen l.

(** Population variance ([ddof = 0]) of a non-empty list of values. *)
Definition variance (l : list Q) : Q :=
  let m := mean l in
  Qsum (map (fun x => (x - m) * (x - m)) l) / Qlen l.

(** [scipy.stats.zscore(xs, nan_policy='omit')] on one column: the mean and
    the standard deviation are those of the non-missing values; a missing
    cell has no z-score (NaN, here [None]); a present cell [x] has the
    z-score [(x - mean) / sqrt variance]. *)
Definition zscore_column (xs : list (option Q)) : list (option sqfrac) :=
  let p := present xs in
  let m := mean p in
  let v := variance p in
  map (option_map (fun x => mkSqfrac (x - m) v)) xs.

(** [np.abs(z) > t] on one cell. *)
Definition exceeds (t : Q) (z : option sqfrac) : bool :=
  match z with
  | Some v => abs_gt v t
  | None => false
  end.

(** [df[names]] for a list of names that are present. *)
Definition select_columns (df : DataFrame) (names : list string)
  : list (string * column) :=
  flat_map (fun n => match get_column df n with
                     | Some c => [(n, c)]
                     | None => []
                     end) names.

(** The exact reading of [scipy.stats.zscore] on one column.  On a
    textual column the arithmetic raises; on a textual column of no row
    the outcome depends on the version of scipy, and the statements that
    take the routine as a parameter leave it open. *)
Definition zscore_exact (c : column) : result (list (option sqfrac)) :=
  match c with
  | NumCol xs => Ok (zscore_column xs)
  | TextCol _ => Raise (TypeError "unsupported operand type(s) for /: 'str' and 'int'")
  end.

(** [zscore] on the selected columns, one column of z-scores per selected
    column; [scipy_zscore] is what the library computes for one column. *)
Definition zscore_with (scipy_zscore : column -> result (list (option sqfrac)))
  (cols : list (string * column)) : result (list (list (option sqfrac))) :=
  for_each (fun acc nc =>
              z <- scipy_zscore (snd nc) ;;
              Ok (acc ++ [z])%list) cols [].

Definition zscore : list (string * column) -> result (list (list (option sqfrac))) :=
  zscore_with zscore_exact.

(** [(cols > t).any(axis=1)]: one flag per row, true when some column
    holds true at that row. *)
Definition any_axis1 (rows : nat) (cols : list (list bool)) : list bool :=
  map (fun i => existsb (fun c => nth i c false) cols) (seq 0 rows).

Definition count_true (m : list bool) : nat := length (filter (fun b => b) m).

(* ===================================================================== *)
(** * class SolarDataAnalyzer                                             *)
(* ===================================================================== *)

Record MissingReport : Type := mkMissingReport {
  missing_count : list (string * nat);
  missing_percent : list (string * fval);
  critical_columns : list string;
  overall_completeness : fval;
  threshold : Q
}.

Record OutlierReport : Type := mkOutlierReport {
  mask : list bool;
  count : nat;
  percentage : fval
}.

(** The entries of [self.analysis_results] that the module reads back. *)
Record Results : Type := mkResults {
  missing_values : option MissingReport;
  outliers : option OutlierReport
}.

Record SolarDataAnalyzer : Type := mkAnalyzer {
  raw_data : option DataFrame;
  cleaned_data : option DataFrame;
  analysis_results : Results
}.

(** [__init__] followed by a [load_data] that read the frame [df]. *)
Definition loaded (df : DataFrame) : SolarDataAnalyzer :=
  {| raw_data := Some df;
     cleaned_data := None;
     analysis_results := {| missing_values := None; outliers := None |} |}.

Definition require_loaded (self : SolarDataAnalyzer) : result DataFrame :=
  match raw_data self with
  | Some df => Ok df
  | None => Raise (ValueError "Data must be loaded first. Call load_data()")
  end.

(** The methods that compute with floats take the rounding [fl] of the
    arithmetic, and the methods that call a numerical routine of a library
    take the routine, as a parameter.  The method of the same name without
    [_with] is the exact reading: no rounding, exact z-scores and exact
    Pearson coefficients. *)
Definition analyze_missing_values_with (fl : Q -> Q)
  (self : SolarDataAnalyzer) (threshold : Q)
  : result (MissingReport * SolarDataAnalyzer) :=
  df <- require_loaded self ;;
  let missing_count := map (fun nc => (fst nc, count_na (snd nc))) (columns df) in
  let missing_percent :=
    map (fun nk => (fst nk,
                    rounded fl (fmul (rounded fl (fdiv (of_nat (snd nk))
                                                       (of_nat (nrows df))))
                                     (Fin 100))))
        missing_count in
  let critical_columns :=
    map fst (filter (fun np => fgt (snd np) threshold) missing_percent) in
  let overall_completeness :=
    rounded fl
      (fsub (Fin 100)
            (rounded fl
               (fmul (rounded fl (fdiv (of_nat (list_sum (map snd missing_count)))
                                       (of_nat (nrows df * length (columns df)))))
                     (Fin 100)))) in
  let result := {| missing_count := missing_count;
                   missing_percent := missing_percent;
                   critical_columns := critical_columns;
                   overall_completeness := overall_completeness;
                   threshold := threshold |} in
  Ok (result,
      {| raw_data := raw_data self;
         cleaned_data := cleaned_data self;
         analysis_results :=
           {| missing_values := Some result;
              outliers := outliers (analysis_results self) |} |}).

Definition analyze_missing_values
  : SolarDataAnalyzer -> Q -> result (MissingReport * SolarDataAnalyzer) :=
  analyze_missing_values_with no_rounding.

Definition detect_outliers_with (fl : Q -> Q)
  (scipy_zscore : column -> result (list (option sqfrac)))
  (self : SolarDataAnalyzer) (columns : list string)
  (z_threshold : Q) : result (list bool * SolarDataAnalyzer) :=
  df <- require_loaded self ;;
  let available_cols := filter (has_column df) columns in
  match available_cols with
  | [] => Raise (ValueError "None of the specified columns found")
  | _ =>
      z_scores <- zscore_with scipy_zscore (select_columns df available_cols) ;;
      let outlier_mask :=
        any_axis1 (nrows df) (map (map (exceeds z_threshold)) z_scores) in
      Ok (outlier_mask,
          {| raw_data := raw_data self;
             cleaned_data := cleaned_data self;
             analysis_results :=
               {| missing_values := missing_values (analysis_results self);
                  outliers :=
                    Some {| mask := outlier_mask;
                            count := count_true outlier_mask;
                            percentage :=
                              rounded fl
                                (fmul (rounded fl
                                         (fdiv (of_nat (count_true outlier_mask))
                                               (of_nat (nrows df))))
                                      (Fin 100)) |} |} |})
  end.

Definition detect_outliers
  : SolarDataAnalyzer -> list string -> Q -> result (list bool * SolarDataAnalyzer) :=
  detect_outliers_with no_rounding zscore_exact.

Definition key_columns : list string :=
  ["GHI"; "DNI"; "DHI"; "ModA"; "ModB"; "WS"; "WSgust";
   "Tamb"; "RH"; "BP"; "TModA"; "TModB"].

Definition non_negative_cols : list string :=
  ["GHI"; "DNI"; "DHI"; "ModA"; "ModB"; "WS"; "WSgust"; "Precipitation"].

Definition marker_column : string := "Cleaning".
Definition marker_value : string := "Post-Clean".

(** Body of the imputation loop.  The median is taken from the column as
    it stands when the loop reaches it, before [fillna] writes to it.  The
    median of a textual column raises.

    [self.cleaned_data[col].fillna(median_value, inplace=True)] fills the
    series that [self.cleaned_data[col]] returns.  Without copy-on-write
    (pandas before 3.0 in its default mode) that series shares its cells
    with the frame and the frame is filled; with copy-on-write (pandas 3.0
    and later) the series is a copy and the frame stays as it is. *)
Definition impute_column (fl : Q -> Q) (copy_on_write : bool) (df : DataFrame)
  (col : string) : result DataFrame :=
  match get_column df col with
  | Some (NumCol xs) =>
      if Nat.ltb 0 (count_na (NumCol xs))
      then let median_value := median_with fl xs in
           if copy_on_write then Ok df
           else Ok (set_column df col (NumCol (fillna median_value xs)))
      else Ok df
  | Some (TextCol xs) =>
      if Nat.ltb 0 (count_na (TextCol xs))
      then Raise (TypeError "Cannot convert to numeric")
      else Ok df
  | None => Raise (KeyError col)
  end.

(** Body of the clamping loop.  Comparing a cell of a textual column with
    [0] raises. *)
Definition correct_negative (df : DataFrame) (col : string) : result DataFrame :=
  if has_column df col then
    match get_column df col with
    | Some (NumCol xs) => Ok (set_column df col (NumCol (clamp_negative xs)))
    | Some (TextCol []) => Ok df
    | Some (TextCol (_ :: _)) =>
        Raise (TypeError "'<' not supported between instances of 'str' and 'int'")
    | None => Raise (KeyError col)
    end
  else Ok df.

Definition clean_data (fl : Q -> Q) (copy_on_write : bool) (self : SolarDataAnalyzer)
  (outlier_mask : option (list bool))
  : result (DataFrame * SolarDataAnalyzer) :=
  df <- require_loaded self ;;
  let cleaned := df in
  let available_key_cols := filter (has_column cleaned) key_columns in
  cleaned <- for_each (impute_column fl copy_on_write) available_key_cols cleaned ;;
  cleaned <- for_each correct_negative non_negative_cols cleaned ;;
  let cleaned :=
    set_column cleaned marker_column
               (TextCol (repeat (Some marker_value) (nrows cleaned))) in
  Ok (cleaned,
      {| raw_data := raw_data self;
         cleaned_data := Some cleaned;
         analysis_results := analysis_results self |}).

(* ===================================================================== *)
(** * class DataQualityAssessor                                           *)
(* ===================================================================== *)

Record DataQualityAssessor : Type := mkAssessor {
  analyzer : SolarDataAnalyzer
}.

Record QualityMetrics : Type := mkQualityMetrics {
  completeness : fval;
  outlier_rate : fval;
  quality_score : fval
}.

Definition assess_completeness (self : DataQualityAssessor) : fval :=
  match missing_values (analysis_results (analyzer self)) with
  | Some r => overall_completeness r
  | None => Fin 0
  end.

Definition assess_outlier_rate (self : DataQualityAssessor) : fval :=
  match outliers (analysis_results (analyzer self)) with
  | Some r => percentage r
  | None => Fin 0
  end.

Definition get_quality_score (self : DataQualityAssessor) : QualityMetrics :=
  let completeness := assess_completeness self in
  let outlier_rate := assess_outlier_rate self in
  let quality_score :=
    fadd (fmul completeness (Fin (7 # 10)))
         (fmul (fsub (Fin 100) outlier_rate) (Fin (3 # 10))) in
  {| completeness := completeness;
     outlier_rate := outlier_rate;
     quality_score := quality_score |}.

#[local] Set Warnings "-inexact-float".

(** The score formula on binary64 floats, with the rounding the exact
    model leaves out. *)
Definition quality_score_binary64 (completeness outlier_rate : float) : float :=
  ((completeness * 0.7) + ((100 - outlier_rate) * 0.3))%float.

(* ===================================================================== *)
(** * class CorrelationAnalyzer                                           *)
(* ===================================================================== *)

(** The rows on which both columns hold a value. *)
Definition complete_pairs (xs ys : list (option Q)) : list (Q * Q) :=
  flat_map (fun ab => match ab with
                      | (Some x, Some y) => [(x, y)]
                      | _ => []
                      end) (combine xs ys).

(** Pearson coefficient of two columns over their complete pairs:
    [sxy / sqrt (sxx * syy)] with the sums of products of deviations from
    the means.  Without a complete pair, or with a constant column, the
    radicand is [0] and the coefficient is NaN. *)
Definition pearson (xs ys : list (option Q)) : sqfrac :=
  let ps := complete_pairs xs ys in
  let mx := mean (map fst ps) in
  let my := mean (map snd ps) in
  let sxy := Qsum (map (fun p => (fst p - mx) * (snd p - my)) ps) in
  let sxx := Qsum (map (fun p => (fst p - mx) * (fst p - mx)) ps) in
  let syy := Qsum (map (fun p => (snd p - my) * (snd p - my)) ps) in
  mkSqfrac (Qred sxy) (Qred (sxx * syy)).

(** A correlation matrix: its row and column labels, and its rows. *)
Record CorrMatrix : Type := mkCorrMatrix {
  labels : list string;
  entries : list (list sqfrac)
}.

(** [m.iloc[i, j]] for indices in range. *)
Definition iloc (m : CorrMatrix) (i j : nat) : sqfrac :=
  nth j (nth i (entries m) []) (mkSqfrac 0 0).

Definition corr_of (cols : list (string * list (option Q))) : CorrMatrix :=
  {| labels := map fst cols;
     entries := map (fun ci => map (fun cj => pearson (snd ci) (snd cj)) cols) cols |}.

(** Conversion of a column to floats: a textual cell that holds a string
    cannot be converted, a missing one becomes NaN. *)
Definition to_float (c : column) : result (list (option Q)) :=
  match c with
  | NumCol xs => Ok xs
  | TextCol xs =>
      if forallb is_none xs then Ok (map (fun _ => None) xs)
      else Raise (ValueError "could not convert string to float")
  end.

(** [DataFrame.corr(numeric_only=...)].  With [numeric_only] the textual
    columns are dropped; without it every column is converted to floats.
    [pandas_corr] is the matrix that pandas computes for columns of floats;
    [corr_of] is its exact reading. *)
Definition corr_with (pandas_corr : list (string * list (option Q)) -> CorrMatrix)
  (numeric_only : bool) (cols : list (string * column))
  : result CorrMatrix :=
  if numeric_only then Ok (pandas_corr (numeric_columns cols))
  else
    floats <- for_each (fun acc nc =>
                          xs <- to_float (snd nc) ;;
                          Ok (acc ++ [(fst nc, xs)])%list) cols [] ;;
    Ok (pandas_corr floats).

Definition corr : bool -> list (string * column) -> result CorrMatrix :=
  corr_with corr_of.

Record CorrelationAnalyzer : Type := mkCorrelationAnalyzer {
  data : DataFrame
}.

Section Pandas.

Variable pandas_corr : list (string * list (option Q)) -> CorrMatrix.

(** The value [DataFrame.corr] gives its argument [numeric_only] when the
    caller leaves it out, as both methods below do: [True] before
    pandas 2.0, [False] since. *)
Variable numeric_only_default : bool.

Definition analyze_correlations_with (self : CorrelationAnalyzer)
  (columns : list string) : result CorrMatrix :=
  let available_cols := filter (has_column (data self)) columns in
  if Nat.ltb (length available_cols) 2
  then Raise (ValueError "Need at least 2 columns for correlation analysis")
  else corr_with pandas_corr numeric_only_default
                 (select_columns (data self) available_cols).

Definition get_strong_correlations_with (self : CorrelationAnalyzer) (threshold : Q)
  : result (list (string * string * sqfrac)) :=
  let numeric_cols := map fst (select_numeric (data self)) in
  corr_matrix <- corr_with pandas_corr numeric_only_default
                           (select_columns (data self) numeric_cols) ;;
  let n := length (labels corr_matrix) in
  let strong_corrs :=
    fold_left
      (fun acc i =>
         fold_left
           (fun acc j =>
              let corr_val := iloc corr_matrix i j in
              if abs_gt corr_val threshold
              then (acc ++ [(nth i (labels corr_matrix) "",
                             nth j (labels corr_matrix) "",
                             corr_val)])%list
              else acc)
           (seq (i + 1) (n - (i + 1))) acc)
      (seq 0 n) [] in
  Ok strong_corrs.

End Pandas.

Definition analyze_correlations
  : bool -> CorrelationAnalyzer -> list string -> result CorrMatrix :=
  analyze_correlations_with corr_of.

Definition get_strong_correlations
  : bool -> CorrelationAnalyzer -> Q -> result (list (string * string * sqfrac)) :=
  get_strong_correlations_with corr_of.

(* ===================================================================== *)
(** * Vocabulary of the statements                                        *)
(* ===================================================================== *)

(** The table of the worked scenario. *)
Definition scenario : DataFrame :=
  {| nrows := 3;
     columns := [("GHI", NumCol [Some 100; None; Some (-5)]);
                 ("DNI", NumCol [Some 50; Some 60; Some 55]);
                 ("Country", TextCol [Some "Benin"; Some "Togo"; Some "Benin"])] |}.

(** A file that holds a header line and no record. *)
Definition header_only : DataFrame :=
  {| nrows := 0; columns := [("GHI", TextCol [])] |}.

(** The scenario table once cleaned, without copy-on-write. *)
Definition cleaned_scenario : DataFrame :=
  {| nrows := 3;
     columns := [("GHI", NumCol [Some 100; Some (95 # 2); Some 0]);
                 ("DNI", NumCol [Some 50; Some 60; Some 55]);
                 ("Country", TextCol [Some "Benin"; Some "Togo"; Some "Benin"]);
                 ("Cleaning", TextCol [Some "Post-Clean"; Some "Post-Clean";
                                       Some "Post-Clean"])] |}.

(** The scenario table once cleaned, with copy-on-write: the missing cell
    is still missing. *)
Definition cleaned_scenario_cow : DataFrame :=
  {| nrows := 3;
     columns := [("GHI", NumCol [Some 100; None; Some 0]);
                 ("DNI", NumCol [Some 50; Some 60; Some 55]);
                 ("Country", TextCol [Some "Benin"; Some "Togo"; Some "Benin"]);
                 ("Cleaning", TextCol [Some "Post-Clean"; Some "Post-Clean";
                                       Some "Post-Clean"])] |}.

(** A table whose only measurement column holds no value at all. *)
Definition empty_measurements : DataFrame :=
  {| nrows := 2; columns := [("GHI", NumCol [None; None])] |}.

(** A table of twenty rows whose GHI column misses eleven cells. *)
Definition eleven_of_twenty : DataFrame :=
  {| nrows := 20;
     columns := [("GHI", NumCol (repeat None 11 ++ repeat (Some 1) 9)%list);
                 ("DNI", NumCol (repeat (Some 1) 20))] |}.

(** A frame that already holds a column named as the marker column. *)
Definition marked_before : DataFrame :=
  {| nrows := 1;
     columns := [("Tamb", NumCol [Some 25]); ("Cleaning", TextCol [Some "Raw"])] |}.

(** A table without a missing cell and without an outlier. *)
Definition complete_frame : DataFrame :=
  {| nrows := 3; columns := [("GHI", NumCol [Some 1; Some 2; Some 3])] |}.

(** The analyzer after [analyze_missing_values()] and
    [detect_outliers(cols)] with their default thresholds; an analysis that
    raises leaves the results as they were. *)
Definition analyzed (df : DataFrame) (cols : list string) : SolarDataAnalyzer :=
  let s0 := loaded df in
  let s1 := match analyze_missing_values s0 5 with
            | Ok (_, s) => s
            | Raise _ => s0
            end in
  match detect_outliers s1 cols 3 with
  | Ok (_, s) => s
  | Raise _ => s1
  end.

(** A table whose temperature column was read as text. *)
Definition text_temperature : DataFrame :=
  {| nrows := 3;
     columns := [("GHI", NumCol [Some 1; None; Some 3]);
                 ("Tamb", TextCol [Some "hot"; None; Some "cold"])] |}.

(** Equality of numeric cells up to the representation of fractions. *)
Definition cell_eqv (a b : option Q) : Prop :=
  match a, b with
  | Some x, Some y => x == y
  | None, None => True
  | _, _ => False
  end.

Definition cells_eqv (xs ys : list (option Q)) : Prop := Forall2 cell_eqv xs ys.

(** The share of missing cells of a column holding [k] missing cells in a
    frame of [n] rows, in percent. *)
Definition percent_of (k n : nat) : Q :=
  (inject_Z (Z.of_nat k) / inject_Z (Z.of_nat n)) * 100.

(** The same share as the float64 operations give it: the quotient is
    rounded, and so is its product with 100. *)
Definition percent_rounded (fl : Q -> Q) (k n : nat) : Q :=
  fl (fl (inject_Z (Z.of_nat k) / inject_Z (Z.of_nat n)) * 100).

(** The pairs of positions [i < j] of a list, row by row: the upper
    triangle of a matrix indexed by the list. *)
Fixpoint upper_pairs {A : Type} (l : list A) : list (A * A) :=
  match l with
  | [] => []
  | x :: l' => (map (pair x) l' ++ upper_pairs l')%list
  end.

(** A pair of numeric columns is strongly correlated. *)
Definition strong (t : Q) (p : (string * list (option Q)) * (string * list (option Q)))
  : bool :=
  abs_gt (pearson (snd (fst p)) (snd (snd p))) t.

Definition correlation_entry (p : (string * list (option Q)) * (string * list (option Q)))
  : string * string * sqfrac :=
  (fst (fst p), fst (snd p), pearson (snd (fst p)) (snd (snd p))).

(** The strongly correlated pairs of the upper triangle, in its order. *)
Definition strong_pairs (t : Q) (cols : list (string * list (option Q)))
  : list (string * string * sqfrac) :=
  map correlation_entry (filter (strong t) (upper_pairs cols)).

(** Missing cells of the whole frame, and its number of cells. *)
Definition total_missing (df : DataFrame) : nat :=
  list_sum (map (fun nc => count_na (snd nc)) (columns df)).

Definition cell_count (df : DataFrame) : nat := (nrows df * length (columns df))%nat.

(** What the imputation loop does to the cells of a column it visits. *)
Definition impute_cells (fl : Q -> Q) (xs : list (option Q)) : list (option Q) :=
  if Nat.ltb 0 (count_na (NumCol xs)) then fillna (median_with fl xs) xs else xs.

Definition imputed (fl : Q -> Q) (c : column) : column :=
  match c with
  | NumCol xs => NumCol (impute_cells fl xs)
  | TextCol xs => TextCol xs
  end.

(** What a turn of the imputation loop leaves in the frame: the imputed
    column without copy-on-write, the column as it was with it. *)
Definition filled (fl : Q -> Q) (copy_on_write : bool) (c : column) : column :=
  if copy_on_write then c else imputed fl c.

(** What the clamping loop does to a column it visits. *)
Definition clamped (c : column) : column :=
  match c with
  | NumCol xs => NumCol (clamp_negative xs)
  | TextCol xs => TextCol xs
  end.

(** Columns on which the body of the imputation loop, respectively of the
    clamping loop, does not raise. *)
Definition imputable (c : column) : Prop :=
  match c with
  | NumCol _ => True
  | TextCol xs => count_na (TextCol xs) = 0%nat
  end.

Definition clampable (c : column) : Prop :=
  match c with
  | NumCol _ => True
  | TextCol xs => xs = []
  end.

Definition mem (n : string) (names : list string) : bool :=
  existsb (String.eqb n) names.

(** The effect of a loop over the columns [names] whose body rewrites the
    visited column by [F] where it stands and accepts the columns [ok]:
    rows, names and the other columns are as before. *)
Definition col_loop (F : column -> column) (ok : column -> Prop)
  (names : list string) (d d' : DataFrame) : Prop :=
  nrows d' = nrows d /\
  column_names d' = column_names d /\
  (forall n, get_column d' n =
             if mem n names then option_map F (get_column d n) else get_column d n) /\
  (forall n c, In n names -> get_column d n = Some c -> ok c).

(** The column named [n] after cleaning, from the column before. *)
Definition cleaned_column (fl : Q -> Q) (copy_on_write : bool) (n : string)
  (c : column) : column :=
  let c1 := if mem n key_columns then filled fl copy_on_write c else c in
  if mem n non_negative_cols then clamped c1 else c1.

(** [|num / sqrt rad| > t] as a comparison of real numbers.  With a
    radicand that is not positive the quotient is an infinity when the
    numerator is not zero, and NaN otherwise. *)
Definition magnitude_exceeds (v : sqfrac) (t : Q) : Prop :=
  (0 < sq_rad v /\
   (Q2R t < Rabs (Q2R (sq_num v)) / sqrt (Q2R (sq_rad v)))%R) \/
  (sq_rad v <= 0 /\ ~ sq_num v == 0).

(** What the statements use of [scipy.stats.zscore(..., nan_policy='omit')]
    on one column: on a numeric column it returns one z-score per cell, NaN
    for a missing cell; on a textual column that holds a string it raises. *)
Record zscore_contract (scipy_zscore : column -> result (list (option sqfrac)))
  : Prop := mkZscoreContract {
  zscore_numeric_column : forall xs,
    exists zs, scipy_zscore (NumCol xs) = Ok zs /\
               length zs = length xs /\
               forall i, nth i xs None = None -> nth i zs None = None;
  zscore_text_column : forall xs s,
    In (Some s) xs -> raises (scipy_zscore (TextCol xs))
}.

(** What the statements use of [DataFrame.corr] on columns of floats: the
    matrix is labelled by the columns, in their order. *)
Definition corr_contract (pandas_corr : list (string * list (option Q)) -> CorrMatrix)
  : Prop :=
  forall cols, labels (pandas_corr cols) = map fst cols.

(** The positions [(i, j)] with [i < j < n], row by row. *)
Definition upper_indices (n : nat) : list (nat * nat) := upper_pairs (seq 0 n).

(** The entries of the upper triangle of the matrix [m], labelled by
    [names], whose magnitude is greater than [t], row by row. *)
Definition strong_entries (t : Q) (names : list string) (m : CorrMatrix)
  : list (string * string * sqfrac) :=
  map (fun ij => (nth (fst ij) names "", nth (snd ij) names "",
                  iloc m (fst ij) (snd ij)))
      (filter (fun ij => abs_gt (iloc m (fst ij) (snd ij)) t)
              (upper_indices (length names))).

(** The marker column of a frame of [rows] rows. *)
Definition marker_cells (rows : nat) : column :=
  TextCol (repeat (Some marker_value) rows).

(** The tracked columns that are present are numeric. *)
Definition tracked_numeric (df : DataFrame) : Prop :=
  forall n c, In n key_columns \/ In n non_negative_cols ->
              get_column df n = Some c -> is_numeric c = true.

(** No missing value in a measurement column, no negative value in a
    non-negative column. *)
Definition nothing_to_clean (df : DataFrame) : Prop :=
  (forall n c, In n key_columns -> get_column df n = Some c -> count_na c = 0%nat) /\
  (forall n xs x, In n non_negative_cols -> get_column df n = Some (NumCol xs) ->
                  In (Some x) xs -> 0 <= x).

(* ===================================================================== *)
(** * The rest of class SolarDataAnalyzer                                 *)
(* ===================================================================== *)

(** [np.percentile(s, 100 * p)] with linear interpolation, on the sorted
    non-empty list [s]: the value at the fractional position [(n - 1) * p]. *)
Definition quantile (s : list Q) (p : Q) : Q :=
  let h := (Qlen s - 1) * p in
  let k := Z.to_nat (Qfloor h) in
  let f := h - inject_Z (Qfloor h) in
  let lo := nth k s 0 in
  let hi := nth (S k) s lo in
  Qred (lo + f * (hi - lo)).

(** One column of [DataFrame.describe()].  The standard deviation is the
    square root of the sample variance ([ddof = 1]); it is kept by its
    square. *)
Record ColumnSummary : Type := mkColumnSummary {
  d_count : nat;
  d_mean : fval;
  d_std_squared : fval;
  d_min : fval;
  d_q25 : fval;
  d_q50 : fval;
  d_q75 : fval;
  d_max : fval
}.

Definition describe_column (xs : list (option Q)) : ColumnSummary :=
  let p := present xs in
  let s := sort_values p in
  let n := length p in
  match n with
  | O => {| d_count := 0; d_mean := NaN; d_std_squared := NaN; d_min := NaN;
            d_q25 := NaN; d_q50 := NaN; d_q75 := NaN; d_max := NaN |}
  | S n' =>
      let m := mean p in
      {| d_count := n;
         d_mean := Fin (Qred m);
         d_std_squared :=
           fdiv (Fin (Qsum (map (fun x => (x - m) * (x - m)) p))) (of_nat n');
         d_min := Fin (nth 0 s 0);
         d_q25 := Fin (quantile s (1 # 4));
         d_q50 := Fin (quantile s (1 # 2));
         d_q75 := Fin (quantile s (3 # 4));
         d_max := Fin (nth n' s 0) |}
  end.

(** [DataFrame.describe()] on a frame of numeric columns; a frame without
    columns cannot be described. *)
Definition describe (cols : list (string * list (option Q)))
  : result (list (string * ColumnSummary)) :=
  match cols with
  | [] => Raise (ValueError "Cannot describe a DataFrame without columns")
  | _ => Ok (map (fun nx => (fst nx, describe_column (snd nx))) cols)
  end.

(** The analyzer object with the attributes that the methods above do not
    read: the path, the country and the stored summary statistics. *)
Record Session : Type := mkSession {
  data_path : string;
  country_name : string;
  object : SolarDataAnalyzer;
  summary_statistics : option (list (string * ColumnSummary))
}.

(** [SolarDataAnalyzer(data_path, country_name)] *)
Definition init (data_path country_name : string) : Session :=
  {| data_path := data_path;
     country_name := country_name;
     object := {| raw_data := None;
                  cleaned_data := None;
                  analysis_results := {| missing_values := None; outliers := None |} |};
     summary_statistics := None |}.

(** What [load_data] does: the file is not there, or [read_csv] built a
    frame from it. *)
Inductive load_outcome : Type :=
| FileNotFoundError (msg : string)
| Loaded (df : DataFrame) (self : Session).

(** [load_data]; [file] is what is found at [self.data_path]: nothing, or a
    file that [read_csv] reads as the given frame. *)
Definition load_data (self : Session) (file : option DataFrame) : load_outcome :=
  match file with
  | None => FileNotFoundError ("Data file not found: " ++ data_path self)
  | Some df =>
      Loaded df
             {| data_path := data_path self;
                country_name := country_name self;
                object := {| raw_data := Some df;
                             cleaned_data := cleaned_data (object self);
                             analysis_results := analysis_results (object self) |};
                summary_statistics := summary_statistics self |}
  end.

Definition get_summary_statistics (self : Session)
  : result (list (string * ColumnSummary) * Session) :=
  df <- require_loaded (object self) ;;
  let numeric_cols := map fst (select_numeric df) in
  summary <- describe (numeric_columns (select_columns df numeric_cols)) ;;
  Ok (summary,
      {| data_path := data_path self;
         country_name := country_name self;
         object := object self;
         summary_statistics := Some summary |}).

(** What [export_cleaned_data] asks of the file system, in order. *)
Inductive file_effect : Type :=
| MakeParentDirs (path : string)
| WriteCsv (path : string) (frame : DataFrame).

Definition export_cleaned_data (self : SolarDataAnalyzer) (output_path : string)
  : result (list file_effect) :=
  match cleaned_data self with
  | None => Raise (ValueError "Data must be cleaned first. Call clean_data()")
  | Some cleaned => Ok [MakeParentDirs output_path; WriteCsv output_path cleaned]
  end.

(** [df.shape] *)
Definition shape (df : DataFrame) : nat * nat := (nrows df, length (columns df)).

Record AnalysisSummary : Type := mkAnalysisSummary {
  country : string;
  raw_data_shape : option (nat * nat);
  cleaned_data_shape : option (nat * nat);
  summary_results : Results;
  summary_described : option (list (string * ColumnSummary))
}.

Definition get_analysis_summary (self : Session) : AnalysisSummary :=
  {| country := country_name self;
     raw_data_shape := option_map shape (raw_data (object self));
     cleaned_data_shape := option_map shape (cleaned_data (object self));
     summary_results := analysis_results (object self);
     summary_described := summary_statistics self |}.

(** A [for] loop that stops at the first turn that raises: the state the
    loop had reached, and the exception if there was one. *)
Fixpoint for_each_until {A S : Type} (body : S -> A -> result S) (xs : list A) (s : S)
  : S * option exn :=
  match xs with
  | [] => (s, None)
  | x :: xs' =>
      match body s x with
      | Ok s' => for_each_until body xs' s'
      | Raise e => (s, Some e)
      end
  end.

(** The analyzer after a call of [clean_data], also when the call raised.
    [self.cleaned_data] is assigned the copy before the loops run and the
    loops write to it in place, so a call that raises in a loop leaves the
    copy as the loops had left it. *)
Definition clean_data_state (fl : Q -> Q) (copy_on_write : bool)
  (self : SolarDataAnalyzer)
  (outlier_mask : option (list bool))
  : SolarDataAnalyzer * option exn :=
  match raw_data self with
  | None => (self, Some (ValueError "Data must be loaded first. Call load_data()"))
  | Some df =>
      let store cleaned :=
        {| raw_data := raw_data self;
           cleaned_data := Some cleaned;
           analysis_results := analysis_results self |} in
      let available_key_cols := filter (has_column df) key_columns in
      match for_each_until (impute_column fl copy_on_write) available_key_cols df with
      | (cleaned, Some e) => (store cleaned, Some e)
      | (cleaned, None) =>
          match for_each_until correct_negative non_negative_cols cleaned with
          | (cleaned, Some e) => (store cleaned, Some e)
          | (cleaned, None) =>
              (store (set_column cleaned marker_column
                        (TextCol (repeat (Some marker_value) (nrows cleaned)))),
               None)
          end
      end
  end.

(* ===================================================================== *)
(** * class CorrelationVisualizer ([src/visualizer.py])                    *)
(* ===================================================================== *)

(** [np.triu(np.ones_like(m, dtype=bool))] for a square matrix of size
    [n]: true on the diagonal and above it. *)
Definition triu_ones (n : nat) : list (list bool) :=
  map (fun i => map (fun j => Nat.leb i j) (seq 0 n)) (seq 0 n).

(** What [plot_heatmap] hands to [sns.heatmap]: the matrix, the mask of
    the cells that are not drawn, and the title. *)
Record Heatmap : Type := mkHeatmap {
  heat_matrix : CorrMatrix;
  heat_mask : list (list bool);
  heat_title : string
}.

Record CorrelationVisualizer : Type := mkCorrelationVisualizer {
  vis_data : DataFrame;
  vis_country_name : string
}.

Section PandasVisualizer.

Variable numeric_only_default : bool.

Definition plot_heatmap (self : CorrelationVisualizer) (columns : list string)
  : result Heatmap :=
  let available_cols := filter (has_column (vis_data self)) columns in
  if Nat.ltb (length available_cols) 2
  then Raise (ValueError "Need at least 2 columns for correlation heatmap")
  else
    corr_matrix <- corr numeric_only_default
                        (select_columns (vis_data self) available_cols) ;;
    let mask := triu_ones (length (labels corr_matrix)) in
    Ok {| heat_matrix := corr_matrix;
          heat_mask := mask;
          heat_title := "Correlation Heatmap - " ++ vis_country_name self |}.

End PandasVisualizer.

(** A cell of the heatmap is drawn when the mask does not hide it. *)
Definition drawn (h : Heatmap) (i j : nat) : bool :=
  negb (nth j (nth i (heat_mask h) []) true).

(** Well-formedness of a frame that is written out. *)
Ltac solve_well_formed :=
  split;
  [ repeat constructor
  | repeat (apply NoDup_cons; [simpl; intuition discriminate|]); apply NoDup_nil ].

(* ===================================================================== *)
(** * Properties of the numbers                                           *)
(* ===================================================================== *)

#[local] Arguments Qred : simpl never.
#[local] Arguments Qle_bool : simpl never.
#[local] Arguments Qeq_bool : simpl never.
#[local] Arguments Qplus : simpl never.
#[local] Arguments Qmult : simpl never.
#[local] Arguments Qopp : simpl never.
#[local] Arguments Qminus : simpl never.
#[local] Arguments Qdiv : simpl never.
#[local] Arguments Qcompare : simpl never.
#[local] Arguments inject_Z : simpl never.

Lemma fgt_Fin (q t : Q) : fgt (Fin q) t = true <-> t < q.
Proof.
  simpl. rewrite negb_true_iff. split; intros H.
  - apply Qnot_le_lt. intros Hle. apply Qle_bool_iff in Hle. congruence.
  - destruct (Qle_bool q t) eqn:E; [|reflexivity].
    apply Qle_bool_iff in E. exfalso. apply (Qlt_not_le _ _ H E).
Qed.

Lemma not_Qle_bool (a b : Q) : negb (Qle_bool a b) = true <-> b < a.
Proof. exact (fgt_Fin a b). Qed.

Lemma Qle_bool_false (a b : Q) : Qle_bool a b = false <-> b < a.
Proof. rewrite <- negb_true_iff. apply not_Qle_bool. Qed.

Lemma fmul_comm (a b : fval) : fmul a b = fmul b a.
Proof.
  destruct a as [x| | |], b as [y| | |]; simpl; try reflexivity.
  f_equal. apply Qred_complete. ring.
Qed.

Lemma inject_nat_nonneg (n : nat) : 0 <= inject_Z (Z.of_nat n).
Proof. change 0 with (inject_Z 0). rewrite <- Zle_Qle. lia. Qed.

Lemma inject_nat_pos (n : nat) : (0 < n)%nat -> 0 < inject_Z (Z.of_nat n).
Proof. intros H. change 0 with (inject_Z 0). rewrite <- Zlt_Qlt. lia. Qed.

Lemma inject_nat_le (k n : nat) :
  (k <= n)%nat -> inject_Z (Z.of_nat k) <= inject_Z (Z.of_nat n).
Proof. intros H. rewrite <- Zle_Qle. lia. Qed.

Lemma Qeq_bool_nat_pos (n : nat) :
  (0 < n)%nat -> Qeq_bool (inject_Z (Z.of_nat n)) 0 = false.
Proof.
  intros H. destruct (Qeq_bool _ 0) eqn:E; [|reflexivity].
  apply Qeq_bool_iff in E. pose proof (inject_nat_pos n H) as Hp.
  rewrite E in Hp. exfalso. apply (Qlt_irrefl 0 Hp).
Qed.

(** With at least one row the share of [k] cells is the finite number
    [k / n * 100]. *)
Lemma percent_fin (k n : nat) :
  (0 < n)%nat ->
  exists q, fmul (fdiv (of_nat k) (of_nat n)) (Fin 100) = Fin q /\ q == percent_of k n.
Proof.
  intros Hn. unfold of_nat, fdiv. rewrite (Qeq_bool_nat_pos n Hn). simpl.
  eexists. split; [reflexivity|].
  unfold percent_of. rewrite !Qred_correct. reflexivity.
Qed.

Lemma percent_of_range (k n : nat) :
  (0 < n)%nat -> (k <= n)%nat -> 0 <= percent_of k n /\ percent_of k n <= 100.
Proof.
  intros Hn Hk. unfold percent_of.
  pose proof (inject_nat_pos n Hn) as Hp.
  pose proof (inject_nat_nonneg k) as H0.
  pose proof (inject_nat_le k n Hk) as Hle.
  set (a := inject_Z (Z.of_nat k)) in *. set (b := inject_Z (Z.of_nat n)) in *.
  assert (Hq0 : 0 <= a / b).
  { apply Qle_shift_div_l; [exact Hp|]. rewrite Qmult_0_l. exact H0. }
  assert (Hq1 : a / b <= 1).
  { apply Qle_shift_div_r; [exact Hp|]. rewrite Qmult_1_l. exact Hle. }
  set (r := a / b) in *. clearbody r. split; lra.
Qed.

(* ===================================================================== *)
(** * Quality score                                                       *)
(* ===================================================================== *)

Lemma quality_formula_fin (c o : Q) :
  is_fin (fadd (fmul (Fin c) (Fin (7 # 10)))
               (fmul (fsub (Fin 100) (Fin o)) (Fin (3 # 10))))
         ((7 # 10) * c + (3 # 10) * (100 - o)).
Proof. simpl. rewrite !Qred_correct. ring. Qed.

(** C9. [get_quality_score] reads the completeness and the outlier rate
    from the stored results, each taken as 0.0 when the result is absent,
    and returns 0.7 * completeness + 0.3 * (100 - outlier_rate); with both
    inputs in [0, 100] the score is in [0, 100], and with completeness 100
    and outlier rate 0 it is 100, also when the formula is evaluated on
    binary64 floats. *)
Theorem C9_quality_score (self : DataQualityAssessor) :
  let m := get_quality_score self in
  let stored := analysis_results (analyzer self) in
  completeness m = match missing_values stored with
                   | Some r => overall_completeness r
                   | None => Fin 0
                   end /\
  outlier_rate m = match outliers stored with
                   | Some r => percentage r
                   | None => Fin 0
                   end /\
  quality_score m =
    fadd (fmul (Fin (7 # 10)) (completeness m))
         (fmul (Fin (3 # 10)) (fsub (Fin 100) (outlier_rate m))) /\
  (forall c o, completeness m = Fin c -> outlier_rate m = Fin o ->
               is_fin (quality_score m) ((7 # 10) * c + (3 # 10) * (100 - o))) /\
  (in_range 0 100 (completeness m) -> in_range 0 100 (outlier_rate m) ->
   in_range 0 100 (quality_score m)) /\
  (is_fin (completeness m) 100 -> is_fin (outlier_rate m) 0 ->
   is_fin (quality_score m) 100) /\
  quality_score_binary64 100 0 = 100%float.
Proof.
  cbv zeta. unfold get_quality_score. cbn [completeness outlier_rate quality_score].
  split; [reflexivity|]. split; [reflexivity|].
  split.
  { rewrite (fmul_comm (Fin (7 # 10))), (fmul_comm (Fin (3 # 10))). reflexivity. }
  split.
  { intros c o Hc Ho. rewrite Hc, Ho. apply quality_formula_fin. }
  split; [|split; [|vm_compute; reflexivity]].
  - intros Hc Ho.
    destruct (assess_completeness self) as [c| | |]; try contradiction.
    destruct (assess_outlier_rate self) as [o| | |]; try contradiction.
    simpl in *. rewrite !Qred_correct. split; lra.
  - intros Hc Ho.
    destruct (assess_completeness self) as [c| | |]; try contradiction.
    destruct (assess_outlier_rate self) as [o| | |]; try contradiction.
    simpl in *. rewrite !Qred_correct, Hc, Ho. reflexivity.
Qed.

(* ===================================================================== *)
(** * Named columns                                                       *)
(* ===================================================================== *)

Lemma lookup_map_snd {A B : Type} (f : A -> B) (name : string) (l : list (string * A)) :
  lookup name (map (fun na => (fst na, f (snd na))) l) = option_map f (lookup name l).
Proof.
  induction l as [|[n a] l IH]; simpl; [reflexivity|].
  destruct (String.eqb name n); [reflexivity|exact IH].
Qed.

Lemma lookup_In {A : Type} (name : string) (a : A) (l : list (string * A)) :
  lookup name l = Some a -> In (name, a) l.
Proof.
  induction l as [|[n x] l IH]; simpl; [discriminate|].
  destruct (String.eqb_spec name n) as [->|Hne]; intros H.
  - injection H as ->. left. reflexivity.
  - right. apply IH, H.
Qed.

Lemma In_lookup {A : Type} (name : string) (a : A) (l : list (string * A)) :
  NoDup (map fst l) -> In (name, a) l -> lookup name l = Some a.
Proof.
  induction l as [|[n x] l IH]; simpl; [contradiction|].
  intros Hnd [Heq|Hin].
  - injection Heq as -> ->. rewrite String.eqb_refl. reflexivity.
  - inversion Hnd as [|? ? Hnotin Hnd']; subst.
    destruct (String.eqb_spec name n) as [->|Hne].
    + exfalso. apply Hnotin. apply (in_map fst) in Hin. exact Hin.
    + apply IH; assumption.
Qed.

Lemma count_na_le (c : column) : (count_na c <= col_len c)%nat.
Proof. destruct c; simpl; apply filter_length_le. Qed.

Lemma total_missing_le (df : DataFrame) :
  well_formed df -> (total_missing df <= cell_count df)%nat.
Proof.
  intros [Hlen _]. unfold total_missing, cell_count.
  induction (columns df) as [|[n c] l IH]; simpl; [lia|].
  inversion Hlen as [|? ? Hc Hl]; subst. simpl in Hc.
  specialize (IH Hl). pose proof (count_na_le c). lia.
Qed.

(* ===================================================================== *)
(** * Rounding to float64                                                 *)
(* ===================================================================== *)

Lemma pow2_pos (e : Z) : 0 < pow2 e.
Proof. apply Qpower_0_lt. reflexivity. Qed.

Lemma pow2_succ (e : Z) : pow2 (e + 1) == 2 * pow2 e.
Proof.
  unfold pow2. rewrite Qpower_plus by discriminate. rewrite Qpower_1_r. ring.
Qed.

Lemma pow2_le (e e' : Z) : (e <= e')%Z -> pow2 e <= pow2 e'.
Proof. intros H. apply Qpower_le_compat_l; [exact H|discriminate]. Qed.

Lemma pow2_lt_inv (e e' : Z) : pow2 e < pow2 e' -> (e < e')%Z.
Proof. intros H. apply (Qpower_lt_compat_l_inv 2); [exact H|reflexivity]. Qed.

Lemma pow2_log2 (n : Z) :
  (0 < n)%Z -> pow2 (Z.log2 n) <= inject_Z n /\ inject_Z n < 2 * pow2 (Z.log2 n).
Proof.
  intros Hn. destruct (Z.log2_spec n Hn) as [H1 H2].
  pose proof (Z.log2_nonneg n) as H0.
  unfold pow2. change 2 with (inject_Z 2).
  rewrite <- (Zpower_Qpower 2 (Z.log2 n) H0). split.
  - rewrite <- Zle_Qle. exact H1.
  - rewrite <- inject_Z_mult, <- Zlt_Qlt.
    rewrite <- Z.pow_succ_r by exact H0. exact H2.
Qed.

Lemma binade_spec (x : Q) :
  0 < x -> pow2 (binade x) <= x /\ x < pow2 (binade x + 1).
Proof.
  intros Hx. unfold binade.
  destruct x as [a b]. cbn [Qnum Qden].
  assert (Ha : (0 < a)%Z).
  { unfold Qlt in Hx. simpl in Hx. lia. }
  destruct (pow2_log2 a Ha) as [A1 A2].
  destruct (pow2_log2 (Z.pos b) eq_refl) as [B1 B2].
  set (la := Z.log2 a) in *. set (lb := Z.log2 (Z.pos b)) in *.
  assert (HE : pow2 (la - lb) == pow2 la / pow2 lb).
  { unfold pow2. apply Qpower_minus. discriminate. }
  pose proof (pow2_pos la) as Pa. pose proof (pow2_pos lb) as Pb.
  assert (Hx' : a # b == inject_Z a / inject_Z (Z.pos b)) by apply Qmake_Qdiv.
  set (A := inject_Z a) in *. set (B := inject_Z (Z.pos b)) in *.
  set (PA := pow2 la) in *. set (PB := pow2 lb) in *.
  assert (HB : 0 < B) by lra.
  assert (Hlo : pow2 (la - lb) < 2 * (a # b)).
  { rewrite HE, Hx'.
    apply Qlt_shift_div_r; [exact Pb|].
    setoid_replace (2 * (A / B) * PB) with ((2 * A * PB) / B) by (field; lra).
    apply Qlt_shift_div_l; [exact HB|]. nra. }
  assert (Hhi : (a # b) < 2 * pow2 (la - lb)).
  { rewrite HE, Hx'.
    apply Qlt_shift_div_r; [exact HB|].
    setoid_replace (2 * (PA / PB) * B) with ((2 * PA * B) / PB) by (field; lra).
    apply Qlt_shift_div_l; [exact Pb|]. nra. }
  destruct (Qle_bool (pow2 (la - lb)) (a # b)) eqn:E.
  - apply Qle_bool_iff in E. split; [exact E|]. rewrite pow2_succ. exact Hhi.
  - assert (Hlt : (a # b) < pow2 (la - lb)).
    { apply Qnot_le_lt. intros H. apply Qle_bool_iff in H. congruence. }
    replace (la - lb - 1 + 1)%Z with (la - lb)%Z by lia.
    split; [|exact Hlt].
    assert (Hs : pow2 (la - lb) == 2 * pow2 (la - lb - 1)).
    { rewrite <- pow2_succ. replace (la - lb - 1 + 1)%Z with (la - lb)%Z by lia.
      reflexivity. }
    lra.
Qed.

Lemma binade_unique (x : Q) (e : Z) :
  0 < x -> pow2 e <= x -> x < pow2 (e + 1) -> binade x = e.
Proof.
  intros Hx H1 H2. destruct (binade_spec x Hx) as [B1 B2].
  assert (e < binade x + 1)%Z by (apply pow2_lt_inv; lra).
  assert (binade x < e + 1)%Z by (apply pow2_lt_inv; lra).
  lia.
Qed.

Lemma binade_mono (x y : Q) : 0 < x -> x <= y -> (binade x <= binade y)%Z.
Proof.
  intros Hx Hxy. destruct (binade_spec x Hx) as [B1 _].
  destruct (binade_spec y ltac:(lra)) as [_ B2].
  assert (binade x < binade y + 1)%Z by (apply pow2_lt_inv; lra). lia.
Qed.

Lemma binade_proper (x y : Q) : 0 < x -> x == y -> binade x = binade y.
Proof.
  intros Hx E. destruct (binade_spec x Hx) as [B1 B2].
  symmetry. apply binade_unique; lra.
Qed.

Lemma round_half_even_bounds (x : Q) :
  (Qfloor x <= round_half_even x <= Qfloor x + 1)%Z.
Proof.
  unfold round_half_even. destruct (Qcompare _ _); [destruct (Z.even _)| |]; lia.
Qed.

Lemma round_half_even_proper (x y : Q) : x == y -> round_half_even x = round_half_even y.
Proof.
  intros E. unfold round_half_even. rewrite (Qfloor_comp _ _ E).
  assert (Hc : Qcompare (x - inject_Z (Qfloor y)) (1 # 2)
               = Qcompare (y - inject_Z (Qfloor y)) (1 # 2)).
  { apply Qcompare_comp; [rewrite E; reflexivity|reflexivity]. }
  rewrite Hc. reflexivity.
Qed.

Lemma round_half_even_mono (x y : Q) : x <= y -> (round_half_even x <= round_half_even y)%Z.
Proof.
  intros Hxy. pose proof (Qfloor_resp_le _ _ Hxy) as Hf.
  pose proof (round_half_even_bounds x) as Bx. pose proof (round_half_even_bounds y) as By.
  destruct (Z.eq_dec (Qfloor x) (Qfloor y)) as [E|NE]; [|lia].
  unfold round_half_even. rewrite <- E.
  destruct (Qcompare (x - inject_Z (Qfloor x)) (1 # 2)) eqn:Cx;
    destruct (Qcompare (y - inject_Z (Qfloor x)) (1 # 2)) eqn:Cy;
    try (destruct (Z.even (Qfloor x))); try lia; exfalso.
  all: repeat match goal with
         | H : Qcompare _ _ = Eq |- _ => apply Qeq_alt in H
         | H : Qcompare _ _ = Lt |- _ => apply Qlt_alt in H
         | H : Qcompare _ _ = Gt |- _ => apply Qgt_alt in H
         end; lra.
Qed.

Lemma round_half_even_Z (z : Z) : round_half_even (inject_Z z) = z.
Proof.
  unfold round_half_even. rewrite Qfloor_Z.
  assert (H : Qcompare (inject_Z z - inject_Z z) (1 # 2) = Lt).
  { apply Qlt_alt. unfold Qminus. rewrite Qplus_opp_r. reflexivity. }
  rewrite H. reflexivity.
Qed.

Lemma round_to_mono (s : Z) (x y : Q) : x <= y -> round_to s x <= round_to s y.
Proof.
  intros Hxy. unfold round_to. pose proof (pow2_pos s) as Hp.
  apply Qmult_le_compat_r; [|lra].
  rewrite <- Zle_Qle. apply round_half_even_mono.
  apply Qmult_le_compat_r; [exact Hxy|]. apply Qlt_le_weak, Qinv_lt_0_compat, Hp.
Qed.

Lemma round_to_grid (s z : Z) : round_to s (inject_Z z * pow2 s) == inject_Z z * pow2 s.
Proof.
  unfold round_to. pose proof (pow2_pos s) as Hp.
  assert (E : inject_Z z * pow2 s / pow2 s == inject_Z z) by (field; lra).
  rewrite (round_half_even_proper _ _ E), round_half_even_Z. reflexivity.
Qed.

Lemma round_to_proper (s : Z) (x y : Q) : x == y -> round_to s x == round_to s y.
Proof.
  intros E. unfold round_to.
  assert (E' : x / pow2 s == y / pow2 s) by (rewrite E; reflexivity).
  rewrite (round_half_even_proper _ _ E'). reflexivity.
Qed.

Lemma pow2_split (b : Z) : pow2 b == inject_Z (2 ^ 52) * pow2 (b - 52).
Proof.
  rewrite (Zpower_Qpower 2 52) by lia. change (inject_Z 2) with 2. fold (pow2 52).
  unfold pow2. rewrite <- Qpower_plus by discriminate.
  replace (52 + (b - 52))%Z with b by lia. reflexivity.
Qed.

(** The rounded value of a positive number stays in its binade. *)
Lemma round_positive_bounds (x : Q) :
  0 < x ->
  pow2 (binade x) <= round_to (binade x - 52) x /\
  round_to (binade x - 52) x <= pow2 (binade x + 1).
Proof.
  intros Hx. destruct (binade_spec x Hx) as [B1 B2].
  set (b := binade x) in *. split.
  - rewrite (pow2_split b) at 1. rewrite <- round_to_grid.
    apply round_to_mono. rewrite <- pow2_split. exact B1.
  - assert (E : pow2 (b + 1) == inject_Z (2 * 2 ^ 52) * pow2 (b - 52)).
    { rewrite pow2_succ, (pow2_split b), inject_Z_mult. change (inject_Z 2) with 2. ring. }
    rewrite E, <- round_to_grid. apply round_to_mono. rewrite <- E. lra.
Qed.

Lemma round_positive_mono (x y : Q) :
  0 < x -> x <= y ->
  round_to (binade x - 52) x <= round_to (binade y - 52) y.
Proof.
  intros Hx Hxy. assert (Hy : 0 < y) by lra.
  pose proof (binade_mono x y Hx Hxy) as Hb.
  destruct (Z.eq_dec (binade x) (binade y)) as [E|NE].
  - rewrite E. apply round_to_mono, Hxy.
  - destruct (round_positive_bounds x Hx) as [_ U].
    destruct (round_positive_bounds y Hy) as [L _].
    assert (pow2 (binade x + 1) <= pow2 (binade y)) by (apply pow2_le; lia).
    lra.
Qed.

Lemma binary64_pos (x : Q) : 0 < x -> binary64 x = round_to (binade x - 52) x.
Proof.
  intros H. unfold binary64.
  assert (E : Qcompare x 0 = Gt) by (apply Qgt_alt; exact H).
  rewrite E. reflexivity.
Qed.

Lemma binary64_neg (x : Q) : x < 0 -> binary64 x = - round_to (binade (- x) - 52) (- x).
Proof.
  intros H. unfold binary64.
  assert (E : Qcompare x 0 = Lt) by (apply Qlt_alt; exact H).
  rewrite E. reflexivity.
Qed.

Lemma binary64_zero (x : Q) : x == 0 -> binary64 x = 0.
Proof.
  intros H. unfold binary64.
  assert (E : Qcompare x 0 = Eq) by (apply Qeq_alt; exact H).
  rewrite E. reflexivity.
Qed.

Lemma binary64_sign (x : Q) : 0 < x -> 0 < binary64 x.
Proof.
  intros H. rewrite (binary64_pos x H).
  destruct (round_positive_bounds x H) as [L _]. pose proof (pow2_pos (binade x)). lra.
Qed.

Lemma binary64_monotone (x y : Q) : x <= y -> binary64 x <= binary64 y.
Proof.
  intros Hxy.
  destruct (Q_dec x 0) as [[Hx|Hx]|Hx]; destruct (Q_dec y 0) as [[Hy|Hy]|Hy];
    try (exfalso; lra).
  - rewrite (binary64_neg x Hx), (binary64_neg y Hy).
    apply Qopp_le_compat. apply round_positive_mono; lra.
  - pose proof (binary64_sign y Hy). rewrite (binary64_neg x Hx).
    pose proof (binary64_sign (- x) ltac:(lra)) as Hn.
    rewrite (binary64_pos (- x)) in Hn by lra. lra.
  - rewrite (binary64_neg x Hx), (binary64_zero y Hy).
    pose proof (binary64_sign (- x) ltac:(lra)) as Hn.
    rewrite (binary64_pos (- x)) in Hn by lra. lra.
  - rewrite (binary64_pos x Hx), (binary64_pos y Hy). apply round_positive_mono; lra.
  - pose proof (binary64_sign y Hy). rewrite (binary64_zero x Hx). lra.
  - rewrite (binary64_zero x Hx), (binary64_zero y Hy). lra.
Qed.

Lemma binary64_proper (x y : Q) : x == y -> binary64 x == binary64 y.
Proof.
  intros E.
  destruct (Q_dec x 0) as [[Hx|Hx]|Hx].
  - rewrite (binary64_neg x Hx), (binary64_neg y) by lra.
    rewrite (binade_proper (- x) (- y)) by lra.
    apply Qopp_comp, round_to_proper. rewrite E. reflexivity.
  - rewrite (binary64_pos x Hx), (binary64_pos y) by lra.
    rewrite (binade_proper x y Hx E). apply round_to_proper, E.
  - rewrite (binary64_zero x Hx), (binary64_zero y) by lra. reflexivity.
Qed.

(** Rounding to the nearest float64 is a rounding in the sense of the
    statements. *)
Lemma rounding_binary64 : rounding binary64.
Proof.
  constructor.
  - exact binary64_proper.
  - exact binary64_monotone.
  - vm_compute. reflexivity.
  - vm_compute. reflexivity.
  - vm_compute. reflexivity.
Qed.

(** [binary64] gives the results of the machine's float64 operations: the
    percentages of the examples, computed on floats, stand for the
    rationals that [percent_rounded binary64] gives. *)
Lemma binary64_machine_percentages :
  option_map Qred (float_value (11 / 20 * 100)%float)
    = Some (Qred (percent_rounded binary64 11 20)) /\
  option_map Qred (float_value (1 / 3 * 100)%float)
    = Some (Qred (percent_rounded binary64 1 3)).
Proof. split; vm_compute; reflexivity. Qed.

(* ===================================================================== *)
(** * Missing values                                                      *)
(* ===================================================================== *)

Lemma rounded_exact (v : fval) : rounded no_rounding v = v.
Proof. destruct v; reflexivity. Qed.

Lemma rounding_exact : rounding no_rounding.
Proof.
  constructor; unfold no_rounding; intros; try assumption; reflexivity.
Qed.

(** The exact reading of [analyze_missing_values], written out. *)
Lemma analyze_missing_values_exact (self : SolarDataAnalyzer) (threshold : Q) :
  analyze_missing_values self threshold =
  (df <- require_loaded self ;;
   let missing_count := map (fun nc => (fst nc, count_na (snd nc))) (columns df) in
   let missing_percent :=
     map (fun nk => (fst nk, fmul (fdiv (of_nat (snd nk)) (of_nat (nrows df))) (Fin 100)))
         missing_count in
   let critical_columns :=
     map fst (filter (fun np => fgt (snd np) threshold) missing_percent) in
   let overall_completeness :=
     fsub (Fin 100)
          (fmul (fdiv (of_nat (list_sum (map snd missing_count)))
                      (of_nat (nrows df * length (columns df))))
                (Fin 100)) in
   let result := {| missing_count := missing_count;
                    missing_percent := missing_percent;
                    critical_columns := critical_columns;
                    overall_completeness := overall_completeness;
                    threshold := threshold |} in
   Ok (result,
       {| raw_data := raw_data self;
          cleaned_data := cleaned_data self;
          analysis_results :=
            {| missing_values := Some result;
               outliers := outliers (analysis_results self) |} |})).
Proof.
  unfold analyze_missing_values, analyze_missing_values_with.
  destruct (require_loaded self) as [df|e]; [|reflexivity]. cbn [bind]. cbv zeta.
  rewrite !rounded_exact.
  assert (E : map (fun nk : string * nat =>
                     (fst nk,
                      rounded no_rounding
                        (fmul (rounded no_rounding
                                 (fdiv (of_nat (snd nk)) (of_nat (nrows df))))
                              (Fin 100))))
                  (map (fun nc => (fst nc, count_na (snd nc))) (columns df))
              = map (fun nk : string * nat =>
                       (fst nk, fmul (fdiv (of_nat (snd nk)) (of_nat (nrows df))) (Fin 100)))
                    (map (fun nc => (fst nc, count_na (snd nc))) (columns df))).
  { apply map_ext. intros nk. rewrite !rounded_exact. reflexivity. }
  rewrite E. reflexivity.
Qed.

(** With at least one row the rounded share of [k] cells is a finite
    number; it lies in [0, 100] when [k] is at most [n]. *)
Lemma percent_rounded_fin (fl : Q -> Q) (k n : nat) :
  rounding fl -> (0 < n)%nat ->
  exists p,
    rounded fl (fmul (rounded fl (fdiv (of_nat k) (of_nat n))) (Fin 100)) = Fin p /\
    p == percent_rounded fl k n.
Proof.
  intros Hfl Hn. unfold of_nat, fdiv. rewrite (Qeq_bool_nat_pos n Hn).
  cbn [rounded fmul]. eexists. split; [reflexivity|].
  unfold percent_rounded. apply (fl_proper fl Hfl). rewrite Qred_correct.
  apply Qmult_comp; [|reflexivity].
  apply (fl_proper fl Hfl). apply Qred_correct.
Qed.

Lemma percent_rounded_range (fl : Q -> Q) (k n : nat) :
  rounding fl -> (0 < n)%nat -> (k <= n)%nat ->
  0 <= percent_rounded fl k n /\ percent_rounded fl k n <= 100.
Proof.
  intros Hfl Hn Hk. unfold percent_rounded.
  pose proof (inject_nat_pos n Hn) as Hp.
  pose proof (inject_nat_nonneg k) as H0.
  pose proof (inject_nat_le k n Hk) as Hle.
  set (a := inject_Z (Z.of_nat k)) in *. set (b := inject_Z (Z.of_nat n)) in *.
  assert (Hq0 : 0 <= a / b).
  { apply Qle_shift_div_l; [exact Hp|]. rewrite Qmult_0_l. exact H0. }
  assert (Hq1 : a / b <= 1).
  { apply Qle_shift_div_r; [exact Hp|]. rewrite Qmult_1_l. exact Hle. }
  pose proof (fl_monotone fl Hfl _ _ Hq0) as Hr0.
  pose proof (fl_monotone fl Hfl _ _ Hq1) as Hr1.
  rewrite (fl_zero fl Hfl) in Hr0. rewrite (fl_one fl Hfl) in Hr1.
  set (r := fl (a / b)) in *. clearbody r.
  assert (Hs0 : 0 <= r * 100) by lra.
  assert (Hs1 : r * 100 <= 100) by lra.
  pose proof (fl_monotone fl Hfl _ _ Hs0) as Ht0.
  pose proof (fl_monotone fl Hfl _ _ Hs1) as Ht1.
  rewrite (fl_zero fl Hfl) in Ht0. rewrite (fl_hundred fl Hfl) in Ht1.
  split; assumption.
Qed.

Lemma zero_of_zero : fdiv (of_nat 0) (of_nat 0) = NaN.
Proof. reflexivity. Qed.

(** C2, as amended.  The arithmetic is that of float64: every operation
    is rounded, by any rounding [fl] that keeps the order and leaves 0, 1
    and 100 as they are.  For a loaded table [analyze_missing_values]
    reports per column the number of missing cells.  With at least one row
    it reports per column the percentage [count / rows * 100] as the
    floats give it, in [0, 100], and a column is critical exactly when this
    reported percentage is greater than the threshold; with at least one
    column the overall completeness is
    [100 - missing cells / (rows * columns) * 100] as the floats give it,
    in [0, 100].  Without rows the quotients are [0/0]: every percentage
    and the completeness are NaN and no column is critical. *)
Theorem C2_missing_report (fl : Q -> Q) (self : SolarDataAnalyzer) (df : DataFrame)
  (t : Q) :
  rounding fl -> raw_data self = Some df -> well_formed df ->
  exists r s,
    analyze_missing_values_with fl self t = Ok (r, s) /\
    missing_values (analysis_results s) = Some r /\
    missing_count r = map (fun nc => (fst nc, count_na (snd nc))) (columns df) /\
    incl (critical_columns r) (column_names df) /\
    ((0 < nrows df)%nat ->
     (forall name c, In (name, c) (columns df) ->
        exists p, lookup name (missing_percent r) = Some (Fin p) /\
                  p == percent_rounded fl (count_na c) (nrows df) /\
                  0 <= p /\ p <= 100 /\
                  (In name (critical_columns r) <-> t < p)) /\
     (columns df <> [] ->
      exists q, overall_completeness r = Fin q /\
                q == fl (100 - percent_rounded fl (total_missing df) (cell_count df)) /\
                0 <= q /\ q <= 100)) /\
    (nrows df = 0%nat ->
     (forall name c, In (name, c) (columns df) ->
        lookup name (missing_percent r) = Some NaN) /\
     overall_completeness r = NaN /\
     critical_columns r = []).
Proof.
  intros Hfl Hraw Hwf.
  unfold analyze_missing_values_with, require_loaded. rewrite Hraw. cbn [bind].
  eexists. eexists. split; [reflexivity|].
  cbn [analysis_results missing_values missing_count missing_percent
       critical_columns overall_completeness].
  split; [reflexivity|]. split; [reflexivity|].
  destruct Hwf as [Hlen Hnd].
  set (pct := fun k : nat =>
                rounded fl (fmul (rounded fl (fdiv (of_nat k) (of_nat (nrows df))))
                                 (Fin 100))).
  change (map (fun nk : string * nat =>
                 (fst nk,
                  rounded fl (fmul (rounded fl (fdiv (of_nat (snd nk))
                                                     (of_nat (nrows df))))
                                   (Fin 100)))))
    with (map (fun nk : string * nat => (fst nk, pct (snd nk)))).
  assert (Hlookup : forall name c, In (name, c) (columns df) ->
            lookup name
              (map (fun nk : string * nat => (fst nk, pct (snd nk)))
                   (map (fun nc => (fst nc, count_na (snd nc))) (columns df)))
            = Some (pct (count_na c))).
  { intros name c Hin.
    rewrite (lookup_map_snd pct), (lookup_map_snd count_na).
    rewrite (In_lookup name c (columns df) Hnd Hin). reflexivity. }
  assert (Hcrit : forall name,
            In name (map fst (filter (fun np : string * fval => fgt (snd np) t)
                       (map (fun nk : string * nat => (fst nk, pct (snd nk)))
                            (map (fun nc => (fst nc, count_na (snd nc))) (columns df)))))
            <-> exists c, In (name, c) (columns df) /\ fgt (pct (count_na c)) t = true).
  { intros name. rewrite in_map_iff. split.
    - intros [[n p] [Hn Hf]]. simpl in Hn. subst n.
      apply filter_In in Hf. destruct Hf as [Hin Hgt]. cbn [snd] in Hgt.
      apply in_map_iff in Hin. destruct Hin as [[n k] [Heq Hin]].
      cbn [fst snd] in Heq. injection Heq as -> <-.
      apply in_map_iff in Hin. destruct Hin as [[n c] [Heq Hin]].
      cbn [fst snd] in Heq. injection Heq as -> <-.
      exists c. split; [exact Hin|exact Hgt].
    - intros [c [Hin Hgt]].
      exists (name, pct (count_na c)). split; [reflexivity|].
      apply filter_In. split; [|exact Hgt].
      apply in_map_iff. exists (name, count_na c). split; [reflexivity|].
      apply in_map_iff. exists (name, c). split; [reflexivity|exact Hin]. }
  split; [|split].
  - intros name Hin. apply Hcrit in Hin. destruct Hin as [c [Hin _]].
    apply (in_map fst) in Hin. exact Hin.
  - intros Hrows. split.
    + intros name c Hin.
      destruct (percent_rounded_fin fl (count_na c) (nrows df) Hfl Hrows) as [p [Hp Hpq]].
      fold (pct (count_na c)) in Hp.
      exists p. split; [rewrite (Hlookup name c Hin), Hp; reflexivity|].
      split; [exact Hpq|].
      assert (Hle : (count_na c <= nrows df)%nat).
      { rewrite Forall_forall in Hlen. specialize (Hlen _ Hin). simpl in Hlen.
        rewrite <- Hlen. apply count_na_le. }
      destruct (percent_rounded_range fl _ _ Hfl Hrows Hle) as [H0 H1].
      split; [rewrite Hpq; exact H0|]. split; [rewrite Hpq; exact H1|].
      rewrite Hcrit. split.
      * intros [c' [Hin' Hgt]].
        assert (c' = c).
        { pose proof (In_lookup name c' _ Hnd Hin') as E1.
          pose proof (In_lookup name c _ Hnd Hin) as E2. congruence. }
        subst c'. rewrite Hp in Hgt. apply fgt_Fin, Hgt.
      * intros Hgt. exists c. split; [exact Hin|]. rewrite Hp. apply fgt_Fin, Hgt.
    + intros Hcols.
      assert (Hcells : (0 < cell_count df)%nat).
      { unfold cell_count. destruct (columns df); [congruence|]. simpl. lia. }
      rewrite map_map. cbn [snd].
      fold (total_missing df). fold (cell_count df).
      destruct (percent_rounded_fin fl (total_missing df) (cell_count df) Hfl Hcells)
        as [p [Hp Hpq]].
      unfold of_nat, fdiv in Hp |- *. rewrite (Qeq_bool_nat_pos _ Hcells) in Hp |- *.
      cbn [rounded fmul fsub fopp fadd] in Hp |- *. injection Hp as Hp.
      eexists. split; [reflexivity|].
      destruct (percent_rounded_range fl _ _ Hfl Hcells
                  (total_missing_le df (conj Hlen Hnd))) as [H0 H1].
      rewrite <- Hpq in H0, H1.
      assert (Heq : Qred (100 + Qred (- p)) == 100 - p).
      { rewrite !Qred_correct. ring. }
      rewrite Hp.
      split.
      { apply (fl_proper fl Hfl). rewrite Heq, Hpq. reflexivity. }
      assert (Hlo : 0 <= Qred (100 + Qred (- p))) by (rewrite Heq; lra).
      assert (Hhi : Qred (100 + Qred (- p)) <= 100) by (rewrite Heq; lra).
      pose proof (fl_monotone fl Hfl _ _ Hlo) as Ht0.
      pose proof (fl_monotone fl Hfl _ _ Hhi) as Ht1.
      rewrite (fl_zero fl Hfl) in Ht0. rewrite (fl_hundred fl Hfl) in Ht1.
      split; assumption.
  - intros Hrows.
    assert (Hzero : forall name c, In (name, c) (columns df) -> count_na c = 0%nat).
    { intros name c Hin. rewrite Forall_forall in Hlen. specialize (Hlen _ Hin).
      simpl in Hlen. pose proof (count_na_le c). lia. }
    assert (Hnan : forall name c, In (name, c) (columns df) -> pct (count_na c) = NaN).
    { intros name c Hin. unfold pct. rewrite (Hzero name c Hin), Hrows. reflexivity. }
    split; [|split].
    + intros name c Hin. rewrite (Hlookup name c Hin), (Hnan name c Hin). reflexivity.
    + rewrite map_map. cbn [snd]. fold (total_missing df).
      assert (Htot : total_missing df = 0%nat).
      { pose proof (total_missing_le df (conj Hlen Hnd)) as H.
        unfold cell_count in H. rewrite Hrows in H. simpl in H. lia. }
      rewrite Htot, Hrows. reflexivity.
    + assert (Hnone : forall name,
                ~ In name
                    (map fst (filter (fun np : string * fval => fgt (snd np) t)
                       (map (fun nk : string * nat => (fst nk, pct (snd nk)))
                            (map (fun nc => (fst nc, count_na (snd nc))) (columns df)))))).
      { intros name Hin. apply Hcrit in Hin. destruct Hin as [c [Hin Hgt]].
        rewrite (Hnan name c Hin) in Hgt. discriminate. }
      destruct (map fst _) as [|name l]; [reflexivity|].
      exfalso. apply (Hnone name). left. reflexivity.
Qed.

Lemma scenario_well_formed : well_formed scenario.
Proof. solve_well_formed. Qed.

Lemma eleven_of_twenty_well_formed : well_formed eleven_of_twenty.
Proof. solve_well_formed. Qed.

(** With the rounding of float64, on a table of twenty rows: the column
    that misses eleven cells is reported at a percentage above 55 and is
    critical at the threshold 55. *)
Lemma C2_missing_report_witness :
  exists r s,
    analyze_missing_values_with binary64 (loaded eleven_of_twenty) 55 = Ok (r, s) /\
    In "GHI" (critical_columns r) /\ ~ In "DNI" (critical_columns r) /\
    (exists p, lookup "GHI" (missing_percent r) = Some (Fin p) /\ 55 < p) /\
    exists q, overall_completeness r = Fin q /\ 0 <= q /\ q <= 100.
Proof.
  destruct (C2_missing_report binary64 (loaded eleven_of_twenty) eleven_of_twenty 55
              rounding_binary64 eq_refl eleven_of_twenty_well_formed)
    as [r [s [Hrun [_ [_ [_ [Hrows _]]]]]]].
  destruct Hrows as [Hcol Hall]; [simpl; lia|].
  exists r, s. split; [exact Hrun|].
  destruct (Hcol "GHI" (NumCol (repeat None 11 ++ repeat (Some 1) 9)))
    as [p [Hlook [Hp [_ [_ Hcrit]]]]]; [left; reflexivity|].
  destruct (Hcol "DNI" (NumCol (repeat (Some 1) 20)))
    as [p' [_ [Hp' [_ [_ Hcrit']]]]]; [right; left; reflexivity|].
  assert (Hgt : 55 < p) by (rewrite Hp; vm_compute; reflexivity).
  split; [apply Hcrit; exact Hgt|].
  split; [intros H; apply Hcrit' in H; rewrite Hp' in H; vm_compute in H; discriminate|].
  split; [exists p; split; [exact Hlook|exact Hgt]|].
  destruct Hall as [q [Hq [_ Hr]]]; [simpl; discriminate|].
  exists q. split; [exact Hq|exact Hr].
Defined.

(** C2 as stated fails twice.  On a file that holds only a header line
    the percentage of the column is [0/0], which is NaN and not a number of
    [0, 100], and the overall completeness is NaN as well, whatever the
    rounding.  And with the rounding of float64 the critical columns are
    those whose computed percentage exceeds the threshold, not those whose
    share of missing cells does: eleven missing cells of twenty are 55
    percent, the computed percentage is above 55, and the column is
    critical at the threshold 55. *)
Lemma C2_header_only_counterexample :
  (well_formed header_only /\
   forall fl,
     ~ (forall r s,
          analyze_missing_values_with fl (loaded header_only) 5 = Ok (r, s) ->
          (forall name p, lookup name (missing_percent r) = Some p -> in_range 0 100 p) /\
          in_range 0 100 (overall_completeness r))) /\
  (well_formed eleven_of_twenty /\
   percent_of 11 20 == 55 /\
   ~ (forall r s,
        analyze_missing_values_with binary64 (loaded eleven_of_twenty) 55 = Ok (r, s) ->
        forall name c, In (name, c) (columns eleven_of_twenty) ->
          (In name (critical_columns r) <->
           55 < percent_of (count_na c) (nrows eleven_of_twenty)))).
Proof.
  split; split; try solve_well_formed.
  - intros fl H.
    destruct (H _ _ eq_refl) as [Hcol _].
    exact (Hcol "GHI" NaN eq_refl).
  - split; [vm_compute; reflexivity|].
    intros H.
    destruct (H _ _ eq_refl "GHI" (NumCol (repeat None 11 ++ repeat (Some 1) 9)))
      as [Hcrit _]; [left; reflexivity|].
    assert (Hlt : 55 < percent_of 11 20) by (apply Hcrit; vm_compute; left; reflexivity).
    vm_compute in Hlt. discriminate.
Qed.

(** C1, as amended.  On the scenario table the median that [clean_data]
    computes for GHI is that of the values present before any overwrite,
    100 and -5, that is 47.5; clamping happens afterwards.  Without
    copy-on-write the missing entry receives it and [clean_data] yields the
    GHI column [100, 47.5, 0]; with copy-on-write the fill does not reach
    the table and the column is [100, NaN, 0].  [analyze_missing_values]
    reports for GHI one missing cell and the percentage that float64 gives
    for [1 / 3 * 100], a number between 33.33 and 33.34. *)
Theorem C1_scenario :
  median_with binary64 [Some 100; None; Some (-5)] = Some (95 # 2) /\
  (exists cleaned s,
     clean_data binary64 false (loaded scenario) None = Ok (cleaned, s) /\
     get_column cleaned "GHI" = Some (NumCol [Some 100; Some (95 # 2); Some 0])) /\
  (exists cleaned s,
     clean_data binary64 true (loaded scenario) None = Ok (cleaned, s) /\
     get_column cleaned "GHI" = Some (NumCol [Some 100; None; Some 0])) /\
  (forall t, exists r s p,
     analyze_missing_values_with binary64 (loaded scenario) t = Ok (r, s) /\
     lookup "GHI" (missing_count r) = Some 1%nat /\
     lookup "GHI" (missing_percent r) = Some (Fin p) /\
     p == percent_rounded binary64 1 3 /\
     3333 # 100 < p /\ p < 3334 # 100).
Proof.
  split; [reflexivity|].
  split; [eexists; eexists; split; reflexivity|].
  split; [eexists; eexists; split; reflexivity|].
  intros t. eexists. eexists. exists (percent_rounded binary64 1 3).
  split; [reflexivity|]. split; [reflexivity|].
  split; [vm_compute; reflexivity|].
  split; [reflexivity|]. split; vm_compute; reflexivity.
Qed.

(** C1 as stated fails: with or without copy-on-write the imputed cell of
    the cleaned GHI column is not 100, and the reported percentage is not
    the number 33.33. *)
Lemma C1_scenario_counterexample :
  (forall copy_on_write,
     ~ (exists cleaned s xs,
          clean_data binary64 copy_on_write (loaded scenario) None = Ok (cleaned, s) /\
          get_column cleaned "GHI" = Some (NumCol xs) /\
          cells_eqv xs [Some 100; Some 100; Some 0])) /\
  ~ (exists r s p,
       analyze_missing_values_with binary64 (loaded scenario) 5 = Ok (r, s) /\
       lookup "GHI" (missing_percent r) = Some p /\
       is_fin p (3333 # 100)).
Proof.
  split.
  - intros cow [cleaned [s [xs [Hrun [Hcol Heqv]]]]].
    destruct cow; vm_compute in Hrun; injection Hrun as <- _;
      vm_compute in Hcol; injection Hcol as <-;
      inversion Heqv as [|? ? ? ? _ Htl]; subst;
      inversion Htl as [|? ? ? ? Hcell _]; subst;
      vm_compute in Hcell; [contradiction|discriminate].
  - intros [r [s [p [Hrun [Hcol Hfin]]]]].
    vm_compute in Hrun. injection Hrun as <- _.
    vm_compute in Hcol. injection Hcol as <-.
    vm_compute in Hfin. discriminate.
Qed.

(* ===================================================================== *)
(** * Outliers                                                            *)
(* ===================================================================== *)

Lemma has_column_get (df : DataFrame) (name : string) :
  has_column df name = true <-> exists c, get_column df name = Some c.
Proof.
  unfold has_column, get_column, column_names.
  induction (columns df) as [|[n c] l IH]; simpl.
  - split; [discriminate|intros [c H]; discriminate].
  - destruct (String.eqb name n); simpl.
    + split; [intros _; exists c; reflexivity|reflexivity].
    + exact IH.
Qed.

Lemma has_column_false (df : DataFrame) (name : string) :
  has_column df name = false <-> get_column df name = None.
Proof.
  pose proof (has_column_get df name) as H.
  destruct (has_column df name), (get_column df name) as [c|]; split; intros E;
    try reflexivity; try discriminate.
  - destruct (proj1 H eq_refl) as [c Hc]. discriminate.
  - assert (Hf : false = true) by (apply H; exists c; reflexivity). discriminate.
Qed.

(** The threshold gets stricter as it grows. *)
Lemma abs_gt_antitone (v : sqfrac) (t1 t2 : Q) :
  t1 <= t2 -> abs_gt v t2 = true -> abs_gt v t1 = true.
Proof.
  unfold abs_gt. intros Hle.
  destruct (Qle_bool (sq_rad v) 0) eqn:Hrad; [trivial|].
  apply Qle_bool_false in Hrad.
  destruct (Qle_bool 0 t1) eqn:H1; simpl; [|reflexivity].
  apply Qle_bool_iff in H1.
  assert (H2 : Qle_bool 0 t2 = true) by (apply Qle_bool_iff; lra).
  rewrite H2. simpl. rewrite !not_Qle_bool. intros Hgt.
  apply Qle_lt_trans with (t2 * t2 * sq_rad v); [|exact Hgt].
  apply Qmult_le_compat_r; [|lra].
  nra.
Qed.

Lemma exceeds_antitone (z : option sqfrac) (t1 t2 : Q) :
  t1 <= t2 -> exceeds t2 z = true -> exceeds t1 z = true.
Proof. destruct z; simpl; [apply abs_gt_antitone|trivial]. Qed.

Lemma any_axis1_length (rows : nat) (cols : list (list bool)) :
  length (any_axis1 rows cols) = rows.
Proof. unfold any_axis1. rewrite length_map, length_seq. reflexivity. Qed.

Lemma any_axis1_nth (rows : nat) (cols : list (list bool)) (i : nat) :
  (i < rows)%nat ->
  nth i (any_axis1 rows cols) false = existsb (fun c => nth i c false) cols.
Proof.
  intros Hi. unfold any_axis1.
  rewrite (nth_indep _ false (existsb (fun c => nth 0 c false) cols))
    by (rewrite length_map, length_seq; exact Hi).
  rewrite (map_nth (fun i => existsb (fun c => nth i c false) cols) (seq 0 rows) 0%nat).
  rewrite seq_nth by exact Hi. reflexivity.
Qed.

Lemma count_true_mono {A : Type} (f g : A -> bool) (l : list A) :
  (forall x, In x l -> f x = true -> g x = true) ->
  (count_true (map f l) <= count_true (map g l))%nat.
Proof.
  unfold count_true. induction l as [|x l IH]; intros H; simpl; [lia|].
  assert (IH' := IH (fun y Hy => H y (or_intror Hy))).
  destruct (f x) eqn:Hf.
  - rewrite (H x (or_introl eq_refl) Hf). simpl. lia.
  - destruct (g x); simpl; lia.
Qed.

(** The z-scores of a selection of numeric columns. *)
Lemma zscore_steps (cols : list (string * column)) (acc : list (list (option sqfrac))) :
  Forall (fun nc => is_numeric (snd nc) = true) cols ->
  for_each (fun acc nc =>
              z <- zscore_exact (snd nc) ;;
              Ok (acc ++ [z])%list) cols acc
  = Ok (acc ++ map zscore_column (map snd (numeric_columns cols)))%list.
Proof.
  intros H. revert acc. induction H as [|[n c] l Hc Hl IH]; intros acc; simpl.
  - rewrite app_nil_r. reflexivity.
  - destruct c as [xs|xs]; [|discriminate]. simpl.
    rewrite IH, <- app_assoc. reflexivity.
Qed.

Lemma zscore_numeric (cols : list (string * column)) :
  Forall (fun nc => is_numeric (snd nc) = true) cols ->
  zscore cols = Ok (map zscore_column (map snd (numeric_columns cols))).
Proof.
  intros H. unfold zscore, zscore_with. rewrite (zscore_steps cols [] H). reflexivity.
Qed.

(** The exact reading of [detect_outliers], written out. *)
Lemma detect_outliers_exact (self : SolarDataAnalyzer) (columns : list string)
  (z_threshold : Q) :
  detect_outliers self columns z_threshold =
  (df <- require_loaded self ;;
   let available_cols := filter (has_column df) columns in
   match available_cols with
   | [] => Raise (ValueError "None of the specified columns found")
   | _ =>
       z_scores <- zscore (select_columns df available_cols) ;;
       let outlier_mask :=
         any_axis1 (nrows df) (map (map (exceeds z_threshold)) z_scores) in
       Ok (outlier_mask,
           {| raw_data := raw_data self;
              cleaned_data := cleaned_data self;
              analysis_results :=
                {| missing_values := missing_values (analysis_results self);
                   outliers :=
                     Some {| mask := outlier_mask;
                             count := count_true outlier_mask;
                             percentage :=
                               fmul (fdiv (of_nat (count_true outlier_mask))
                                          (of_nat (nrows df)))
                                    (Fin 100) |} |} |})
   end).
Proof.
  unfold detect_outliers, detect_outliers_with.
  destruct (require_loaded self) as [df|e]; [|reflexivity]. cbn [bind]. cbv zeta.
  destruct (filter (has_column df) columns) as [|a l]; [reflexivity|].
  change (zscore_with zscore_exact) with zscore.
  destruct (zscore (select_columns df (a :: l))) as [zs|e]; [|reflexivity].
  cbn [bind]. rewrite !rounded_exact. reflexivity.
Qed.

(** A loop raises when the body raises on one of the items, whatever the
    state it is reached in. *)
Lemma for_each_raises {A S : Type} (body : S -> A -> result S) (xs : list A) (s : S)
  (x : A) :
  In x xs -> (forall s', raises (body s' x)) -> raises (for_each body xs s).
Proof.
  intros Hin Hx. revert s. induction xs as [|a l IH]; intros s; [contradiction|].
  simpl. destruct Hin as [->|Hin].
  - specialize (Hx s). destruct (body s x); [contradiction|exact I].
  - destruct (body s a); cbn [bind]; [apply IH, Hin|exact I].
Qed.

(** The z-scores of a selection of columns for which the library returns. *)
Lemma zscore_with_steps (scipy_zscore : column -> result (list (option sqfrac)))
  (cols : list (string * column)) (zss acc : list (list (option sqfrac))) :
  Forall2 (fun nc zs => scipy_zscore (snd nc) = Ok zs) cols zss ->
  for_each (fun acc nc =>
              z <- scipy_zscore (snd nc) ;;
              Ok (acc ++ [z])%list) cols acc
  = Ok (acc ++ zss)%list.
Proof.
  intros H. revert acc. induction H as [|nc zs cols zss Hz _ IH]; intros acc; simpl.
  - rewrite app_nil_r. reflexivity.
  - rewrite Hz. cbn [bind]. rewrite IH, <- app_assoc. reflexivity.
Qed.

Lemma zscore_with_numeric (scipy_zscore : column -> result (list (option sqfrac)))
  (cols : list (string * column)) :
  zscore_contract scipy_zscore ->
  Forall (fun nc => is_numeric (snd nc) = true) cols ->
  exists zss,
    zscore_with scipy_zscore cols = Ok zss /\
    Forall2 (fun nc zs => scipy_zscore (snd nc) = Ok zs) cols zss.
Proof.
  intros Hlib Hnum.
  assert (H : exists zss, Forall2 (fun nc zs => scipy_zscore (snd nc) = Ok zs) cols zss).
  { induction Hnum as [|[n c] l Hc _ IH]; [exists []; constructor|].
    destruct IH as [zss IH]. destruct c as [xs|xs]; [|discriminate].
    destruct (zscore_numeric_column _ Hlib xs) as [zs [Hzs _]].
    exists (zs :: zss). constructor; assumption. }
  destruct H as [zss H]. exists zss. split; [|exact H].
  unfold zscore_with. rewrite (zscore_with_steps _ _ zss [] H). reflexivity.
Qed.

Lemma Forall2_In_l {A B : Type} (R : A -> B -> Prop) (l : list A) (l' : list B) (a : A) :
  Forall2 R l l' -> In a l -> exists b, In b l' /\ R a b.
Proof.
  induction 1 as [|x y l l' Hxy _ IH]; [contradiction|].
  intros [->|Hin].
  - exists y. split; [left; reflexivity|exact Hxy].
  - destruct (IH Hin) as [b [Hb Hab]]. exists b. split; [right; exact Hb|exact Hab].
Qed.

Lemma Forall2_In_r {A B : Type} (R : A -> B -> Prop) (l : list A) (l' : list B) (b : B) :
  Forall2 R l l' -> In b l' -> exists a, In a l /\ R a b.
Proof.
  induction 1 as [|x y l l' Hxy _ IH]; [contradiction|].
  intros [->|Hin].
  - exists x. split; [left; reflexivity|exact Hxy].
  - destruct (IH Hin) as [a [Ha Hab]]. exists a. split; [right; exact Ha|exact Hab].
Qed.

Lemma exceeds_nth (t : Q) (zs : list (option sqfrac)) (i : nat) :
  nth i (map (exceeds t) zs) false = true <->
  exists v, nth i zs None = Some v /\ abs_gt v t = true.
Proof.
  rewrite (map_nth (exceeds t) zs None).
  destruct (nth i zs None) as [v|]; simpl.
  - split; [intros H; exists v; split; [reflexivity|exact H]|].
    intros [w [Hw H]]. injection Hw as ->. exact H.
  - split; [discriminate|intros [w [Hw _]]; discriminate].
Qed.

Lemma zscore_exact_contract : zscore_contract zscore_exact.
Proof.
  constructor.
  - intros xs. exists (zscore_column xs). split; [reflexivity|].
    unfold zscore_column. split; [apply length_map|].
    intros i Hi.
    rewrite (map_nth (option_map (fun x => mkSqfrac (x - mean (present xs))
                                                   (variance (present xs)))) xs None).
    rewrite Hi. reflexivity.
  - intros xs s _. exact I.
Qed.

Lemma select_columns_In (df : DataFrame) (names : list string) (n : string) (c : column) :
  In (n, c) (select_columns df names) <-> In n names /\ get_column df n = Some c.
Proof.
  unfold select_columns. rewrite in_flat_map. split.
  - intros [m [Hm Hin]]. destruct (get_column df m) as [c'|] eqn:E; [|contradiction].
    destruct Hin as [Heq|[]]. injection Heq as -> ->. split; assumption.
  - intros [Hn Hc]. exists n. split; [exact Hn|]. rewrite Hc. left. reflexivity.
Qed.

Lemma numeric_columns_In (cols : list (string * column)) (n : string) (xs : list (option Q)) :
  In (n, xs) (numeric_columns cols) <-> In (n, NumCol xs) cols.
Proof.
  unfold numeric_columns. rewrite in_flat_map. split.
  - intros [[m c] [Hm Hin]]. simpl in Hin. destruct c as [ys|ys]; [|contradiction].
    destruct Hin as [Heq|[]]. injection Heq as -> ->. exact Hm.
  - intros H. exists (n, NumCol xs). split; [exact H|]. left. reflexivity.
Qed.

Lemma exceeds_zscore_nth (t : Q) (xs : list (option Q)) (i : nat) :
  nth i (map (exceeds t) (zscore_column xs)) false = true <->
  exists x, nth i xs None = Some x /\
            abs_gt (mkSqfrac (x - mean (present xs)) (variance (present xs))) t = true.
Proof.
  unfold zscore_column. rewrite map_map.
  rewrite (map_nth (fun o => exceeds t (option_map _ o)) xs None).
  destruct (nth i xs None) as [x|]; simpl.
  - split; [intros H; exists x; split; [reflexivity|exact H]|].
    intros [y [Hy H]]. injection Hy as ->. exact H.
  - split; [discriminate|intros [y [Hy _]]; discriminate].
Qed.

Lemma flagged_exists (df : DataFrame) (names : list string) (t : Q) (i : nat) :
  existsb (fun c => nth i c false)
          (map (map (exceeds t))
               (map zscore_column (map snd (numeric_columns (select_columns df names)))))
  = true <->
  exists name xs x,
    In name names /\ get_column df name = Some (NumCol xs) /\
    nth i xs None = Some x /\
    abs_gt (mkSqfrac (x - mean (present xs)) (variance (present xs))) t = true.
Proof.
  rewrite existsb_exists. split.
  - intros [c [Hc Hi]].
    apply in_map_iff in Hc. destruct Hc as [z [<- Hz]].
    apply in_map_iff in Hz. destruct Hz as [xs [<- Hxs]].
    apply in_map_iff in Hxs. destruct Hxs as [[n ys] [Heq Hin]].
    simpl in Heq. subst ys.
    apply numeric_columns_In, select_columns_In in Hin. destruct Hin as [Hn Hget].
    apply exceeds_zscore_nth in Hi. destruct Hi as [x [Hx Hgt]].
    exists n, xs, x. repeat split; assumption.
  - intros [n [xs [x [Hn [Hget [Hx Hgt]]]]]].
    exists (map (exceeds t) (zscore_column xs)). split.
    + apply in_map, in_map. apply in_map_iff. exists (n, xs). split; [reflexivity|].
      apply numeric_columns_In, select_columns_In. split; assumption.
    + apply exceeds_zscore_nth. exists x. split; assumption.
Qed.

Lemma available_numeric (df : DataFrame) (cols : list string) :
  (forall name c, In name cols -> get_column df name = Some c -> is_numeric c = true) ->
  Forall (fun nc => is_numeric (snd nc) = true)
         (select_columns df (filter (has_column df) cols)).
Proof.
  intros H. apply Forall_forall. intros [n c] Hin.
  apply select_columns_In in Hin. destruct Hin as [Hn Hget].
  apply filter_In in Hn. destruct Hn as [Hn _]. simpl. exact (H n c Hn Hget).
Qed.

(** C4.  For a fixed table and column list the number of flagged rows
    does not grow with the threshold: whether [detect_outliers] returns
    does not depend on the threshold, and for [t1 < t2] the count at [t1]
    is at least the count at [t2]. *)
Theorem C4_outlier_count_antitone (self : SolarDataAnalyzer) (cols : list string)
  (t1 t2 : Q) :
  t1 < t2 ->
  (raises (detect_outliers self cols t1) <-> raises (detect_outliers self cols t2)) /\
  (forall m1 s1 m2 s2,
     detect_outliers self cols t1 = Ok (m1, s1) ->
     detect_outliers self cols t2 = Ok (m2, s2) ->
     (count_true m2 <= count_true m1)%nat /\
     exists r1 r2,
       outliers (analysis_results s1) = Some r1 /\
       outliers (analysis_results s2) = Some r2 /\
       (count r2 <= count r1)%nat).
Proof.
  intros Hlt. rewrite !detect_outliers_exact.
  destruct (require_loaded self) as [df|e]; cbn [bind]; [|split; [tauto|discriminate]].
  destruct (filter (has_column df) cols) as [|a l]; [split; [tauto|discriminate]|].
  destruct (zscore (select_columns df (a :: l))) as [z|e]; cbn [bind];
    [|split; [tauto|discriminate]].
  split; [simpl; tauto|].
  intros m1 s1 m2 s2 H1 H2.
  injection H1 as <- <-. injection H2 as <- <-.
  assert (Hc : (count_true (any_axis1 (nrows df) (map (map (exceeds t2)) z)) <=
                count_true (any_axis1 (nrows df) (map (map (exceeds t1)) z)))%nat).
  { unfold any_axis1. apply count_true_mono. intros i _.
    rewrite !existsb_exists. intros [c [Hc Hi]].
    apply in_map_iff in Hc. destruct Hc as [zc [<- Hz]].
    exists (map (exceeds t1) zc). split; [apply in_map, Hz|].
    rewrite (map_nth (exceeds t2) zc None) in Hi.
    rewrite (map_nth (exceeds t1) zc None).
    apply (exceeds_antitone _ t1 t2); [lra|exact Hi]. }
  split; [exact Hc|].
  eexists. eexists. split; [reflexivity|]. split; [reflexivity|]. exact Hc.
Qed.

Lemma C4_outlier_count_antitone_witness :
  1 < 2 /\
  exists m1 s1 m2 s2,
    detect_outliers (loaded scenario) ["GHI"; "DNI"] 1 = Ok (m1, s1) /\
    detect_outliers (loaded scenario) ["GHI"; "DNI"] 2 = Ok (m2, s2) /\
    (count_true m2 <= count_true m1)%nat.
Proof.
  assert (Hlt : 1 < 2) by reflexivity.
  split; [exact Hlt|].
  do 4 eexists.
  split; [vm_compute; reflexivity|].
  split; [vm_compute; reflexivity|].
  refine (proj1 (proj2 (C4_outlier_count_antitone
                          (loaded scenario) ["GHI"; "DNI"] 1 2 Hlt) _ _ _ _ _ _));
    vm_compute; reflexivity.
Defined.

(* ===================================================================== *)
(** * The comparison of z-scores and coefficients over the reals          *)
(* ===================================================================== *)

Lemma Qsquare_nonneg (a : Q) : 0 <= a * a.
Proof. unfold Qle, Qmult. simpl. rewrite Z.mul_1_r. apply Z.square_nonneg. Qed.

Lemma Qsum_sq_nonneg {A : Type} (f : A -> Q) (l : list A) :
  0 <= Qsum (map (fun a => f a * f a) l).
Proof.
  induction l as [|x l IH]; simpl; [lra|].
  pose proof (Qsquare_nonneg (f x)). lra.
Qed.

Lemma Qsum_sq_zero {A : Type} (f : A -> Q) (l : list A) (a : A) :
  In a l -> Qsum (map (fun a => f a * f a) l) <= 0 -> f a == 0.
Proof.
  induction l as [|y l IH]; simpl; [contradiction|].
  intros Hin Hle.
  pose proof (Qsum_sq_nonneg f l) as Hl.
  pose proof (Qsquare_nonneg (f y)) as Hy.
  destruct Hin as [->|Hin].
  - assert (Hsq : f a * f a == 0) by lra.
    destruct (Qmult_integral _ _ Hsq); assumption.
  - apply IH; [exact Hin|lra].
Qed.

Lemma Qsum_squares_nonneg (m : Q) (l : list Q) :
  0 <= Qsum (map (fun x => (x - m) * (x - m)) l).
Proof. apply (Qsum_sq_nonneg (fun x => x - m)). Qed.

Lemma Qsum_squares_zero (m : Q) (l : list Q) (x : Q) :
  In x l -> Qsum (map (fun x => (x - m) * (x - m)) l) <= 0 -> x - m == 0.
Proof. apply (Qsum_sq_zero (fun x => x - m)). Qed.

Lemma Qsum_zero {A : Type} (f : A -> Q) (l : list A) :
  (forall a, In a l -> f a == 0) -> Qsum (map f l) == 0.
Proof.
  induction l as [|x l IH]; intros H; simpl; [reflexivity|].
  rewrite (H x (or_introl eq_refl)), IH; [reflexivity|].
  intros a Ha. apply H. right. exact Ha.
Qed.

Lemma Qlen_pos {A : Type} (l : list A) (x : A) : In x l -> 0 < Qlen l.
Proof.
  intros H. apply inject_nat_pos. destruct l; [contradiction|simpl; lia].
Qed.

Lemma variance_nonneg (l : list Q) : 0 <= variance l.
Proof.
  unfold variance. destruct l as [|x l].
  - vm_compute. discriminate.
  - apply Qle_shift_div_l; [apply (Qlen_pos _ x); left; reflexivity|].
    rewrite Qmult_0_l. apply Qsum_squares_nonneg.
Qed.

Lemma In_present (xs : list (option Q)) (x : Q) : In (Some x) xs <-> In x (present xs).
Proof.
  unfold present. rewrite in_flat_map. split.
  - intros H. exists (Some x). split; [exact H|left; reflexivity].
  - intros [[y|] [Hy Hin]]; [|contradiction].
    destruct Hin as [->|[]]. exact Hy.
Qed.

(** In a column whose present values have no spread every z-score is
    [0/0]: no cell of the column is ever flagged. *)
Lemma zscore_constant_column (xs : list (option Q)) (x t : Q) :
  In (Some x) xs -> variance (present xs) <= 0 ->
  abs_gt (mkSqfrac (x - mean (present xs)) (variance (present xs))) t = false.
Proof.
  intros Hin Hvar. apply In_present in Hin.
  unfold abs_gt. cbn [sq_num sq_rad].
  assert (Hb : Qle_bool (variance (present xs)) 0 = true) by (apply Qle_bool_iff, Hvar).
  rewrite Hb. apply negb_false_iff, Qeq_bool_iff.
  apply (Qsum_squares_zero _ (present xs)); [exact Hin|].
  unfold variance in Hvar.
  pose proof (Qlen_pos _ _ Hin) as Hn.
  apply Qmult_le_r with (z := / Qlen (present xs)); [apply Qinv_lt_0_compat, Hn|].
  rewrite Qmult_0_l. exact Hvar.
Qed.

(** With a positive radicand the test on squares is the comparison
    [|num| / sqrt rad > t] of real numbers. *)
Lemma abs_gt_real (v : sqfrac) (t : Q) :
  0 < sq_rad v ->
  (abs_gt v t = true <->
   (Q2R t < Rabs (Q2R (sq_num v)) / sqrt (Q2R (sq_rad v)))%R).
Proof.
  intros Hrad. unfold abs_gt.
  assert (Hb : Qle_bool (sq_rad v) 0 = false) by (apply Qle_bool_false, Hrad).
  rewrite Hb.
  assert (HradR : (0 < Q2R (sq_rad v))%R).
  { replace 0%R with (Q2R 0) by apply RMicromega.Q2R_0. apply Qlt_Rlt, Hrad. }
  set (n := Q2R (sq_num v)) in *. set (r := Q2R (sq_rad v)) in *.
  pose proof (sqrt_lt_R0 r HradR) as Hs.
  pose proof (sqrt_sqrt r (Rlt_le _ _ HradR)) as Hss.
  set (s := sqrt r) in *.
  pose proof (Rabs_pos n) as Hn0.
  assert (Hnn : (Rabs n * Rabs n = n * n)%R).
  { unfold Rabs. destruct (Rcase_abs n); Lra.nra. }
  assert (Hdiv : forall a, (a < Rabs n / s <-> a * s < Rabs n)%R).
  { intros a. unfold Rdiv. split; intros H.
    - apply Rmult_lt_reg_r with (/ s)%R; [apply Rinv_0_lt_compat, Hs|].
      rewrite Rmult_assoc, Rinv_r, Rmult_1_r by Lra.lra. exact H.
    - apply Rmult_lt_reg_r with s; [exact Hs|].
      rewrite Rmult_assoc, Rinv_l, Rmult_1_r by Lra.lra. exact H. }
  rewrite Hdiv.
  destruct (Qle_bool 0 t) eqn:Ht; simpl.
  - apply Qle_bool_iff in Ht.
    assert (HtR : (0 <= Q2R t)%R).
    { replace 0%R with (Q2R 0) by apply RMicromega.Q2R_0. apply Qle_Rle, Ht. }
    rewrite not_Qle_bool. split; intros H.
    + apply Qlt_Rlt in H. rewrite !Q2R_mult in H. fold n r in H.
      rewrite <- Hss, <- Hnn in H.
      destruct (Rlt_le_dec (Q2R t * s) (Rabs n)) as [Hlt|Hle]; [exact Hlt|].
      exfalso. assert (Rabs n * Rabs n <= (Q2R t * s) * (Q2R t * s))%R by Lra.nra.
      Lra.nra.
    + apply Rlt_Qlt. rewrite !Q2R_mult. fold n r.
      rewrite <- Hss, <- Hnn.
      assert (0 <= Q2R t * s)%R by Lra.nra. Lra.nra.
  - apply Qle_bool_false in Ht.
    assert (HtR : (Q2R t < 0)%R).
    { replace 0%R with (Q2R 0) by apply RMicromega.Q2R_0. apply Qlt_Rlt, Ht. }
    split; [intros _|reflexivity]. Lra.nra.
Qed.

(** The test on squares is the comparison of the magnitude with the
    threshold. *)
Lemma abs_gt_spec (v : sqfrac) (t : Q) : abs_gt v t = true <-> magnitude_exceeds v t.
Proof.
  unfold magnitude_exceeds. destruct (Qlt_le_dec 0 (sq_rad v)) as [Hpos|Hle].
  - rewrite (abs_gt_real v t Hpos). split.
    + intros H. left. split; assumption.
    + intros [[_ H]|[Hle _]]; [exact H|]. exfalso. apply (Qlt_not_le _ _ Hpos Hle).
  - unfold abs_gt. rewrite (proj2 (Qle_bool_iff _ _) Hle), negb_true_iff. split.
    + intros H. right. split; [exact Hle|]. intros E.
      apply Qeq_bool_iff in E. congruence.
    + intros [[Hpos _]|[_ Hne]]; [exfalso; apply (Qlt_not_le _ _ Hpos Hle)|].
      destruct (Qeq_bool (sq_num v) 0) eqn:E; [|reflexivity].
      apply Qeq_bool_iff in E. contradiction.
Qed.




(* ===================================================================== *)
(** * Assignment to a column                                              *)
(* ===================================================================== *)

Lemma lookup_assign_same {A : Type} (n : string) (a : A) (l : list (string * A)) :
  lookup n (assign n a l) = Some a.
Proof.
  induction l as [|[m x] l IH]; simpl.
  - rewrite String.eqb_refl. reflexivity.
  - destruct (String.eqb_spec n m) as [->|Hne]; simpl.
    + rewrite String.eqb_refl. reflexivity.
    + destruct (String.eqb_spec n m); [contradiction|exact IH].
Qed.

Lemma lookup_assign_other {A : Type} (n n' : string) (a : A) (l : list (string * A)) :
  n' <> n -> lookup n' (assign n a l) = lookup n' l.
Proof.
  intros Hne. induction l as [|[m x] l IH]; simpl.
  - destruct (String.eqb_spec n' n); [contradiction|reflexivity].
  - destruct (String.eqb_spec n m) as [->|Hnm]; simpl.
    + destruct (String.eqb_spec n' m); [contradiction|reflexivity].
    + destruct (String.eqb n' m); [reflexivity|exact IH].
Qed.

Lemma assign_names_present {A : Type} (n : string) (a x : A) (l : list (string * A)) :
  lookup n l = Some x -> map fst (assign n a l) = map fst l.
Proof.
  induction l as [|[m y] l IH]; simpl; [discriminate|].
  destruct (String.eqb n m); simpl; [reflexivity|].
  intros H. rewrite (IH H). reflexivity.
Qed.

Lemma assign_names_absent {A : Type} (n : string) (a : A) (l : list (string * A)) :
  lookup n l = None -> map fst (assign n a l) = (map fst l ++ [n])%list.
Proof.
  induction l as [|[m y] l IH]; simpl; [reflexivity|].
  destruct (String.eqb n m); simpl; [discriminate|].
  intros H. rewrite (IH H). reflexivity.
Qed.

Lemma assign_same {A : Type} (n : string) (a : A) (l : list (string * A)) :
  lookup n l = Some a -> assign n a l = l.
Proof.
  induction l as [|[m y] l IH]; simpl; [discriminate|].
  destruct (String.eqb_spec n m) as [->|Hne].
  - intros H. injection H as ->. reflexivity.
  - intros H. rewrite (IH H). reflexivity.
Qed.

Lemma get_set_same (d : DataFrame) (n : string) (c : column) :
  get_column (set_column d n c) n = Some c.
Proof. apply lookup_assign_same. Qed.

Lemma get_set_other (d : DataFrame) (n n' : string) (c : column) :
  n' <> n -> get_column (set_column d n c) n' = get_column d n'.
Proof. apply lookup_assign_other. Qed.

Lemma set_column_same (d : DataFrame) (n : string) (c : column) :
  get_column d n = Some c -> set_column d n c = d.
Proof.
  intros H. destruct d as [rows cols]. unfold set_column, get_column in *. simpl in *.
  rewrite (assign_same n c cols H). reflexivity.
Qed.

Lemma set_column_names_present (d : DataFrame) (n : string) (c x : column) :
  get_column d n = Some x -> column_names (set_column d n c) = column_names d.
Proof. apply assign_names_present. Qed.

Lemma set_column_names_absent (d : DataFrame) (n : string) (c : column) :
  get_column d n = None -> column_names (set_column d n c) = (column_names d ++ [n])%list.
Proof. apply assign_names_absent. Qed.

Lemma has_column_names (d d' : DataFrame) :
  column_names d' = column_names d -> forall n, has_column d' n = has_column d n.
Proof. intros H n. unfold has_column. rewrite H. reflexivity. Qed.

Lemma mem_In (n : string) (names : list string) : mem n names = true <-> In n names.
Proof.
  unfold mem. rewrite existsb_exists. split.
  - intros [m [Hm Heq]]. apply String.eqb_eq in Heq. subst. exact Hm.
  - intros H. exists n. split; [exact H|apply String.eqb_refl].
Qed.

Lemma mem_not_In (n : string) (names : list string) : mem n names = false <-> ~ In n names.
Proof.
  rewrite <- mem_In. destruct (mem n names); split; intros H;
    try reflexivity; try discriminate; try congruence.
Qed.

(** A rewritten column is set where it stood. *)
Lemma set_column_step (F : column -> column) (d : DataFrame) (n : string) (c : column) :
  get_column d n = Some c ->
  let d' := set_column d n (F c) in
  nrows d' = nrows d /\
  column_names d' = column_names d /\
  (forall n', get_column d' n' =
              if String.eqb n' n then option_map F (get_column d n') else get_column d n').
Proof.
  intros Hc d'. split; [reflexivity|].
  split; [apply (set_column_names_present d n (F c) c Hc)|].
  intros n'. destruct (String.eqb_spec n' n) as [->|Hne].
  - rewrite Hc. apply get_set_same.
  - apply get_set_other, Hne.
Qed.

Lemma identity_step (F : column -> column) (d : DataFrame) (n : string) :
  option_map F (get_column d n) = get_column d n ->
  nrows d = nrows d /\
  column_names d = column_names d /\
  (forall n', get_column d n' =
              if String.eqb n' n then option_map F (get_column d n') else get_column d n').
Proof.
  intros H. split; [reflexivity|]. split; [reflexivity|].
  intros n'. destruct (String.eqb_spec n' n) as [->|Hne]; [symmetry; exact H|reflexivity].
Qed.

(* ===================================================================== *)
(** * Cells of a cleaned column                                           *)
(* ===================================================================== *)

Lemma fillna_length (v : option Q) (xs : list (option Q)) :
  length (fillna v xs) = length xs.
Proof. apply length_map. Qed.

Lemma clamp_negative_length (xs : list (option Q)) :
  length (clamp_negative xs) = length xs.
Proof. apply length_map. Qed.

Lemma fillna_None (xs : list (option Q)) : fillna None xs = xs.
Proof.
  unfold fillna. induction xs as [|[x|] xs IH]; simpl; [reflexivity| |];
    rewrite IH; reflexivity.
Qed.

Lemma fillna_Some_count (m : Q) (xs : list (option Q)) :
  count_na (NumCol (fillna (Some m) xs)) = 0%nat.
Proof. simpl. induction xs as [|[x|] xs IH]; simpl; [reflexivity| |]; exact IH. Qed.

Lemma clamp_negative_count (xs : list (option Q)) :
  count_na (NumCol (clamp_negative xs)) = count_na (NumCol xs).
Proof.
  simpl. induction xs as [|[x|] xs IH]; simpl; [reflexivity| |].
  - destruct (negb (Qle_bool 0 x)); simpl; exact IH.
  - rewrite IH. reflexivity.
Qed.

Lemma clamp_negative_cons (o : option Q) (xs : list (option Q)) :
  clamp_negative (o :: xs) =
  match o with
  | Some x => if negb (Qle_bool 0 x) then Some 0 else Some x
  | None => None
  end :: clamp_negative xs.
Proof. reflexivity. Qed.

Lemma clamp_negative_present (xs : list (option Q)) :
  present xs = [] -> clamp_negative xs = xs.
Proof.
  induction xs as [|[x|] xs IH]; [reflexivity|discriminate|].
  intros H. rewrite clamp_negative_cons, (IH H). reflexivity.
Qed.

Lemma clamp_negative_idem (xs : list (option Q)) :
  clamp_negative (clamp_negative xs) = clamp_negative xs.
Proof.
  unfold clamp_negative. rewrite map_map. apply map_ext. intros [x|]; [|reflexivity].
  destruct (Qle_bool 0 x) eqn:E; simpl.
  - rewrite E. reflexivity.
  - reflexivity.
Qed.

Lemma clamp_negative_nonneg (xs : list (option Q)) :
  (forall x, In (Some x) xs -> 0 <= x) -> clamp_negative xs = xs.
Proof.
  induction xs as [|[x|] xs IH]; intros H; [reflexivity| |];
    rewrite clamp_negative_cons, IH by (intros y Hy; apply H; right; exact Hy).
  - assert (Hx : Qle_bool 0 x = true) by (apply Qle_bool_iff, H; left; reflexivity).
    rewrite Hx. reflexivity.
  - reflexivity.
Qed.

Lemma insert_sorted_length (x : Q) (l : list Q) :
  length (insert_sorted x l) = S (length l).
Proof.
  induction l as [|y l IH]; simpl; [reflexivity|].
  destruct (Qle_bool x y); simpl; [reflexivity|rewrite IH; reflexivity].
Qed.

Lemma sort_values_length (l : list Q) : length (sort_values l) = length l.
Proof.
  induction l as [|x l IH]; simpl; [reflexivity|].
  rewrite insert_sorted_length, IH. reflexivity.
Qed.

(** [sort_values] sorts: its result is in ascending order and holds the
    values it was given. *)
Lemma insert_sorted_perm (x : Q) (l : list Q) : Permutation (insert_sorted x l) (x :: l).
Proof.
  induction l as [|y l IH]; simpl; [apply Permutation_refl|].
  destruct (Qle_bool x y); [apply Permutation_refl|].
  apply Permutation_trans with (y :: x :: l); [apply perm_skip, IH|apply perm_swap].
Qed.

Lemma sort_values_perm (l : list Q) : Permutation (sort_values l) l.
Proof.
  induction l as [|x l IH]; simpl; [apply Permutation_refl|].
  apply Permutation_trans with (x :: sort_values l);
    [apply insert_sorted_perm|apply perm_skip, IH].
Qed.

Lemma insert_sorted_sorted (x : Q) (l : list Q) :
  Sorted Qle l -> Sorted Qle (insert_sorted x l).
Proof.
  induction l as [|y l IH]; simpl; intros H; [repeat constructor|].
  destruct (Qle_bool x y) eqn:E.
  - constructor; [exact H|]. constructor. apply Qle_bool_iff, E.
  - apply Qle_bool_false in E. inversion H as [|? ? Hl Hhd]; subst.
    constructor; [apply IH, Hl|].
    destruct l as [|z l]; simpl.
    + constructor. apply Qlt_le_weak, E.
    + destruct (Qle_bool x z); constructor; [apply Qlt_le_weak, E|].
      inversion Hhd; assumption.
Qed.

Lemma sort_values_sorted (l : list Q) : Sorted Qle (sort_values l).
Proof.
  induction l as [|x l IH]; simpl; [constructor|apply insert_sorted_sorted, IH].
Qed.

(** The median is NaN exactly when the column holds no value. *)
Lemma median_None (fl : Q -> Q) (xs : list (option Q)) :
  median_with fl xs = None <-> present xs = [].
Proof.
  unfold median_with.
  pose proof (sort_values_length (present xs)) as Hlen.
  destruct (length (sort_values (present xs))) as [|k] eqn:E.
  - split; [intros _|reflexivity]. destruct (present xs); [reflexivity|discriminate].
  - split.
    + destruct (Nat.even (S k)); discriminate.
    + intros Hp. rewrite Hp in Hlen. discriminate.
Qed.

(** After imputation a column holds no missing value, or holds nothing
    but missing values. *)
Lemma impute_cells_filled (fl : Q -> Q) (xs : list (option Q)) :
  count_na (NumCol (impute_cells fl xs)) = 0%nat \/ present (impute_cells fl xs) = [].
Proof.
  unfold impute_cells.
  destruct (Nat.ltb 0 (count_na (NumCol xs))) eqn:E.
  - destruct (median_with fl xs) as [m|] eqn:Hm.
    + left. apply fillna_Some_count.
    + right. rewrite fillna_None. apply (median_None fl), Hm.
  - left. apply Nat.ltb_ge in E. lia.
Qed.

Lemma filled_impute_cells (fl : Q -> Q) (xs : list (option Q)) :
  count_na (NumCol xs) = 0%nat \/ present xs = [] -> impute_cells fl xs = xs.
Proof.
  intros [H|H]; unfold impute_cells.
  - rewrite H. reflexivity.
  - apply (median_None fl) in H. rewrite H, fillna_None.
    destruct (Nat.ltb 0 (count_na (NumCol xs))); reflexivity.
Qed.

Lemma filled_clamp (xs : list (option Q)) :
  count_na (NumCol xs) = 0%nat \/ present xs = [] ->
  count_na (NumCol (clamp_negative xs)) = 0%nat \/ present (clamp_negative xs) = [].
Proof.
  intros [H|H].
  - left. rewrite clamp_negative_count. exact H.
  - right. rewrite (clamp_negative_present xs H). exact H.
Qed.

Lemma imputed_idem (fl : Q -> Q) (c : column) : imputed fl (imputed fl c) = imputed fl c.
Proof.
  destruct c as [xs|xs]; simpl; [|reflexivity].
  rewrite (filled_impute_cells fl _ (impute_cells_filled fl xs)). reflexivity.
Qed.

Lemma imputed_clamped_imputed (fl : Q -> Q) (c : column) :
  imputed fl (clamped (imputed fl c)) = clamped (imputed fl c).
Proof.
  destruct c as [xs|xs]; simpl; [|reflexivity].
  rewrite (filled_impute_cells fl _ (filled_clamp _ (impute_cells_filled fl xs))).
  reflexivity.
Qed.

Lemma clamped_idem (c : column) : clamped (clamped c) = clamped c.
Proof. destruct c as [xs|xs]; simpl; [rewrite clamp_negative_idem|]; reflexivity. Qed.

Lemma imputed_len (fl : Q -> Q) (c : column) : col_len (imputed fl c) = col_len c.
Proof.
  destruct c as [xs|xs]; simpl; [|reflexivity]. unfold impute_cells.
  destruct (Nat.ltb 0 _); [apply fillna_length|reflexivity].
Qed.

Lemma clamped_len (c : column) : col_len (clamped c) = col_len c.
Proof. destruct c as [xs|xs]; simpl; [apply clamp_negative_length|reflexivity]. Qed.

Lemma imputed_numeric (fl : Q -> Q) (c : column) : is_numeric (imputed fl c) = is_numeric c.
Proof. destruct c; reflexivity. Qed.

Lemma clamped_numeric (c : column) : is_numeric (clamped c) = is_numeric c.
Proof. destruct c; reflexivity. Qed.

Lemma imputed_complete (fl : Q -> Q) (c : column) : count_na c = 0%nat -> imputed fl c = c.
Proof.
  destruct c as [xs|xs]; [|reflexivity]. intros H. simpl.
  rewrite (filled_impute_cells fl xs (or_introl H)). reflexivity.
Qed.

Lemma filled_idem (fl : Q -> Q) (cow : bool)
  (c : column) : filled fl cow (filled fl cow c) = filled fl cow c.
Proof. destruct cow; [reflexivity|apply imputed_idem]. Qed.

Lemma filled_clamped_filled (fl : Q -> Q) (cow : bool) (c : column) :
  filled fl cow (clamped (filled fl cow c)) = clamped (filled fl cow c).
Proof. destruct cow; [reflexivity|apply imputed_clamped_imputed]. Qed.

Lemma filled_len (fl : Q -> Q) (cow : bool)
  (c : column) : col_len (filled fl cow c) = col_len c.
Proof. destruct cow; [reflexivity|apply imputed_len]. Qed.

Lemma filled_numeric (fl : Q -> Q) (cow : bool) (c : column) :
  is_numeric (filled fl cow c) = is_numeric c.
Proof. destruct cow; [reflexivity|apply imputed_numeric]. Qed.

Lemma filled_complete (fl : Q -> Q) (cow : bool) (c : column) :
  count_na c = 0%nat -> filled fl cow c = c.
Proof. destruct cow; [reflexivity|apply imputed_complete]. Qed.

(* ===================================================================== *)
(** * The two loops of [clean_data]                                       *)
(* ===================================================================== *)

Section ColumnLoop.

Variable body : DataFrame -> string -> result DataFrame.
Variable F : column -> column.
Variable ok : column -> Prop.

(** A turn of the loop on the column [n] rewrites it by [F] where it
    stands, and only runs through on a column that is [ok]. *)
Hypothesis body_step : forall d n d',
  body d n = Ok d' ->
  (nrows d' = nrows d /\
   column_names d' = column_names d /\
   (forall n', get_column d' n' =
               if String.eqb n' n then option_map F (get_column d n') else get_column d n')) /\
  (forall c, get_column d n = Some c -> ok c).

Lemma for_each_col_loop (names : list string) :
  NoDup names ->
  forall d d', for_each body names d = Ok d' -> col_loop F ok names d d'.
Proof.
  induction 1 as [|a l Hnotin Hnd IH]; intros d d' Hrun; simpl in Hrun.
  - injection Hrun as <-. repeat split; try reflexivity. intros n c [].
  - destruct (body d a) as [d1|e] eqn:Hbody; [|discriminate]. cbn [bind] in Hrun.
    destruct (body_step _ _ _ Hbody) as [[Hrows [Hnames Hget]] Hok].
    destruct (IH _ _ Hrun) as [Hrows' [Hnames' [Hget' Hok']]].
    split; [congruence|]. split; [congruence|]. split.
    + intros n. rewrite Hget', Hget. unfold mem. simpl.
      destruct (String.eqb_spec n a) as [->|Hne]; simpl.
      * apply mem_not_In in Hnotin. unfold mem in Hnotin. rewrite Hnotin. reflexivity.
      * reflexivity.
    + intros n c [<-|Hin] Hc; [apply Hok, Hc|].
      apply (Hok' n c Hin). rewrite Hget.
      destruct (String.eqb_spec n a) as [->|Hne]; [contradiction|exact Hc].
Qed.

Variable P : option column -> Prop.

Hypothesis body_total : forall d n, P (get_column d n) -> exists d', body d n = Ok d'.
Hypothesis P_stable : forall o, P o -> P (option_map F o).

Lemma for_each_total (names : list string) :
  forall d, (forall n, In n names -> P (get_column d n)) ->
            exists d', for_each body names d = Ok d'.
Proof.
  induction names as [|a l IH]; intros d HP; simpl.
  - exists d. reflexivity.
  - destruct (body_total d a (HP a (or_introl eq_refl))) as [d1 Hbody].
    rewrite Hbody. cbn [bind]. apply IH. intros n Hn.
    destruct (body_step _ _ _ Hbody) as [[_ [_ Hget]] _]. rewrite Hget.
    destruct (String.eqb n a); [apply P_stable|]; apply HP; right; exact Hn.
Qed.

(** A loop whose every turn leaves the frame as it is leaves it as it is. *)
Lemma for_each_fixed (names : list string) (d : DataFrame) :
  (forall n, In n names -> body d n = Ok d) -> for_each body names d = Ok d.
Proof.
  induction names as [|a l IH]; intros H; simpl; [reflexivity|].
  rewrite (H a (or_introl eq_refl)). cbn [bind].
  apply IH. intros n Hn. apply H. right. exact Hn.
Qed.

End ColumnLoop.

Lemma impute_column_step (fl : Q -> Q) (cow : bool)
  (d : DataFrame) (n : string) (d' : DataFrame) :
  impute_column fl cow d n = Ok d' ->
  (nrows d' = nrows d /\
   column_names d' = column_names d /\
   (forall n', get_column d' n' =
               if String.eqb n' n then option_map (filled fl cow) (get_column d n')
               else get_column d n')) /\
  (forall c, get_column d n = Some c -> imputable c).
Proof.
  unfold impute_column. destruct (get_column d n) as [[xs|xs]|] eqn:Hc; [| |discriminate].
  - intros H. split; [|intros c Hc'; injection Hc' as <-; exact I].
    destruct cow.
    + assert (d' = d) by (destruct (Nat.ltb 0 _); congruence). subst d'.
      apply identity_step. rewrite Hc. reflexivity.
    + destruct (Nat.ltb 0 (count_na (NumCol xs))) eqn:E; injection H as <-.
      * pose proof (set_column_step (imputed fl) d n (NumCol xs) Hc) as Hs.
        simpl in Hs. unfold impute_cells in Hs. rewrite E in Hs. exact Hs.
      * apply identity_step. rewrite Hc. simpl. unfold impute_cells. rewrite E.
        reflexivity.
  - destruct (Nat.ltb 0 (count_na (TextCol xs))) eqn:E; [discriminate|].
    intros H. injection H as <-. split.
    + apply identity_step. rewrite Hc. destruct cow; reflexivity.
    + intros c Hc'. injection Hc' as <-. apply Nat.ltb_ge in E. simpl in *. lia.
Qed.

Lemma correct_negative_step (d : DataFrame) (n : string) (d' : DataFrame) :
  correct_negative d n = Ok d' ->
  (nrows d' = nrows d /\
   column_names d' = column_names d /\
   (forall n', get_column d' n' =
               if String.eqb n' n then option_map clamped (get_column d n')
               else get_column d n')) /\
  (forall c, get_column d n = Some c -> clampable c).
Proof.
  unfold correct_negative. destruct (has_column d n) eqn:Hhas.
  - destruct (get_column d n) as [[xs|[|x xs]]|] eqn:Hc; try discriminate;
      intros H; injection H as <-.
    + split; [|intros c Hc'; injection Hc' as <-; exact I].
      exact (set_column_step clamped d n (NumCol xs) Hc).
    + split; [|intros c Hc'; injection Hc' as <-; reflexivity].
      apply identity_step. rewrite Hc. reflexivity.
  - intros H. injection H as <-. apply has_column_false in Hhas. split.
    + apply identity_step. rewrite Hhas. reflexivity.
    + intros c Hc. congruence.
Qed.

Lemma key_columns_NoDup : NoDup key_columns.
Proof.
  unfold key_columns.
  repeat (apply NoDup_cons; [simpl; intuition discriminate|]). apply NoDup_nil.
Qed.

Lemma non_negative_cols_NoDup : NoDup non_negative_cols.
Proof.
  unfold non_negative_cols.
  repeat (apply NoDup_cons; [simpl; intuition discriminate|]). apply NoDup_nil.
Qed.

Lemma marker_not_key : mem marker_column key_columns = false.
Proof. reflexivity. Qed.

Lemma marker_not_non_negative : mem marker_column non_negative_cols = false.
Proof. reflexivity. Qed.

Lemma mem_filter_has (d : DataFrame) (names : list string) (n : string) :
  mem n (filter (has_column d) names) = mem n names && has_column d n.
Proof.
  destruct (mem n (filter (has_column d) names)) eqn:E.
  - apply mem_In, filter_In in E. destruct E as [Hin Hhas].
    apply mem_In in Hin. rewrite Hin, Hhas. reflexivity.
  - destruct (mem n names) eqn:Hm; [|reflexivity].
    destruct (has_column d n) eqn:Hh; [|reflexivity].
    apply mem_not_In in E. exfalso. apply E, filter_In.
    split; [apply mem_In, Hm|exact Hh].
Qed.

(** The frame that [clean_data] returns, column by column. *)
Lemma clean_data_columns (fl : Q -> Q) (cow : bool) (self : SolarDataAnalyzer)
  (m : option (list bool)) (cleaned : DataFrame) (s : SolarDataAnalyzer) :
  clean_data fl cow self m = Ok (cleaned, s) ->
  exists df d1 d2,
    raw_data self = Some df /\
    col_loop (filled fl cow) imputable (filter (has_column df) key_columns) df d1 /\
    col_loop clamped clampable non_negative_cols d1 d2 /\
    cleaned = set_column d2 marker_column (marker_cells (nrows d2)) /\
    cleaned_data s = Some cleaned.
Proof.
  unfold clean_data, require_loaded.
  destruct (raw_data self) as [df|]; [|discriminate]. cbn [bind].
  destruct (for_each (impute_column fl cow) _ df) as [d1|e] eqn:H1; [|discriminate].
  cbn [bind].
  destruct (for_each correct_negative _ d1) as [d2|e] eqn:H2; [|discriminate]. cbn [bind].
  intros H. injection H as <- <-.
  exists df, d1, d2. split; [reflexivity|].
  split.
  { apply (for_each_col_loop (impute_column fl cow) (filled fl cow) imputable
             (impute_column_step fl cow));
      [apply NoDup_filter, key_columns_NoDup|exact H1]. }
  split.
  { apply (for_each_col_loop correct_negative clamped clampable correct_negative_step);
      [apply non_negative_cols_NoDup|exact H2]. }
  split; reflexivity.
Qed.

Lemma impute_column_fixed (fl : Q -> Q) (cow : bool)
  (d : DataFrame) (n : string) (c : column) :
  get_column d n = Some c -> filled fl cow c = c -> imputable c ->
  impute_column fl cow d n = Ok d.
Proof.
  intros Hc Hfix Hok. unfold impute_column. rewrite Hc.
  destruct c as [xs|xs].
  - destruct (Nat.ltb 0 (count_na (NumCol xs))) eqn:E; [|reflexivity].
    destruct cow; [reflexivity|].
    simpl in Hfix. injection Hfix as Hfix. unfold impute_cells in Hfix.
    rewrite E in Hfix. rewrite Hfix, (set_column_same d n _ Hc). reflexivity.
  - simpl in Hok. change (count_na (TextCol xs)) with (length (filter is_none xs)).
    rewrite Hok. reflexivity.
Qed.

Lemma correct_negative_fixed (d : DataFrame) (n : string) :
  (forall c, get_column d n = Some c -> clamped c = c /\ clampable c) ->
  correct_negative d n = Ok d.
Proof.
  intros H. unfold correct_negative.
  destruct (has_column d n) eqn:Hhas; [|reflexivity].
  apply has_column_get in Hhas. destruct Hhas as [c Hc]. rewrite Hc.
  destruct (H c Hc) as [Hfix Hok]. destruct c as [xs|xs].
  - simpl in Hfix. injection Hfix as Hfix.
    rewrite Hfix, (set_column_same d n _ Hc). reflexivity.
  - simpl in Hok. subst xs. reflexivity.
Qed.

Lemma imputable_imputed (fl : Q -> Q)
  (c : column) : imputable c -> imputable (imputed fl c).
Proof. destruct c; trivial. Qed.

Lemma imputable_filled (fl : Q -> Q) (cow : bool)
  (c : column) : imputable c -> imputable (filled fl cow c).
Proof. destruct cow; [trivial|apply imputable_imputed]. Qed.

Lemma imputable_clamped (c : column) : imputable c -> imputable (clamped c).
Proof. destruct c; trivial. Qed.

Lemma clampable_clamped (c : column) : clampable c -> clampable (clamped c).
Proof. destruct c; trivial. Qed.

Lemma In_not_marker (n : string) (names : list string) :
  mem marker_column names = false -> In n names -> n <> marker_column.
Proof. intros Hm Hin ->. apply mem_In in Hin. congruence. Qed.

Lemma clamp_negative_In (xs : list (option Q)) (x : Q) :
  In (Some x) (clamp_negative xs) -> 0 <= x.
Proof.
  unfold clamp_negative. rewrite in_map_iff. intros [[y|] [Heq _]]; [|discriminate].
  destruct (Qle_bool 0 y) eqn:E; simpl in Heq; injection Heq as <-.
  - apply Qle_bool_iff, E.
  - apply Qle_refl.
Qed.

(** The tracked columns of a frame that [clean_data] returned: a
    measurement column is an imputed column, clamped or not; a
    non-negative column is a clamped column. *)
Lemma cleaned_tracked (fl : Q -> Q) (cow : bool)
  (self : SolarDataAnalyzer) (m : option (list bool))
  (cleaned : DataFrame) (s : SolarDataAnalyzer) :
  clean_data fl cow self m = Ok (cleaned, s) ->
  (forall n c', In n key_columns -> get_column cleaned n = Some c' ->
                exists c, imputable c /\
                          (c' = filled fl cow c \/ c' = clamped (filled fl cow c))) /\
  (forall n c', In n non_negative_cols -> get_column cleaned n = Some c' ->
                exists c, clampable c /\ c' = clamped c) /\
  get_column cleaned marker_column = Some (marker_cells (nrows cleaned)).
Proof.
  intros Hrun.
  destruct (clean_data_columns fl _ _ _ _ _ Hrun)
    as [df [d1 [d2 [_ [[Hr1 [Hn1 [Hg1 Hok1]]] [[Hr2 [Hn2 [Hg2 Hok2]]] [Hcl _]]]]]]].
  assert (Hother : forall n, n <> marker_column -> get_column cleaned n = get_column d2 n).
  { intros n Hn. rewrite Hcl. apply get_set_other, Hn. }
  split; [|split].
  - intros n c' Hkey Hc'.
    pose proof (In_not_marker n _ marker_not_key Hkey) as Hnm.
    rewrite (Hother n Hnm), Hg2, Hg1, mem_filter_has in Hc'.
    rewrite (proj2 (mem_In n key_columns) Hkey) in Hc'.
    destruct (get_column df n) as [c|] eqn:Hc.
    + assert (Hhas : has_column df n = true) by (apply has_column_get; exists c; exact Hc).
      rewrite Hhas in Hc'. cbn [andb option_map] in Hc'.
      exists c. split.
      { apply (Hok1 n c); [|exact Hc]. apply filter_In. split; assumption. }
      destruct (mem n non_negative_cols); cbn [option_map] in Hc'; injection Hc' as <-;
        [right|left]; reflexivity.
    + exfalso. destruct (has_column df n); cbn [andb option_map] in Hc';
        destruct (mem n non_negative_cols); discriminate.
  - intros n c' Hn Hc'.
    pose proof (In_not_marker n _ marker_not_non_negative Hn) as Hnm.
    rewrite (Hother n Hnm), Hg2 in Hc'.
    rewrite (proj2 (mem_In n non_negative_cols) Hn) in Hc'.
    destruct (get_column d1 n) as [c1|] eqn:Hc1; [|discriminate].
    cbn [option_map] in Hc'. injection Hc' as <-.
    exists c1. split; [apply (Hok2 n c1 Hn Hc1)|reflexivity].
  - rewrite Hcl. cbn [nrows set_column]. apply get_set_same.
Qed.

(** C5, as amended.  Numeric cells are finite numbers or missing.
    Cleaning the frame that [clean_data] returned changes nothing, with or
    without copy-on-write: no imputation changes a cell, the non-negative
    columns hold no negative value, and the marker column is overwritten
    where it stands with the same cells, so the second result is the first
    one.  Without copy-on-write a measurement column of the cleaned frame
    holds no missing value, unless it holds nothing but missing values;
    with copy-on-write the missing values of the source are still there. *)
Theorem C5_clean_idempotent (fl : Q -> Q) (copy_on_write : bool)
  (self self' : SolarDataAnalyzer)
  (m m' : option (list bool)) (cleaned : DataFrame) (s : SolarDataAnalyzer) :
  clean_data fl copy_on_write self m = Ok (cleaned, s) ->
  raw_data self' = Some cleaned ->
  (exists s', clean_data fl copy_on_write self' m' = Ok (cleaned, s') /\
              cleaned_data s' = Some cleaned) /\
  (copy_on_write = false ->
   forall n xs, In n key_columns -> get_column cleaned n = Some (NumCol xs) ->
                impute_cells fl xs = xs /\
                (count_na (NumCol xs) = 0%nat \/ present xs = [])) /\
  (forall n xs x, In n non_negative_cols -> get_column cleaned n = Some (NumCol xs) ->
                  In (Some x) xs -> 0 <= x).
Proof.
  intros Hrun Hraw.
  destruct (cleaned_tracked fl _ _ _ _ _ Hrun) as [Hkey [Hnn Hmarker]].
  split; [|split].
  - assert (Himpute :
              for_each (impute_column fl copy_on_write)
                       (filter (has_column cleaned) key_columns) cleaned
              = Ok cleaned).
    { apply for_each_fixed. intros n Hn. apply filter_In in Hn. destruct Hn as [Hk Hhas].
      apply has_column_get in Hhas. destruct Hhas as [c' Hc'].
      destruct (Hkey n c' Hk Hc') as [c [Hok [->| ->]]].
      - apply (impute_column_fixed fl copy_on_write cleaned n _ Hc');
          [apply filled_idem|apply imputable_filled, Hok].
      - apply (impute_column_fixed fl copy_on_write cleaned n _ Hc');
          [apply filled_clamped_filled|apply imputable_clamped, imputable_filled, Hok]. }
    assert (Hclamp : for_each correct_negative non_negative_cols cleaned = Ok cleaned).
    { apply for_each_fixed. intros n Hn. apply correct_negative_fixed. intros c' Hc'.
      destruct (Hnn n c' Hn Hc') as [c1 [Hok ->]].
      split; [apply clamped_idem|apply clampable_clamped, Hok]. }
    unfold clean_data, require_loaded. rewrite Hraw. cbn [bind].
    rewrite Himpute. cbn [bind]. rewrite Hclamp. cbn [bind].
    assert (Hmark : set_column cleaned marker_column
                      (TextCol (repeat (Some marker_value) (nrows cleaned))) = cleaned)
      by (apply set_column_same, Hmarker).
    rewrite Hmark. eexists. split; reflexivity.
  - intros Hcow n xs Hk Hc'. subst copy_on_write.
    destruct (Hkey n _ Hk Hc') as [c [_ Hcase]].
    assert (Hfilled : count_na (NumCol xs) = 0%nat \/ present xs = []).
    { destruct c as [ys|ys]; destruct Hcase as [Heq|Heq]; simpl in Heq;
        try discriminate; injection Heq as ->.
      - apply impute_cells_filled.
      - apply filled_clamp, impute_cells_filled. }
    split; [apply filled_impute_cells, Hfilled|exact Hfilled].
  - intros n xs x Hn Hc' Hx.
    destruct (Hnn n _ Hn Hc') as [c [_ Heq]].
    destruct c as [ys|ys]; simpl in Heq; [|discriminate]. injection Heq as ->.
    apply (clamp_negative_In ys x Hx).
Qed.

Lemma C5_clean_idempotent_witness :
  (exists s s',
     clean_data binary64 false (loaded scenario) None = Ok (cleaned_scenario, s) /\
     clean_data binary64 false (loaded cleaned_scenario) None
     = Ok (cleaned_scenario, s')) /\
  (exists s s',
     clean_data binary64 true (loaded scenario) None = Ok (cleaned_scenario_cow, s) /\
     clean_data binary64 true (loaded cleaned_scenario_cow) None
     = Ok (cleaned_scenario_cow, s')).
Proof.
  split.
  - eexists.
    assert (Hrun : clean_data binary64 false (loaded scenario) None
                   = Ok (cleaned_scenario,
                         {| raw_data := Some scenario;
                            cleaned_data := Some cleaned_scenario;
                            analysis_results := analysis_results (loaded scenario) |}))
      by reflexivity.
    destruct (C5_clean_idempotent binary64 false (loaded scenario) (loaded cleaned_scenario)
                None None _ _ Hrun eq_refl) as [[s' [Hs' _]] _].
    exists s'. split; [exact Hrun|exact Hs'].
  - eexists.
    assert (Hrun : clean_data binary64 true (loaded scenario) None
                   = Ok (cleaned_scenario_cow,
                         {| raw_data := Some scenario;
                            cleaned_data := Some cleaned_scenario_cow;
                            analysis_results := analysis_results (loaded scenario) |}))
      by reflexivity.
    destruct (C5_clean_idempotent binary64 true (loaded scenario)
                (loaded cleaned_scenario_cow)
                None None _ _ Hrun eq_refl) as [[s' [Hs' _]] _].
    exists s'. split; [exact Hrun|exact Hs'].
Defined.

(** C5 as stated fails in what it says of the measurement columns of a
    cleaned table: they can still hold missing values.  With copy-on-write
    the missing cell of the scenario table is still missing after
    cleaning; without it, a measurement column that holds no value at all
    keeps its missing cells, since its median is NaN. *)
Lemma C5_missing_left_counterexample :
  ~ (forall cleaned s xs,
       clean_data binary64 true (loaded scenario) None = Ok (cleaned, s) ->
       get_column cleaned "GHI" = Some (NumCol xs) ->
       count_na (NumCol xs) = 0%nat) /\
  ~ (forall cleaned s xs,
       clean_data binary64 false (loaded empty_measurements) None = Ok (cleaned, s) ->
       get_column cleaned "GHI" = Some (NumCol xs) ->
       count_na (NumCol xs) = 0%nat).
Proof.
  split; intros H; specialize (H _ _ _ eq_refl eq_refl); vm_compute in H; discriminate.
Qed.

(** Beyond the cells of the frames above: on a column that holds
    infinities, cleaning twice is not cleaning once.  The median of an
    infinity and the opposite infinity is NaN, so that the missing cell
    stays at the first pass; the second pass finds the opposite infinity
    clamped to 0 and fills the cell with an infinity. *)
Lemma clean_twice_infinite_cells :
  clean_cells [PInf; NaN; NInf] = [PInf; NaN; Fin 0] /\
  clean_cells [PInf; NaN; Fin 0] = [PInf; PInf; Fin 0].
Proof. split; reflexivity. Qed.

Lemma cleaned_get (fl : Q -> Q) (cow : bool) (df d1 d2 : DataFrame) (n : string) :
  col_loop (filled fl cow) imputable (filter (has_column df) key_columns) df d1 ->
  col_loop clamped clampable non_negative_cols d1 d2 ->
  n <> marker_column ->
  get_column (set_column d2 marker_column (marker_cells (nrows d2))) n
  = option_map (cleaned_column fl cow n) (get_column df n).
Proof.
  intros [_ [_ [Hg1 _]]] [_ [_ [Hg2 _]]] Hn.
  rewrite (get_set_other _ _ _ _ Hn), Hg2, Hg1, mem_filter_has.
  unfold cleaned_column.
  destruct (get_column df n) as [c|] eqn:Hc.
  - assert (Hhas : has_column df n = true) by (apply has_column_get; exists c; exact Hc).
    rewrite Hhas, andb_true_r.
    destruct (mem n key_columns), (mem n non_negative_cols); reflexivity.
  - destruct (mem n key_columns && has_column df n), (mem n non_negative_cols);
      reflexivity.
Qed.

Lemma cleaned_column_len (fl : Q -> Q) (cow : bool) (n : string) (c : column) :
  col_len (cleaned_column fl cow n c) = col_len c.
Proof.
  unfold cleaned_column.
  destruct (mem n key_columns), (mem n non_negative_cols);
    rewrite ?clamped_len, ?filled_len; reflexivity.
Qed.

Lemma has_column_In (d : DataFrame) (n : string) :
  has_column d n = true <-> In n (column_names d).
Proof. apply mem_In. Qed.

(** [clean_data] runs through when the tracked columns are numeric. *)
Lemma clean_data_total (fl : Q -> Q) (cow : bool)
  (self : SolarDataAnalyzer) (df : DataFrame)
  (m : option (list bool)) :
  raw_data self = Some df -> tracked_numeric df ->
  exists cleaned s, clean_data fl cow self m = Ok (cleaned, s).
Proof.
  intros Hraw Hnum. unfold clean_data, require_loaded. rewrite Hraw. cbn [bind].
  destruct (for_each_total (impute_column fl cow) (filled fl cow) imputable
              (impute_column_step fl cow)
              (fun o => exists xs, o = Some (NumCol xs)))
    with (names := filter (has_column df) key_columns) (d := df) as [d1 H1].
  { intros d n [xs Hxs]. unfold impute_column. rewrite Hxs.
    destruct (Nat.ltb 0 _), cow; eexists; reflexivity. }
  { intros o [xs ->]. destruct cow; eexists; reflexivity. }
  { intros n Hn. apply filter_In in Hn. destruct Hn as [Hkey Hhas].
    apply has_column_get in Hhas. destruct Hhas as [c Hc].
    pose proof (Hnum n c (or_introl Hkey) Hc) as Hc'.
    destruct c as [xs|xs]; [|discriminate]. exists xs. exact Hc. }
  rewrite H1. cbn [bind].
  pose proof (for_each_col_loop (impute_column fl cow) (filled fl cow) imputable
                (impute_column_step fl cow)
                _ (NoDup_filter _ key_columns_NoDup) _ _ H1) as [_ [_ [Hg1 _]]].
  destruct (for_each_total correct_negative clamped clampable correct_negative_step
              (fun o => forall c, o = Some c -> is_numeric c = true))
    with (names := non_negative_cols) (d := d1) as [d2 H2].
  { intros d n Hc. unfold correct_negative.
    destruct (has_column d n) eqn:Hhas; [|eexists; reflexivity].
    apply has_column_get in Hhas. destruct Hhas as [c Hget]. rewrite Hget in *.
    specialize (Hc _ eq_refl).
    destruct c as [xs|xs]; [eexists; reflexivity|discriminate]. }
  { intros [c|] Hc c' Hc'; [|discriminate]. injection Hc' as <-.
    rewrite clamped_numeric. apply Hc. reflexivity. }
  { intros n Hn c Hc. rewrite Hg1 in Hc.
    destruct (get_column df n) as [c0|] eqn:Hc0;
      [|destruct (mem n _); discriminate].
    pose proof (Hnum n c0 (or_intror Hn) Hc0) as Hn0.
    destruct (mem n _); cbn [option_map] in Hc; injection Hc as <-;
      rewrite ?filled_numeric; exact Hn0. }
  rewrite H2. cbn [bind]. eexists. eexists. reflexivity.
Qed.

Lemma nothing_to_clean_column (fl : Q -> Q) (cow : bool)
  (df : DataFrame) (n : string) (c : column) :
  nothing_to_clean df -> get_column df n = Some c -> cleaned_column fl cow n c = c.
Proof.
  intros [Hna Hneg] Hc. unfold cleaned_column.
  assert (H1 : (if mem n key_columns then filled fl cow c else c) = c).
  { destruct (mem n key_columns) eqn:Hk; [|reflexivity].
    apply filled_complete, (Hna n c); [apply mem_In, Hk|exact Hc]. }
  rewrite H1. destruct (mem n non_negative_cols) eqn:Hn; [|reflexivity].
  destruct c as [xs|xs]; [|reflexivity]. simpl.
  rewrite clamp_negative_nonneg; [reflexivity|].
  intros x Hx. apply (Hneg n xs x); [apply mem_In, Hn|exact Hc|exact Hx].
Qed.

Lemma untracked_column (fl : Q -> Q) (cow : bool) (n : string) (c : column) :
  ~ In n key_columns -> ~ In n non_negative_cols -> cleaned_column fl cow n c = c.
Proof.
  intros Hk Hn. unfold cleaned_column.
  apply mem_not_In in Hk. apply mem_not_In in Hn. rewrite Hk, Hn. reflexivity.
Qed.

(** C6, as amended.  [clean_data] runs through when the tracked columns
    that are present are numeric.  Whenever it returns, the cleaned frame
    has the rows of the source and one cell per row in every column; it
    holds the marker column with the same marker in every row, appended
    last when the source has no column of that name and overwritten where
    it stands otherwise; every column other than the marker column and
    outside both fixed lists is unchanged; and when the source has nothing
    to clean every column other than the marker column is unchanged. *)
Theorem C6_clean_frame (fl : Q -> Q) (copy_on_write : bool) (self : SolarDataAnalyzer)
  (df : DataFrame) (m : option (list bool)) :
  raw_data self = Some df -> well_formed df ->
  (tracked_numeric df ->
   exists cleaned s, clean_data fl copy_on_write self m = Ok (cleaned, s)) /\
  (forall cleaned s,
     clean_data fl copy_on_write self m = Ok (cleaned, s) ->
     nrows cleaned = nrows df /\
     well_formed cleaned /\
     column_names cleaned =
       (if has_column df marker_column then column_names df
        else column_names df ++ [marker_column])%list /\
     get_column cleaned marker_column
       = Some (TextCol (repeat (Some marker_value) (nrows df))) /\
     (forall n, n <> marker_column -> ~ In n key_columns -> ~ In n non_negative_cols ->
                get_column cleaned n = get_column df n) /\
     (nothing_to_clean df ->
      forall n, n <> marker_column -> get_column cleaned n = get_column df n)).
Proof.
  intros Hraw [Hlen Hnd].
  split; [apply clean_data_total, Hraw|].
  intros cleaned s Hrun.
  destruct (clean_data_columns fl _ _ _ _ _ Hrun)
    as [df' [d1 [d2 [Hraw' [L1 [L2 [Hcl _]]]]]]].
  assert (df' = df) by congruence. subst df'.
  pose proof (cleaned_get fl copy_on_write df d1 d2) as Hget. rewrite <- Hcl in Hget.
  destruct L1 as [Hr1 [Hn1 [Hg1 Hok1]]] eqn:EL1.
  destruct L2 as [Hr2 [Hn2 [Hg2 Hok2]]] eqn:EL2.
  assert (Hrows : nrows cleaned = nrows df) by (rewrite Hcl; simpl; congruence).
  assert (Hnames : column_names cleaned =
                   (if has_column df marker_column then column_names df
                    else column_names df ++ [marker_column])%list).
  { rewrite Hcl.
    rewrite <- (has_column_names df d2 (eq_trans Hn2 Hn1) marker_column).
    destruct (has_column d2 marker_column) eqn:Hhas.
    - apply has_column_get in Hhas. destruct Hhas as [c Hc].
      rewrite (set_column_names_present _ _ _ _ Hc). congruence.
    - apply has_column_false in Hhas.
      rewrite (set_column_names_absent _ _ _ Hhas). congruence. }
  assert (Hmark : get_column cleaned marker_column
                  = Some (TextCol (repeat (Some marker_value) (nrows df)))).
  { rewrite Hcl, get_set_same. unfold marker_cells. congruence. }
  assert (Hnd' : NoDup (column_names cleaned)).
  { rewrite Hnames. destruct (has_column df marker_column) eqn:Hhas; [exact Hnd|].
    apply NoDup_app; [exact Hnd|repeat constructor; simpl; tauto|].
    intros x Hx [<-|[]]. apply has_column_In in Hx. congruence. }
  split; [exact Hrows|]. split; [|split; [exact Hnames|split; [exact Hmark|split]]].
  - split; [|exact Hnd'].
    apply Forall_forall. intros [n c] Hin. cbn [snd]. rewrite Hrows.
    apply (In_lookup n c _ Hnd') in Hin. fold (get_column cleaned n) in Hin.
    destruct (String.eqb_spec n marker_column) as [->|Hne].
    + rewrite Hmark in Hin. injection Hin as <-. simpl. apply repeat_length.
    + rewrite (Hget n (conj Hr1 (conj Hn1 (conj Hg1 Hok1)))
                 (conj Hr2 (conj Hn2 (conj Hg2 Hok2))) Hne) in Hin.
      destruct (get_column df n) as [c0|] eqn:Hc0; [|discriminate].
      injection Hin as <-. rewrite cleaned_column_len.
      apply lookup_In in Hc0. rewrite Forall_forall in Hlen. exact (Hlen _ Hc0).
  - intros n Hne Hk Hn.
    rewrite (Hget n (conj Hr1 (conj Hn1 (conj Hg1 Hok1)))
               (conj Hr2 (conj Hn2 (conj Hg2 Hok2))) Hne).
    destruct (get_column df n) as [c0|]; [|reflexivity]. simpl.
    rewrite (untracked_column fl copy_on_write n c0 Hk Hn). reflexivity.
  - intros Hclean n Hne.
    rewrite (Hget n (conj Hr1 (conj Hn1 (conj Hg1 Hok1)))
               (conj Hr2 (conj Hn2 (conj Hg2 Hok2))) Hne).
    destruct (get_column df n) as [c0|] eqn:Hc0; [|reflexivity]. simpl.
    rewrite (nothing_to_clean_column fl copy_on_write df n c0 Hclean Hc0). reflexivity.
Qed.

Lemma scenario_tracked_numeric : tracked_numeric scenario.
Proof.
  intros n c [H|H] Hc; simpl in H;
    repeat (destruct H as [<-|H]; [vm_compute in Hc; try discriminate;
                                   injection Hc as <-; reflexivity|]);
    contradiction.
Qed.

Lemma C6_clean_frame_witness :
  exists cleaned s,
    clean_data binary64 false (loaded scenario) None = Ok (cleaned, s) /\
    nrows cleaned = nrows scenario /\
    column_names cleaned = ["GHI"; "DNI"; "Country"; "Cleaning"].
Proof.
  destruct (C6_clean_frame binary64 false (loaded scenario) scenario None eq_refl
              scenario_well_formed)
    as [Htotal Hframe].
  destruct (Htotal scenario_tracked_numeric) as [cleaned [s Hrun]].
  destruct (Hframe cleaned s Hrun) as [Hrows [_ [Hnames _]]].
  exists cleaned, s. split; [exact Hrun|]. split; [exact Hrows|exact Hnames].
Defined.

(** C6 as stated fails on a table that already holds a column named as
    the marker column.  On the cleaned scenario table no column is
    appended; on a table whose column of that name holds other text, the
    cells of that column, which is outside both fixed lists, change. *)
Lemma C6_marker_counterexample :
  (well_formed cleaned_scenario /\
   forall copy_on_write,
     ~ (forall cleaned s,
          clean_data binary64 copy_on_write (loaded cleaned_scenario) None
          = Ok (cleaned, s) ->
          length (columns cleaned) = S (length (columns cleaned_scenario)))) /\
  (well_formed marked_before /\
   ~ In marker_column key_columns /\ ~ In marker_column non_negative_cols /\
   forall copy_on_write,
     ~ (forall cleaned s,
          clean_data binary64 copy_on_write (loaded marked_before) None = Ok (cleaned, s) ->
          forall n, ~ In n key_columns -> ~ In n non_negative_cols ->
                    has_column marked_before n = true ->
                    get_column cleaned n = get_column marked_before n)).
Proof.
  assert (Hk : ~ In marker_column key_columns) by (apply mem_not_In; reflexivity).
  assert (Hn : ~ In marker_column non_negative_cols) by (apply mem_not_In; reflexivity).
  split; split; try solve_well_formed.
  - intros copy_on_write H. destruct copy_on_write; specialize (H _ _ eq_refl);
      vm_compute in H; discriminate.
  - split; [exact Hk|]. split; [exact Hn|].
    intros copy_on_write H.
    destruct copy_on_write; specialize (H _ _ eq_refl marker_column Hk Hn eq_refl);
      vm_compute in H; discriminate.
Qed.

(* ===================================================================== *)
(** * Enumeration of the upper triangle                                   *)
(* ===================================================================== *)

Lemma flat_map_ext_in {A B : Type} (f g : A -> list B) (l : list A) :
  (forall a, In a l -> f a = g a) -> flat_map f l = flat_map g l.
Proof.
  induction l as [|x l IH]; intros H; simpl; [reflexivity|].
  rewrite (H x (or_introl eq_refl)), IH; [reflexivity|].
  intros a Ha. apply H. right. exact Ha.
Qed.

Lemma flat_map_map {A B C : Type} (g : A -> B) (f : B -> list C) (l : list A) :
  flat_map f (map g l) = flat_map (fun a => f (g a)) l.
Proof. induction l as [|x l IH]; simpl; [reflexivity|rewrite IH; reflexivity]. Qed.

Lemma map_nth_seq {A : Type} (l : list A) (d : A) :
  map (fun j => nth j l d) (seq 0 (length l)) = l.
Proof.
  induction l as [|x l IH]; simpl; [reflexivity|].
  rewrite <- seq_shift, map_map. simpl. rewrite IH. reflexivity.
Qed.

(** The accumulating loops build the concatenation of what each turn adds. *)
Lemma fold_left_append {A B : Type} (G : A -> list B) (l : list A) (acc : list B) :
  fold_left (fun acc a => acc ++ G a) l acc = (acc ++ flat_map G l)%list.
Proof.
  revert acc. induction l as [|x l IH]; intros acc; simpl.
  - rewrite app_nil_r. reflexivity.
  - rewrite IH, <- app_assoc. reflexivity.
Qed.

Lemma fold_left_append_if {A B : Type} (P : A -> bool) (g : A -> B) (l : list A)
  (acc : list B) :
  fold_left (fun acc a => if P a then acc ++ [g a] else acc) l acc
  = (acc ++ flat_map (fun a => if P a then [g a] else []) l)%list.
Proof.
  revert acc. induction l as [|x l IH]; intros acc; simpl.
  - rewrite app_nil_r. reflexivity.
  - rewrite IH. destruct (P x); simpl.
    + rewrite <- app_assoc. reflexivity.
    + reflexivity.
Qed.

(** The index loops [for i in range(n): for j in range(i+1, n)] visit the
    pairs of [upper_pairs] in its order. *)
Lemma index_loops_upper_pairs {A B : Type} (h : A -> A -> list B) (d : A) (l : list A) :
  flat_map (fun i =>
              flat_map (fun j => h (nth i l d) (nth j l d))
                       (seq (i + 1) (length l - (i + 1))))
           (seq 0 (length l))
  = flat_map (fun p => h (fst p) (snd p)) (upper_pairs l).
Proof.
  induction l as [|x l IH]; [reflexivity|].
  change (length (x :: l)) with (S (length l)).
  cbn [seq flat_map upper_pairs]. rewrite flat_map_app. f_equal.
  - replace (S (length l) - (0 + 1))%nat with (length l) by lia.
    cbn [Nat.add]. rewrite <- seq_shift, flat_map_map. cbn [nth].
    rewrite flat_map_map. cbn [fst snd].
    rewrite <- (flat_map_map (fun j => nth j l d) (fun a => h x a)), map_nth_seq.
    reflexivity.
  - rewrite <- IH, <- seq_shift, flat_map_map.
    apply flat_map_ext. intros i.
    replace (S (length l) - (S i + 1))%nat with (length l - (i + 1))%nat by lia.
    replace (S i + 1)%nat with (S (i + 1)) by lia.
    rewrite <- seq_shift, flat_map_map. reflexivity.
Qed.

Lemma upper_pairs_In {A : Type} (x y : A) (l : list A) :
  In (x, y) (upper_pairs l) <-> exists l1 l2 l3, l = (l1 ++ x :: l2 ++ y :: l3)%list.
Proof.
  induction l as [|a l IH]; simpl.
  - split; [contradiction|]. intros [l1 [l2 [l3 H]]]. destruct l1; discriminate.
  - rewrite in_app_iff, in_map_iff, IH. split.
    + intros [[z [Heq Hz]]|[l1 [l2 [l3 ->]]]].
      * injection Heq as -> ->. apply in_split in Hz. destruct Hz as [l2 [l3 ->]].
        exists [], l2, l3. reflexivity.
      * exists (a :: l1), l2, l3. reflexivity.
    + intros [[|b l1] [l2 [l3 H]]]; simpl in H; injection H as -> ->.
      * left. exists y. split; [reflexivity|]. apply in_or_app. right. left. reflexivity.
      * right. exists l1, l2, l3. reflexivity.
Qed.

Lemma upper_pairs_members {A : Type} (x y : A) (l : list A) :
  In (x, y) (upper_pairs l) -> In x l /\ In y l.
Proof.
  intros H. apply upper_pairs_In in H. destruct H as [l1 [l2 [l3 ->]]].
  split; apply in_or_app; right; [left; reflexivity|].
  right. apply in_or_app. right. left. reflexivity.
Qed.

Lemma upper_pairs_map {A B : Type} (f : A -> B) (l : list A) :
  upper_pairs (map f l) = map (fun p => (f (fst p), f (snd p))) (upper_pairs l).
Proof.
  induction l as [|x l IH]; simpl; [reflexivity|].
  rewrite map_app, !map_map, IH. reflexivity.
Qed.

Lemma upper_pairs_distinct {A : Type} (x y : A) (l : list A) :
  NoDup l -> In (x, y) (upper_pairs l) -> x <> y.
Proof.
  induction 1 as [|a l Ha Hnd IH]; simpl; [contradiction|].
  rewrite in_app_iff, in_map_iff. intros [[z [Heq Hz]]|H].
  - injection Heq as -> ->. intros ->. contradiction.
  - apply IH, H.
Qed.

Lemma NoDup_map_pair {A : Type} (a : A) (l : list A) :
  NoDup l -> NoDup (map (pair a) l).
Proof.
  induction 1 as [|x l Hx Hnd IH]; simpl; constructor; [|exact IH].
  intros H. apply in_map_iff in H. destruct H as [z [Heq Hz]].
  injection Heq as ->. contradiction.
Qed.

Lemma upper_pairs_NoDup {A : Type} (l : list A) : NoDup l -> NoDup (upper_pairs l).
Proof.
  induction 1 as [|a l Ha Hnd IH]; simpl; [constructor|].
  apply NoDup_app.
  - apply NoDup_map_pair, Hnd.
  - exact IH.
  - intros [u v] Hin H. apply in_map_iff in Hin. destruct Hin as [z [Heq _]].
    injection Heq as -> ->. apply upper_pairs_members in H. tauto.
Qed.

Lemma upper_pairs_one_way {A : Type} (x y : A) (l : list A) :
  NoDup l -> In (x, y) (upper_pairs l) -> ~ In (y, x) (upper_pairs l).
Proof.
  induction 1 as [|a l Ha Hnd IH]; simpl; [contradiction|].
  rewrite !in_app_iff, !in_map_iff. intros [[z [Heq Hz]]|H] [[w [Heq' Hw]]|H'].
  - congruence.
  - injection Heq as -> ->. apply upper_pairs_members in H'. tauto.
  - injection Heq' as -> ->. apply upper_pairs_members in H. tauto.
  - exact (IH H H').
Qed.

(* ===================================================================== *)
(** * Correlations                                                        *)
(* ===================================================================== *)

Lemma nested_loops {B : Type} (P : nat -> nat -> bool) (g : nat -> nat -> B)
  (js : nat -> list nat) (l : list nat) (acc : list B) :
  fold_left (fun acc i =>
               fold_left (fun acc j => if P i j then acc ++ [g i j] else acc) (js i) acc)
            l acc
  = acc ++ flat_map (fun i => flat_map (fun j => if P i j then [g i j] else []) (js i)) l.
Proof.
  revert acc. induction l as [|i l IH]; intros acc; simpl.
  - rewrite app_nil_r. reflexivity.
  - rewrite IH, (fold_left_append_if (P i) (g i)), <- app_assoc. reflexivity.
Qed.

Lemma flat_map_filter_map {A B : Type} (P : A -> bool) (f : A -> B) (l : list A) :
  flat_map (fun a => if P a then [f a] else []) l = map f (filter P l).
Proof.
  induction l as [|x l IH]; simpl; [reflexivity|].
  destruct (P x); simpl; rewrite IH; reflexivity.
Qed.

Lemma numeric_names_In (cols : list (string * column)) (n : string) :
  In n (map fst (numeric_columns cols)) -> In n (map fst cols).
Proof.
  intros H. apply in_map_iff in H. destruct H as [[m xs] [<- Hin]].
  apply numeric_columns_In in Hin. apply (in_map fst) in Hin. exact Hin.
Qed.

Lemma numeric_names_NoDup (cols : list (string * column)) :
  NoDup (map fst cols) -> NoDup (map fst (numeric_columns cols)).
Proof.
  induction cols as [|[n c] l IH]; simpl; intros H; [constructor|].
  inversion H as [|? ? Hn Hl]; subst. destruct c as [xs|xs]; simpl.
  - constructor; [|apply IH, Hl]. intros Hin. apply Hn, numeric_names_In, Hin.
  - apply IH, Hl.
Qed.

(** Selecting the numeric columns by their names gives these columns. *)
Lemma select_numeric_columns (df : DataFrame) :
  NoDup (column_names df) ->
  select_columns df (map fst (select_numeric df))
  = map (fun nx => (fst nx, NumCol (snd nx))) (select_numeric df).
Proof.
  intros Hnd. unfold select_columns.
  assert (H : forall n xs, In (n, xs) (select_numeric df) ->
                           get_column df n = Some (NumCol xs)).
  { intros n xs Hin. apply numeric_columns_In in Hin. apply In_lookup; assumption. }
  induction (select_numeric df) as [|[n xs] l IH]; simpl; [reflexivity|].
  rewrite (H n xs (or_introl eq_refl)). simpl. f_equal.
  apply IH. intros m ys Hm. apply H. right. exact Hm.
Qed.

Lemma numeric_columns_NumCol (l : list (string * list (option Q))) :
  numeric_columns (map (fun nx => (fst nx, NumCol (snd nx))) l) = l.
Proof.
  induction l as [|[n xs] l IH]; [reflexivity|].
  change (numeric_columns (map (fun nx => (fst nx, NumCol (snd nx))) ((n, xs) :: l)))
    with ((n, xs) :: numeric_columns (map (fun nx => (fst nx, NumCol (snd nx))) l)).
  rewrite IH. reflexivity.
Qed.

Lemma to_float_steps (l acc : list (string * list (option Q))) :
  for_each (fun acc nc => xs <- to_float (snd nc) ;; Ok (acc ++ [(fst nc, xs)])%list)
           (map (fun nx => (fst nx, NumCol (snd nx))) l) acc
  = Ok (acc ++ l).
Proof.
  revert acc. induction l as [|[n xs] l IH]; intros acc; simpl.
  - rewrite app_nil_r. reflexivity.
  - rewrite IH, <- app_assoc. reflexivity.
Qed.

(** On numeric columns [corr] returns the matrix of these columns,
    whatever the setting of [numeric_only]. *)
Lemma corr_numeric (numeric_only : bool) (l : list (string * list (option Q))) :
  corr numeric_only (map (fun nx => (fst nx, NumCol (snd nx))) l) = Ok (corr_of l).
Proof.
  unfold corr, corr_with. destruct numeric_only.
  - rewrite numeric_columns_NumCol. reflexivity.
  - rewrite (to_float_steps l []). reflexivity.
Qed.

Lemma labels_nth (l : list (string * list (option Q))) (i : nat) :
  nth i (labels (corr_of l)) "" = fst (nth i l ("", [])).
Proof. simpl. apply (map_nth fst l ("", [])). Qed.

Lemma iloc_corr_of (l : list (string * list (option Q))) (i j : nat) :
  (i < length l)%nat -> (j < length l)%nat ->
  iloc (corr_of l) i j = pearson (snd (nth i l ("", []))) (snd (nth j l ("", []))).
Proof.
  intros Hi Hj. unfold iloc. simpl.
  set (row := fun ci : string * list (option Q) =>
                map (fun cj : string * list (option Q) => pearson (snd ci) (snd cj)) l).
  rewrite (nth_indep (map row l) [] (row ("", [])))
    by (rewrite length_map; exact Hi).
  rewrite (map_nth row l ("", [])). unfold row.
  set (cell := fun cj : string * list (option Q) =>
                 pearson (snd (nth i l ("", []))) (snd cj)).
  rewrite (nth_indep (map cell l) _ (cell ("", [])))
    by (rewrite length_map; exact Hj).
  rewrite (map_nth cell l ("", [])). reflexivity.
Qed.

(** The list that [get_strong_correlations] returns. *)
Lemma get_strong_correlations_eq (numeric_only_default : bool)
  (self : CorrelationAnalyzer) (t : Q) :
  NoDup (column_names (data self)) ->
  get_strong_correlations numeric_only_default self t
  = Ok (strong_pairs t (select_numeric (data self))).
Proof.
  intros Hnd. unfold get_strong_correlations, get_strong_correlations_with.
  change (corr_with corr_of) with corr.
  rewrite (select_numeric_columns _ Hnd), corr_numeric. cbn [bind]. f_equal.
  set (l := select_numeric (data self)).
  rewrite (nested_loops
             (fun i j => abs_gt (iloc (corr_of l) i j) t)
             (fun i j => (nth i (labels (corr_of l)) "", nth j (labels (corr_of l)) "",
                          iloc (corr_of l) i j))).
  cbn [app]. unfold strong_pairs.
  rewrite <- flat_map_filter_map.
  assert (Hlen : length (labels (corr_of l)) = length l) by apply length_map.
  rewrite Hlen.
  set (h := fun x y : string * list (option Q) =>
              if strong t (x, y) then [correlation_entry (x, y)] else []).
  transitivity (flat_map (fun p => h (fst p) (snd p)) (upper_pairs l));
    [|apply flat_map_ext; intros [x y]; reflexivity].
  rewrite <- (index_loops_upper_pairs h ("", []) l). unfold h.
  apply flat_map_ext_in. intros i Hi. apply in_seq in Hi.
  apply flat_map_ext_in. intros j Hj. apply in_seq in Hj.
  rewrite !labels_nth, iloc_corr_of by lia. reflexivity.
Qed.

Lemma NoDup_map_filter {A B : Type} (f : A -> B) (P : A -> bool) (l : list A) :
  NoDup (map f l) -> NoDup (map f (filter P l)).
Proof.
  induction l as [|x l IH]; simpl; intros H; [constructor|].
  inversion H as [|? ? Hx Hl]; subst.
  destruct (P x); simpl; [|apply IH, Hl].
  constructor; [|apply IH, Hl].
  intros Hin. apply Hx. apply in_map_iff in Hin. destruct Hin as [q [Heq Hq]].
  apply in_map_iff. exists q. split; [exact Heq|].
  apply filter_In in Hq. apply Hq.
Qed.

Lemma upper_pairs_total {A : Type} (x y : A) (l : list A) :
  In x l -> In y l -> x <> y -> In (x, y) (upper_pairs l) \/ In (y, x) (upper_pairs l).
Proof.
  induction l as [|a l IH]; simpl; [contradiction|].
  intros [->|Hx] [->|Hy] Hne; rewrite !in_app_iff.
  - contradiction.
  - left. left. apply in_map, Hy.
  - right. left. apply in_map, Hx.
  - destruct (IH Hx Hy Hne); [left|right]; right; assumption.
Qed.

Lemma complete_pairs_swap (xs ys : list (option Q)) :
  complete_pairs ys xs = map (fun p => (snd p, fst p)) (complete_pairs xs ys).
Proof.
  unfold complete_pairs. revert ys. induction xs as [|x xs IH]; intros [|y ys];
    try reflexivity.
  cbn [combine flat_map]. rewrite map_app, IH.
  destruct x, y; reflexivity.
Qed.

Lemma Qsum_ext {A : Type} (f g : A -> Q) (l : list A) :
  (forall a, f a == g a) -> Qsum (map f l) == Qsum (map g l).
Proof.
  intros H. induction l as [|x l IH]; simpl; [reflexivity|].
  rewrite IH, (H x). reflexivity.
Qed.

(** The coefficient does not depend on the order of the two columns. *)
Lemma pearson_sym (xs ys : list (option Q)) : pearson ys xs = pearson xs ys.
Proof.
  unfold pearson. rewrite (complete_pairs_swap xs ys).
  set (ps := complete_pairs xs ys). rewrite !map_map. cbn [fst snd].
  change (map (fun x : Q * Q => snd x) ps) with (map snd ps).
  change (map (fun x : Q * Q => fst x) ps) with (map fst ps).
  f_equal; apply Qred_complete.
  - apply Qsum_ext. intros p. ring.
  - apply Qmult_comm.
Qed.

(** When the radicand of a coefficient is zero so is its numerator: the
    coefficient of a constant column, or of columns without a complete
    pair, is [0/0] and never an infinity, and it is never strong. *)
Lemma pearson_degenerate (xs ys : list (option Q)) (t : Q) :
  sq_rad (pearson xs ys) <= 0 -> abs_gt (pearson xs ys) t = false.
Proof.
  unfold pearson, abs_gt. cbn [sq_num sq_rad].
  set (ps := complete_pairs xs ys).
  set (mx := mean (map fst ps)). set (my := mean (map snd ps)).
  intros Hrad.
  assert (Hb : Qle_bool (Qred (Qsum (map (fun p => (fst p - mx) * (fst p - mx)) ps) *
                               Qsum (map (fun p => (snd p - my) * (snd p - my)) ps))) 0
               = true) by (apply Qle_bool_iff, Hrad).
  rewrite Hb. apply negb_false_iff, Qeq_bool_iff. rewrite Qred_correct in *.
  pose proof (Qsum_sq_nonneg (fun p : Q * Q => fst p - mx) ps) as Hx.
  pose proof (Qsum_sq_nonneg (fun p : Q * Q => snd p - my) ps) as Hy.
  cbv beta in Hx, Hy.
  set (sxx := Qsum (map (fun p => (fst p - mx) * (fst p - mx)) ps)) in *.
  set (syy := Qsum (map (fun p => (snd p - my) * (snd p - my)) ps)) in *.
  assert (Hzero : sxx == 0 \/ syy == 0).
  { destruct (Qlt_le_dec 0 sxx) as [Hpx|Hpx]; [|left; lra].
    destruct (Qlt_le_dec 0 syy) as [Hpy|Hpy]; [|right; lra].
    exfalso. assert (0 < sxx * syy) by (apply Qmult_lt_0_compat; assumption). lra. }
  apply Qsum_zero. intros p Hp. destruct Hzero as [H|H].
  - assert (Hp0 : fst p - mx == 0).
    { apply (Qsum_sq_zero (fun p : Q * Q => fst p - mx) ps p Hp). fold sxx. lra. }
    rewrite Hp0. ring.
  - assert (Hp0 : snd p - my == 0).
    { apply (Qsum_sq_zero (fun p : Q * Q => snd p - my) ps p Hp). fold syy. lra. }
    rewrite Hp0. ring.
Qed.

Lemma corr_with_numeric (pandas_corr : list (string * list (option Q)) -> CorrMatrix)
  (numeric_only : bool) (l : list (string * list (option Q))) :
  corr_with pandas_corr numeric_only (map (fun nx => (fst nx, NumCol (snd nx))) l)
  = Ok (pandas_corr l).
Proof.
  unfold corr_with. destruct numeric_only.
  - rewrite numeric_columns_NumCol. reflexivity.
  - rewrite (to_float_steps l []). reflexivity.
Qed.

Lemma upper_indices_In (n i j : nat) :
  In (i, j) (upper_indices n) <-> (i < j /\ j < n)%nat.
Proof.
  unfold upper_indices.
  assert (H : forall a, In (i, j) (upper_pairs (seq a n))
                        <-> (a <= i /\ i < j /\ j < a + n)%nat).
  { induction n as [|k IH]; intros a; simpl.
    - split; [contradiction|lia].
    - rewrite in_app_iff, in_map_iff, IH. split.
      + intros [[y [Heq Hy]]|H].
        * injection Heq as <- <-. apply in_seq in Hy. lia.
        * lia.
      + intros H. destruct (Nat.eq_dec a i) as [->|Hne].
        * left. exists j. split; [reflexivity|]. apply in_seq. lia.
        * right. lia. }
  rewrite H. lia.
Qed.

Lemma upper_indices_NoDup (n : nat) : NoDup (upper_indices n).
Proof. apply upper_pairs_NoDup, seq_NoDup. Qed.

Lemma corr_of_contract : corr_contract corr_of.
Proof. intros cols. reflexivity. Qed.

(** The list that [get_strong_correlations] returns, from the matrix that
    pandas computes. *)
Lemma get_strong_correlations_with_eq
  (pandas_corr : list (string * list (option Q)) -> CorrMatrix)
  (numeric_only_default : bool) (self : CorrelationAnalyzer) (t : Q) :
  corr_contract pandas_corr ->
  NoDup (column_names (data self)) ->
  get_strong_correlations_with pandas_corr numeric_only_default self t
  = Ok (strong_entries t (map fst (select_numeric (data self)))
                       (pandas_corr (select_numeric (data self)))).
Proof.
  intros Hlib Hnd. unfold get_strong_correlations_with.
  rewrite (select_numeric_columns _ Hnd), corr_with_numeric. cbn [bind]. f_equal.
  rewrite (Hlib (select_numeric (data self))).
  set (names := map fst (select_numeric (data self))).
  set (M := pandas_corr (select_numeric (data self))).
  rewrite (nested_loops
             (fun i j => abs_gt (iloc M i j) t)
             (fun i j => (nth i names "", nth j names "", iloc M i j))).
  cbn [app]. unfold strong_entries, upper_indices.
  rewrite <- flat_map_filter_map.
  set (h := fun i j : nat =>
              if abs_gt (iloc M i j) t
              then [(nth i names "", nth j names "", iloc M i j)] else []).
  transitivity (flat_map (fun p => h (fst p) (snd p))
                         (upper_pairs (seq 0 (length names))));
    [|apply flat_map_ext; intros [i j]; reflexivity].
  rewrite <- (index_loops_upper_pairs h 0%nat (seq 0 (length names))).
  rewrite length_seq.
  apply flat_map_ext_in. intros i Hi. apply in_seq in Hi.
  apply flat_map_ext_in. intros j Hj. apply in_seq in Hj.
  rewrite !seq_nth by lia. reflexivity.
Qed.



(** The selection of present numeric columns, as columns of floats. *)
Lemma select_columns_numeric (df : DataFrame) (names : list string) :
  (forall n, In n names -> exists xs, get_column df n = Some (NumCol xs)) ->
  exists floats,
    select_columns df names = map (fun nx => (fst nx, NumCol (snd nx))) floats /\
    map fst floats = names /\
    (forall n xs, In (n, xs) floats -> get_column df n = Some (NumCol xs)).
Proof.
  unfold select_columns. induction names as [|a l IH]; intros H.
  - exists []. repeat split. intros n xs [].
  - destruct (H a (or_introl eq_refl)) as [xs Hxs].
    destruct IH as [floats [Hsel [Hnames Hget]]].
    { intros n Hn. apply H. right. exact Hn. }
    exists ((a, xs) :: floats). simpl. rewrite Hxs, Hsel, Hnames.
    repeat split. intros n ys [Heq|Hin]; [injection Heq as <- <-; exact Hxs|].
    apply Hget, Hin.
Qed.

Lemma analyze_correlations_too_few (numeric_only_default : bool)
  (self : CorrelationAnalyzer) (cols : list string) :
  (length (filter (has_column (data self)) cols) < 2)%nat ->
  raises (analyze_correlations numeric_only_default self cols).
Proof.
  intros Hlt. unfold analyze_correlations, analyze_correlations_with.
  change (corr_with corr_of) with corr. apply Nat.ltb_lt in Hlt. rewrite Hlt. exact I.
Qed.

(** C8, as amended.  When the requested columns that are present are
    numeric, [analyze_correlations] raises exactly when fewer than two
    entries of the request name a column of the table; otherwise it
    returns the Pearson matrix whose labels are the present entries of the
    request, in the order of the request, and whose cells are the
    coefficients of the columns so named.  With fewer than two present
    entries it raises whatever the columns hold. *)
Theorem C8_analyze_correlations (numeric_only_default : bool)
  (self : CorrelationAnalyzer) (cols : list string) :
  let available := filter (has_column (data self)) cols in
  ((length available < 2)%nat ->
   raises (analyze_correlations numeric_only_default self cols)) /\
  ((forall n c, In n cols -> get_column (data self) n = Some c -> is_numeric c = true) ->
   (raises (analyze_correlations numeric_only_default self cols) <->
    (length available < 2)%nat) /\
   ((2 <= length available)%nat ->
    exists floats,
      analyze_correlations numeric_only_default self cols = Ok (corr_of floats) /\
      labels (corr_of floats) = available /\
      (forall n xs, In (n, xs) floats ->
                    get_column (data self) n = Some (NumCol xs)) /\
      (forall i j, (i < length floats)%nat -> (j < length floats)%nat ->
                   iloc (corr_of floats) i j
                   = pearson (snd (nth i floats ("", []))) (snd (nth j floats ("", [])))))).
Proof.
  cbv zeta.
  set (available := filter (has_column (data self)) cols).
  split; [apply analyze_correlations_too_few|].
  intros Hnum. unfold analyze_correlations, analyze_correlations_with.
  change (corr_with corr_of) with corr. fold available.
  destruct (select_columns_numeric (data self) available) as [floats [Hsel [Hnames Hget]]].
  { intros n Hn. apply filter_In in Hn. destruct Hn as [Hn Hhas].
    apply has_column_get in Hhas. destruct Hhas as [c Hc].
    pose proof (Hnum n c Hn Hc) as Hc'. destruct c as [xs|xs]; [|discriminate].
    exists xs. exact Hc. }
  rewrite Hsel, corr_numeric.
  destruct (Nat.ltb (length available) 2) eqn:E.
  - apply Nat.ltb_lt in E. split; [simpl; tauto|]. intros Hge. lia.
  - apply Nat.ltb_ge in E. split; [simpl; split; [contradiction|lia]|].
    intros _. exists floats. split; [reflexivity|]. split; [exact Hnames|].
    split; [exact Hget|]. intros i j. apply iloc_corr_of.
Qed.

Lemma C8_analyze_correlations_witness :
  exists floats,
    analyze_correlations false (mkCorrelationAnalyzer scenario) ["GHI"; "Tamb"; "DNI"]
    = Ok (corr_of floats) /\
    labels (corr_of floats) = ["GHI"; "DNI"].
Proof.
  destruct (C8_analyze_correlations false (mkCorrelationAnalyzer scenario)
              ["GHI"; "Tamb"; "DNI"]) as [_ H].
  destruct H as [_ H].
  - intros n c [<-|[<-|[<-|[]]]] Hc; vm_compute in Hc; try discriminate;
      injection Hc as <-; reflexivity.
  - destruct H as [floats [Hrun [Hlabels _]]].
    + vm_compute. lia.
    + exists floats. split; [exact Hrun|exact Hlabels].
Defined.

(** C8 as stated fails when a requested column that is present is
    textual.  Both requested columns exist, yet: when [corr] converts
    every column to floats the call raises; when [corr] drops the textual
    columns the matrix is not over the two requested columns. *)
Lemma C8_text_column_counterexample :
  filter (has_column scenario) ["GHI"; "Country"] = ["GHI"; "Country"] /\
  ~ (raises (analyze_correlations false (mkCorrelationAnalyzer scenario)
                                  ["GHI"; "Country"]) <->
     (length (filter (has_column scenario) ["GHI"; "Country"]) < 2)%nat) /\
  ~ (exists m,
       analyze_correlations true (mkCorrelationAnalyzer scenario) ["GHI"; "Country"]
       = Ok m /\
       labels m = filter (has_column scenario) ["GHI"; "Country"]).
Proof.
  split; [reflexivity|]. split.
  - intros [H _]. vm_compute in H. specialize (H I). lia.
  - intros [m [Hrun Hlabels]]. vm_compute in Hrun. injection Hrun as <-.
    vm_compute in Hlabels. discriminate.
Qed.

Lemma strong_pairs_few (t : Q) (cols : list (string * list (option Q))) :
  (length cols < 2)%nat -> strong_pairs t cols = [].
Proof.
  destruct cols as [|x [|y l]]; simpl; intros H; try reflexivity. lia.
Qed.

(** C10.  [get_strong_correlations] always returns: the matrix is taken
    over the numeric columns only, which [corr] accepts.  With fewer than
    two numeric columns the list is empty, where [analyze_correlations]
    raises when fewer than two requested columns are present. *)
Theorem C10_strong_correlations_total (numeric_only_default : bool)
  (self : CorrelationAnalyzer) (t : Q) :
  well_formed (data self) ->
  (exists l, get_strong_correlations numeric_only_default self t = Ok l) /\
  ((length (select_numeric (data self)) < 2)%nat ->
   get_strong_correlations numeric_only_default self t = Ok []) /\
  (forall cols,
     (length (filter (has_column (data self)) cols) < 2)%nat ->
     raises (analyze_correlations numeric_only_default self cols)).
Proof.
  intros [_ Hnd].
  rewrite (get_strong_correlations_eq numeric_only_default self t Hnd).
  split; [eexists; reflexivity|]. split.
  - intros Hlt. rewrite (strong_pairs_few t _ Hlt). reflexivity.
  - intros cols. apply (analyze_correlations_too_few numeric_only_default self cols).
Qed.

(* ===================================================================== *)
(** * Worked instances                                                    *)
(* ===================================================================== *)

Lemma C9_quality_score_witness :
  is_fin (quality_score
            (get_quality_score (mkAssessor (analyzed complete_frame ["GHI"])))) 100 /\
  in_range 0 100
    (quality_score (get_quality_score (mkAssessor (analyzed scenario ["GHI"; "DNI"])))) /\
  quality_score (get_quality_score (mkAssessor (loaded scenario))) = Fin 30.
Proof.
  split; [|split].
  - apply (C9_quality_score (mkAssessor (analyzed complete_frame ["GHI"])));
      vm_compute; reflexivity.
  - apply (C9_quality_score (mkAssessor (analyzed scenario ["GHI"; "DNI"])));
      vm_compute; split; discriminate.
  - reflexivity.
Defined.

Lemma C10_strong_correlations_total_witness :
  get_strong_correlations false (mkCorrelationAnalyzer complete_frame) (1 # 2) = Ok [] /\
  raises (analyze_correlations false (mkCorrelationAnalyzer complete_frame) ["GHI"]).
Proof.
  assert (Hwf : well_formed (data (mkCorrelationAnalyzer complete_frame)))
    by solve_well_formed.
  destruct (C10_strong_correlations_total false (mkCorrelationAnalyzer complete_frame)
              (1 # 2) Hwf) as [_ [Hempty Hraise]].
  split.
  - apply Hempty. vm_compute. lia.
  - apply Hraise. vm_compute. lia.
Defined.

(* ===================================================================== *)
(** * More on missing values                                              *)
(* ===================================================================== *)

Lemma fgt_antitone (p : fval) (t1 t2 : Q) :
  t1 <= t2 -> fgt p t2 = true -> fgt p t1 = true.
Proof.
  intros Hle. destruct p as [q| | |]; simpl; trivial.
  rewrite !not_Qle_bool. intros H. lra.
Qed.

(** X1.  Raising the threshold can only remove columns from the critical ones,
    and the critical columns are columns of the table, whatever the table
    holds. *)
Theorem critical_columns_antitone (self : SolarDataAnalyzer) (t1 t2 : Q)
  (r1 r2 : MissingReport) (s1 s2 : SolarDataAnalyzer) :
  t1 <= t2 ->
  analyze_missing_values self t1 = Ok (r1, s1) ->
  analyze_missing_values self t2 = Ok (r2, s2) ->
  incl (critical_columns r2) (critical_columns r1) /\
  incl (critical_columns r1) (map fst (missing_count r1)) /\
  missing_count r2 = missing_count r1 /\
  missing_percent r2 = missing_percent r1.
Proof.
  intros Hle. rewrite !analyze_missing_values_exact.
  destruct (require_loaded self) as [df|e]; cbn [bind]; [|discriminate].
  intros H1 H2. injection H1 as <- _. injection H2 as <- _.
  cbn [critical_columns missing_count missing_percent].
  split; [|split; [|split; reflexivity]].
  - intros n Hn. apply in_map_iff in Hn. destruct Hn as [[m p] [Hm Hf]].
    apply filter_In in Hf. destruct Hf as [Hin Hgt].
    apply in_map_iff. exists (m, p). split; [exact Hm|].
    apply filter_In. split; [exact Hin|]. apply (fgt_antitone _ t1 t2 Hle Hgt).
  - intros n Hn. apply in_map_iff in Hn. destruct Hn as [[m p] [Hm Hf]].
    apply filter_In in Hf. destruct Hf as [Hin _]. simpl in Hm. subst m.
    apply in_map_iff in Hin. destruct Hin as [[m k] [Heq Hin]].
    simpl in Heq. injection Heq as -> _.
    apply in_map_iff. exists (n, k). split; [reflexivity|exact Hin].
Qed.

Lemma critical_columns_antitone_witness :
  exists r1 s1 r2 s2,
    analyze_missing_values (loaded scenario) 5 = Ok (r1, s1) /\
    analyze_missing_values (loaded scenario) 50 = Ok (r2, s2) /\
    incl (critical_columns r2) (critical_columns r1).
Proof.
  do 4 eexists.
  split; [vm_compute; reflexivity|]. split; [vm_compute; reflexivity|].
  refine (proj1 (critical_columns_antitone (loaded scenario) 5 50 _ _ _ _ _ _ _));
    vm_compute; try reflexivity; discriminate.
Defined.

Lemma percent_of_zero (k n : nat) : (0 < n)%nat -> (percent_of k n == 0 <-> k = 0%nat).
Proof.
  intros Hn. unfold percent_of. pose proof (inject_nat_pos n Hn) as Hp. split.
  - intros H.
    assert (Hk : inject_Z (Z.of_nat k) == 0).
    { assert (Hq : inject_Z (Z.of_nat k) / inject_Z (Z.of_nat n) == 0).
      { destruct (Qmult_integral _ _ H) as [H0|H0]; [exact H0|discriminate]. }
      assert (Hb : ~ inject_Z (Z.of_nat n) == 0).
      { intros E. rewrite E in Hp. apply (Qlt_irrefl 0 Hp). }
      rewrite <- (Qmult_div_r (inject_Z (Z.of_nat k)) (inject_Z (Z.of_nat n)) Hb).
      rewrite Hq. ring. }
    assert (Hz : Z.of_nat k = 0%Z) by (apply inject_Z_injective; exact Hk). lia.
  - intros ->. reflexivity.
Qed.

(** The overall completeness of a table with cells. *)
Lemma overall_completeness_expr (df : DataFrame) :
  (0 < cell_count df)%nat ->
  exists q,
    fsub (Fin 100)
         (fmul (fdiv (of_nat (list_sum (map snd (map (fun nc => (fst nc, count_na (snd nc)))
                                                     (columns df)))))
                     (of_nat (nrows df * length (columns df))))
               (Fin 100)) = Fin q /\
    q == 100 - percent_of (total_missing df) (cell_count df).
Proof.
  intros Hcells. rewrite map_map. cbn [snd].
  fold (total_missing df). fold (cell_count df).
  destruct (percent_fin (total_missing df) (cell_count df) Hcells) as [p [Hp Hpq]].
  rewrite Hp. cbn [fsub fopp fadd]. eexists. split; [reflexivity|].
  rewrite !Qred_correct, Hpq. ring.
Qed.

Lemma overall_completeness_fin (self : SolarDataAnalyzer) (df : DataFrame) (t : Q)
  (r : MissingReport) (s : SolarDataAnalyzer) :
  raw_data self = Some df -> (0 < cell_count df)%nat ->
  analyze_missing_values self t = Ok (r, s) ->
  exists q, overall_completeness r = Fin q /\
            q == 100 - percent_of (total_missing df) (cell_count df).
Proof.
  intros Hraw Hcells. rewrite !analyze_missing_values_exact. unfold require_loaded.
  rewrite Hraw. cbn [bind]. intros H. injection H as <- _.
  exact (overall_completeness_expr df Hcells).
Qed.

Lemma list_sum_zero (l : list nat) : list_sum l = 0%nat <-> forall k, In k l -> k = 0%nat.
Proof.
  induction l as [|x l IH]; simpl.
  - split; [intros _ k []|reflexivity].
  - split.
    + intros H k [<-|Hk]; [lia|]. apply IH; [lia|exact Hk].
    + intros H. rewrite (H x (or_introl eq_refl)). apply IH.
      intros k Hk. apply H. right. exact Hk.
Qed.

Lemma analyze_missing_values_Ok (self : SolarDataAnalyzer) (df : DataFrame) (t : Q)
  (r : MissingReport) (s : SolarDataAnalyzer) :
  raw_data self = Some df ->
  analyze_missing_values self t = Ok (r, s) ->
  missing_count r = map (fun nc => (fst nc, count_na (snd nc))) (columns df) /\
  missing_percent r =
    map (fun nk => (fst nk, fmul (fdiv (of_nat (snd nk)) (of_nat (nrows df))) (Fin 100)))
        (missing_count r) /\
  critical_columns r = map fst (filter (fun np => fgt (snd np) t) (missing_percent r)) /\
  missing_values (analysis_results s) = Some r /\
  outliers (analysis_results s) = outliers (analysis_results self) /\
  raw_data s = raw_data self /\ cleaned_data s = cleaned_data self.
Proof.
  intros Hraw. rewrite !analyze_missing_values_exact. unfold require_loaded. rewrite Hraw. cbn [bind].
  intros H. injection H as <- <-. repeat split; reflexivity.
Qed.

Lemma no_critical_columns (n : nat) (t : Q) (l : list (string * nat)) :
  (0 < n)%nat -> 0 <= t ->
  (forall m k, In (m, k) l -> k = 0%nat) ->
  map fst (filter (fun np => fgt (snd np) t)
                  (map (fun nk => (fst nk, fmul (fdiv (of_nat (snd nk)) (of_nat n)) (Fin 100)))
                       l)) = [].
Proof.
  intros Hn Ht. induction l as [|[m k] l IH]; intros H; [reflexivity|].
  cbn [map filter fst snd].
  rewrite (H m k (or_introl eq_refl)).
  destruct (percent_fin 0 n Hn) as [p [Hp Hpq]]. rewrite Hp.
  assert (Hgt : fgt (Fin p) t = false).
  { apply not_true_iff_false. rewrite fgt_Fin. rewrite Hpq.
    assert (Hz : percent_of 0 n == 0) by (apply percent_of_zero; trivial).
    rewrite Hz. apply Qle_not_lt, Ht. }
  rewrite Hgt. apply IH. intros m' k' Hin. apply (H m'). right. exact Hin.
Qed.

(** X2.  On a table with at least one row and one column the overall
    completeness is 100 exactly when no cell is missing, that is when every
    reported missing count is zero; then no column is critical for a
    threshold that is not negative. *)
Theorem completeness_full_iff (self : SolarDataAnalyzer) (df : DataFrame) (t : Q)
  (r : MissingReport) (s : SolarDataAnalyzer) :
  raw_data self = Some df -> (0 < nrows df)%nat -> columns df <> [] ->
  analyze_missing_values self t = Ok (r, s) ->
  (is_fin (overall_completeness r) 100 <->
   forall n k, In (n, k) (missing_count r) -> k = 0%nat) /\
  (0 <= t -> is_fin (overall_completeness r) 100 -> critical_columns r = []).
Proof.
  intros Hraw Hrows Hcols Hrun.
  assert (Hcells : (0 < cell_count df)%nat).
  { unfold cell_count. destruct (columns df); [congruence|]. simpl. lia. }
  destruct (overall_completeness_fin self df t r s Hraw Hcells Hrun) as [q [Hq Hqq]].
  rewrite Hq. cbn [is_fin].
  destruct (analyze_missing_values_Ok self df t r s Hraw Hrun)
    as [Hcount [Hpercent [Hcrit _]]].
  assert (Hfull : q == 100 <-> forall n k, In (n, k) (missing_count r) -> k = 0%nat).
  { rewrite Hqq.
    assert (H100 : 100 - percent_of (total_missing df) (cell_count df) == 100 <->
                   percent_of (total_missing df) (cell_count df) == 0)
      by (split; intros H; lra).
    rewrite H100, (percent_of_zero _ _ Hcells). unfold total_missing.
    rewrite list_sum_zero, Hcount. split.
    - intros H n k Hin. apply in_map_iff in Hin. destruct Hin as [[m c] [Heq Hin]].
      simpl in Heq. injection Heq as _ <-. apply H.
      apply in_map_iff. exists (m, c). split; [reflexivity|exact Hin].
    - intros H k Hk. apply in_map_iff in Hk. destruct Hk as [[m c] [<- Hin]].
      apply (H m). apply in_map_iff. exists (m, c). split; [reflexivity|exact Hin]. }
  split; [exact Hfull|].
  intros Ht Hq100. rewrite Hcrit, Hpercent.
  apply (no_critical_columns _ _ _ Hrows Ht (proj1 Hfull Hq100)).
Qed.

Lemma completeness_full_iff_witness :
  exists r s,
    analyze_missing_values (loaded complete_frame) 5 = Ok (r, s) /\
    is_fin (overall_completeness r) 100 /\ critical_columns r = [].
Proof.
  do 2 eexists. split; [vm_compute; reflexivity|].
  assert (Hrows : (0 < nrows complete_frame)%nat) by (simpl; lia).
  assert (Hcols : columns complete_frame <> []) by discriminate.
  assert (Ht : 0 <= 5) by discriminate.
  destruct (completeness_full_iff (loaded complete_frame) complete_frame 5 _ _
              eq_refl Hrows Hcols eq_refl) as [Hiff Hcrit].
  assert (Hfull : is_fin (overall_completeness
                            {| missing_count := [("GHI", 0%nat)];
                               missing_percent := [("GHI", Fin 0)];
                               critical_columns := [];
                               overall_completeness := Fin 100;
                               threshold := 5 |}) 100) by reflexivity.
  split; [exact Hfull|exact (Hcrit Ht Hfull)].
Defined.

(** X4.  A table without rows: every reported percentage and the overall
    completeness are NaN, no column is critical whatever the threshold,
    and the quality score computed from this report is NaN. *)
Theorem missing_report_without_rows (self : SolarDataAnalyzer) (df : DataFrame) (t : Q)
  (r : MissingReport) (s : SolarDataAnalyzer) :
  raw_data self = Some df -> well_formed df -> nrows df = 0%nat ->
  analyze_missing_values self t = Ok (r, s) ->
  (forall n p, In (n, p) (missing_percent r) -> p = NaN) /\
  overall_completeness r = NaN /\
  critical_columns r = [] /\
  completeness (get_quality_score (mkAssessor s)) = NaN /\
  quality_score (get_quality_score (mkAssessor s)) = NaN.
Proof.
  intros Hraw [Hlen _] Hrows Hrun.
  destruct (analyze_missing_values_Ok self df t r s Hraw Hrun)
    as [Hcount [Hpercent [Hcrit [Hstored _]]]].
  assert (Hzero : forall n k, In (n, k) (missing_count r) -> k = 0%nat).
  { intros n k Hin. rewrite Hcount in Hin. apply in_map_iff in Hin.
    destruct Hin as [[m c] [Heq Hin]]. simpl in Heq. injection Heq as _ <-.
    rewrite Forall_forall in Hlen. specialize (Hlen _ Hin). simpl in Hlen.
    pose proof (count_na_le c). lia. }
  assert (Hnan : forall n p, In (n, p) (missing_percent r) -> p = NaN).
  { intros n p Hin. rewrite Hpercent in Hin. apply in_map_iff in Hin.
    destruct Hin as [[m k] [Heq Hin]]. cbn [fst snd] in Heq. injection Heq as _ <-.
    rewrite (Hzero m k Hin), Hrows. reflexivity. }
  assert (Hoverall : overall_completeness r = NaN).
  { rewrite analyze_missing_values_exact in Hrun. unfold require_loaded in Hrun. rewrite Hraw in Hrun.
    cbn [bind] in Hrun. injection Hrun as <- _. cbn [overall_completeness].
    rewrite Hrows. cbn [Nat.mul].
    assert (Hsum : list_sum (map snd (map (fun nc => (fst nc, count_na (snd nc)))
                                          (columns df))) = 0%nat).
    { apply list_sum_zero. intros k Hk. apply in_map_iff in Hk.
      destruct Hk as [[m k'] [<- Hin]]. apply (Hzero m). cbn [missing_count]. exact Hin. }
    rewrite Hsum. reflexivity. }
  split; [exact Hnan|]. split; [exact Hoverall|]. split.
  - rewrite Hcrit. clear Hcrit Hpercent.
    induction (missing_percent r) as [|[n p] l IH]; [reflexivity|].
    cbn [filter snd]. rewrite (Hnan n p (or_introl eq_refl)). cbn [fgt].
    apply IH. intros m q Hin. apply (Hnan m). right. exact Hin.
  - unfold get_quality_score, assess_completeness.
    cbn [analyzer completeness quality_score]. rewrite Hstored, Hoverall.
    split; reflexivity.
Qed.

Lemma missing_report_without_rows_witness :
  exists r s,
    analyze_missing_values (loaded header_only) 5 = Ok (r, s) /\
    quality_score (get_quality_score (mkAssessor s)) = NaN.
Proof.
  do 2 eexists. split; [vm_compute; reflexivity|].
  assert (Hwf : well_formed header_only) by solve_well_formed.
  exact (proj2 (proj2 (proj2 (proj2
           (missing_report_without_rows (loaded header_only) header_only 5 _ _
              eq_refl Hwf eq_refl eq_refl))))).
Defined.

(* ===================================================================== *)
(** * More on outliers                                                    *)
(* ===================================================================== *)

Lemma zscore_steps_numeric (cols : list (string * column))
  (acc z : list (list (option sqfrac))) :
  for_each (fun acc nc =>
              z <- zscore_exact (snd nc) ;;
              Ok (acc ++ [z])%list) cols acc = Ok z ->
  Forall (fun nc => is_numeric (snd nc) = true) cols.
Proof.
  revert acc. induction cols as [|[n c] l IH]; intros acc H; [constructor|].
  simpl in H. destruct c as [xs|xs]; [|discriminate]. cbn [bind] in H.
  constructor; [reflexivity|]. exact (IH _ H).
Qed.

(** What a call of [detect_outliers] that returned has done. *)
Lemma detect_outliers_Ok (self : SolarDataAnalyzer) (cols : list string) (t : Q)
  (m : list bool) (s : SolarDataAnalyzer) :
  detect_outliers self cols t = Ok (m, s) ->
  exists df,
    raw_data self = Some df /\
    filter (has_column df) cols <> [] /\
    Forall (fun nc => is_numeric (snd nc) = true)
           (select_columns df (filter (has_column df) cols)) /\
    m = any_axis1 (nrows df)
          (map (map (exceeds t))
               (map zscore_column
                    (map snd (numeric_columns
                                (select_columns df (filter (has_column df) cols)))))) /\
    outliers (analysis_results s)
    = Some {| mask := m; count := count_true m;
              percentage := fmul (fdiv (of_nat (count_true m)) (of_nat (nrows df)))
                                 (Fin 100) |} /\
    missing_values (analysis_results s) = missing_values (analysis_results self) /\
    raw_data s = raw_data self /\ cleaned_data s = cleaned_data self.
Proof.
  rewrite !detect_outliers_exact. unfold require_loaded.
  destruct (raw_data self) as [df|]; [|discriminate]. cbn [bind].
  destruct (filter (has_column df) cols) as [|a l] eqn:E; [discriminate|].
  destruct (zscore (select_columns df (a :: l))) as [z|e] eqn:Hz; [|discriminate].
  cbn [bind]. intros H. injection H as <- <-.
  exists df. rewrite E. split; [reflexivity|]. split; [discriminate|].
  pose proof (zscore_steps_numeric _ _ _ Hz) as Hnum.
  split; [exact Hnum|].
  rewrite (zscore_numeric _ Hnum) in Hz. injection Hz as <-.
  repeat split; reflexivity.
Qed.

Lemma mask_bit (df : DataFrame) (names : list string) (t : Q) (i : nat) :
  nth i (any_axis1 (nrows df)
           (map (map (exceeds t))
                (map zscore_column (map snd (numeric_columns (select_columns df names))))))
      false = true <->
  (i < nrows df)%nat /\
  exists name xs x,
    In name names /\ get_column df name = Some (NumCol xs) /\
    nth i xs None = Some x /\
    abs_gt (mkSqfrac (x - mean (present xs)) (variance (present xs))) t = true.
Proof.
  destruct (Nat.lt_ge_cases i (nrows df)) as [Hi|Hi].
  - rewrite any_axis1_nth by exact Hi. rewrite flagged_exists. tauto.
  - rewrite nth_overflow by (rewrite any_axis1_length; exact Hi).
    split; [discriminate|]. intros [Hlt _]. lia.
Qed.

(** X5.  Requesting more columns can only flag more rows: every row flagged
    for a list of columns is flagged for every list that holds these
    columns, at the same threshold. *)
Theorem outliers_monotone_in_columns (self : SolarDataAnalyzer)
  (cols cols' : list string) (t : Q) (m m' : list bool) (s s' : SolarDataAnalyzer) :
  incl cols cols' ->
  detect_outliers self cols t = Ok (m, s) ->
  detect_outliers self cols' t = Ok (m', s') ->
  (forall i, nth i m false = true -> nth i m' false = true) /\
  (count_true m <= count_true m')%nat.
Proof.
  intros Hincl H H'.
  destruct (detect_outliers_Ok _ _ _ _ _ H) as [df [Hraw [_ [_ [Hm _]]]]].
  destruct (detect_outliers_Ok _ _ _ _ _ H') as [df' [Hraw' [_ [_ [Hm' _]]]]].
  assert (df' = df) by congruence. subst df'.
  assert (Hbit : forall i, nth i m false = true -> nth i m' false = true).
  { intros i Hi. rewrite Hm in Hi. rewrite Hm'. apply mask_bit in Hi. apply mask_bit.
    destruct Hi as [Hlt [n [xs [x [Hn Hrest]]]]]. split; [exact Hlt|].
    exists n, xs, x. split; [|exact Hrest].
    apply filter_In in Hn. destruct Hn as [Hn Hhas]. apply filter_In.
    split; [apply Hincl, Hn|exact Hhas]. }
  split; [exact Hbit|].
  rewrite Hm, Hm'. unfold any_axis1. apply count_true_mono.
  intros i Hi Hflag. apply in_seq in Hi.
  specialize (Hbit i). rewrite Hm, Hm' in Hbit.
  rewrite !any_axis1_nth in Hbit by lia. apply Hbit, Hflag.
Qed.

Lemma outliers_monotone_in_columns_witness :
  exists m s m' s',
    detect_outliers (loaded scenario) ["DNI"] 1 = Ok (m, s) /\
    detect_outliers (loaded scenario) ["GHI"; "DNI"] 1 = Ok (m', s') /\
    (count_true m <= count_true m')%nat.
Proof.
  do 4 eexists.
  split; [vm_compute; reflexivity|]. split; [vm_compute; reflexivity|].
  refine (proj2 (outliers_monotone_in_columns (loaded scenario) ["DNI"] ["GHI"; "DNI"] 1
                   _ _ _ _ _ _ _)).
  - intros n [<-|[]]. right. left. reflexivity.
  - vm_compute. reflexivity.
  - vm_compute. reflexivity.
Defined.

(** Among values whose squared deviations sum to [S], those deviating by
    more than [c] in square are few: their number times [c] stays below
    [S]. *)
Lemma deviations_bound (m c : Q) (l : list Q) :
  0 <= c ->
  let flagged := filter (fun x => negb (Qle_bool ((x - m) * (x - m)) c)) l in
  flagged = [] \/ Qlen flagged * c < Qsum (map (fun x => (x - m) * (x - m)) l).
Proof.
  intros Hc. cbv zeta. induction l as [|x l IH]; [left; reflexivity|].
  cbn [filter map Qsum fold_right].
  pose proof (Qsquare_nonneg (x - m)) as Hx.
  pose proof (Qsum_squares_nonneg m l) as Hl.
  fold (Qsum (map (fun x => (x - m) * (x - m)) l)).
  set (S' := Qsum (map (fun x => (x - m) * (x - m)) l)) in *.
  set (fl := filter (fun x => negb (Qle_bool ((x - m) * (x - m)) c)) l) in *.
  destruct (negb (Qle_bool ((x - m) * (x - m)) c)) eqn:E.
  - right. apply not_Qle_bool in E.
    assert (Hlen : Qlen (x :: fl) == Qlen fl + 1).
    { unfold Qlen. cbn [length]. rewrite Nat2Z.inj_succ, <- Z.add_1_r, inject_Z_plus.
      reflexivity. }
    rewrite Hlen. destruct IH as [->|IH].
    + change (Qlen (@nil Q)) with 0. lra.
    + lra.
  - destruct IH as [IH|IH]; [left; exact IH|right; lra].
Qed.

Lemma variance_sum (l : list Q) (x : Q) :
  In x l ->
  Qsum (map (fun y => (y - mean l) * (y - mean l)) l) == variance l * Qlen l.
Proof.
  intros Hin. unfold variance. pose proof (Qlen_pos l x Hin) as Hn.
  field. intros E. rewrite E in Hn. apply (Qlt_irrefl 0 Hn).
Qed.

(** A value is flagged only in a column that holds more than [t * t]
    values. *)
Lemma flag_needs_values (xs : list (option Q)) (x t : Q) :
  0 <= t -> In (Some x) xs ->
  abs_gt (mkSqfrac (x - mean (present xs)) (variance (present xs))) t = true ->
  t * t < Qlen (present xs).
Proof.
  intros Ht Hin Hflag. apply In_present in Hin.
  set (p := present xs) in *. set (m := mean p) in *. set (v := variance p) in *.
  destruct (Qlt_le_dec 0 v) as [Hv|Hv].
  - unfold abs_gt in Hflag. cbn [sq_num sq_rad] in Hflag.
    assert (Hb : Qle_bool v 0 = false) by (apply Qle_bool_false, Hv).
    assert (Hb' : Qle_bool 0 t = true) by (apply Qle_bool_iff, Ht).
    rewrite Hb, Hb' in Hflag. cbn [negb] in Hflag.
    assert (Hc : 0 <= t * t * v).
    { apply Qmult_le_0_compat; [apply Qsquare_nonneg|lra]. }
    pose proof (deviations_bound m (t * t * v) p Hc) as Hbound. cbv zeta in Hbound.
    set (fl := filter (fun y => negb (Qle_bool ((y - m) * (y - m)) (t * t * v))) p) in *.
    assert (Hx : In x fl) by (apply filter_In; split; assumption).
    destruct Hbound as [Hnil|Hlt]; [rewrite Hnil in Hx; contradiction|].
    unfold m in Hlt at 1 2. rewrite (variance_sum p x Hin) in Hlt. fold v in Hlt.
    assert (H1 : 1 <= Qlen fl).
    { unfold Qlen. change 1 with (inject_Z 1). rewrite <- Zle_Qle.
      destruct fl; [contradiction|simpl; lia]. }
    pose proof (Qsquare_nonneg t) as Htt.
    assert (Hmul : t * t * v <= Qlen fl * (t * t * v)).
    { rewrite <- (Qmult_1_l (t * t * v)) at 1. apply Qmult_le_compat_r; assumption. }
    assert (Hlt' : t * t * v < Qlen p * v) by lra.
    apply Qmult_lt_r with (z := v); assumption.
  - pose proof (zscore_constant_column xs x t (proj2 (In_present xs x) Hin) Hv) as Hno.
    fold p m v in Hno. congruence.
Qed.



Lemma count_true_le (m : list bool) : (count_true m <= length m)%nat.
Proof. apply filter_length_le. Qed.



(* ===================================================================== *)
(** * More on cleaning                                                    *)
(* ===================================================================== *)

Lemma lookup_None {A : Type} (n : string) (l : list (string * A)) :
  lookup n l = None <-> ~ In n (map fst l).
Proof.
  induction l as [|[m a] l IH]; simpl; [tauto|].
  destruct (String.eqb_spec n m) as [->|Hne].
  - split; [discriminate|]. intros H. exfalso. apply H. left. reflexivity.
  - rewrite IH. split; [intros H [E|Hin]; [congruence|tauto]|tauto].
Qed.

(** Two lists of named columns with the same names, without a repeated
    name, in which the columns of each name correspond by [f], correspond
    by [f] entry by entry. *)
Lemma named_columns_ext {A : Type} (f : string -> A -> A) (l l' : list (string * A)) :
  NoDup (map fst l) -> map fst l' = map fst l ->
  (forall n, lookup n l' = option_map (f n) (lookup n l)) ->
  l' = map (fun nc => (fst nc, f (fst nc) (snd nc))) l.
Proof.
  revert l'. induction l as [|[n c] l IH]; intros [|[n' c'] l'] Hnd Hnames Hget;
    try discriminate; [reflexivity|].
  simpl in Hnames. injection Hnames as -> Hnames.
  inversion Hnd as [|? ? Hn Hnd']; subst.
  pose proof (Hget n) as Hn'. simpl in Hn'. rewrite String.eqb_refl in Hn'.
  injection Hn' as ->. cbn [map fst snd]. f_equal.
  apply IH; [exact Hnd'|exact Hnames|].
  intros k. specialize (Hget k). simpl in Hget.
  destruct (String.eqb_spec k n) as [E|Hne]; [|exact Hget].
  rewrite E, (proj2 (lookup_None n l) Hn).
  apply lookup_None. rewrite Hnames. exact Hn.
Qed.

(** What [clean_data] stores: the cleaned table, beside the raw table and
    the analysis results it found. *)
Lemma clean_data_store (fl : Q -> Q) (cow : bool)
  (self : SolarDataAnalyzer) (df : DataFrame)
  (m : option (list bool)) (cleaned : DataFrame) (s : SolarDataAnalyzer) :
  raw_data self = Some df ->
  clean_data fl cow self m = Ok (cleaned, s) ->
  s = {| raw_data := Some df; cleaned_data := Some cleaned;
         analysis_results := analysis_results self |}.
Proof.
  intros Hraw Hrun.
  unfold clean_data, require_loaded in Hrun. rewrite Hraw in Hrun. cbn [bind] in Hrun.
  destruct (for_each (impute_column fl cow) _ df) as [x1|]; [|discriminate].
  cbn [bind] in Hrun.
  destruct (for_each correct_negative _ x1) as [x2|]; [|discriminate].
  cbn [bind] in Hrun. injection Hrun as <- <-. reflexivity.
Qed.

Lemma clean_data_frame (fl : Q -> Q) (cow : bool)
  (self : SolarDataAnalyzer) (df : DataFrame)
  (m : option (list bool)) (cleaned : DataFrame) (s : SolarDataAnalyzer) :
  raw_data self = Some df -> NoDup (column_names df) ->
  clean_data fl cow self m = Ok (cleaned, s) ->
  cleaned =
    set_column
      {| nrows := nrows df;
         columns := map (fun nc => (fst nc, cleaned_column fl cow (fst nc) (snd nc)))
                        (columns df) |}
      marker_column (marker_cells (nrows df)).
Proof.
  intros Hraw Hnd Hrun.
  destruct (clean_data_columns fl _ _ _ _ _ Hrun)
    as [df' [d1 [d2 [Hraw' [L1 [L2 [Hcl Hs]]]]]]].
  assert (df' = df) by congruence. subst df'.
  destruct L1 as [Hr1 [Hn1 [Hg1 _]]]. destruct L2 as [Hr2 [Hn2 [Hg2 _]]].
  assert (Hd2 : d2 = {| nrows := nrows df;
                        columns := map (fun nc => (fst nc,
                                                   cleaned_column fl cow (fst nc) (snd nc)))
                                       (columns df) |}).
  { destruct d2 as [rows2 cols2]. simpl in Hr2. f_equal; [congruence|].
    apply named_columns_ext; [exact Hnd|unfold column_names in *; simpl in *; congruence|].
    intros n. fold (get_column df n).
    change (lookup n cols2) with (get_column {| nrows := rows2; columns := cols2 |} n).
    rewrite Hg2, Hg1, mem_filter_has. unfold cleaned_column.
    destruct (get_column df n) as [c|] eqn:Hc.
    - assert (Hhas : has_column df n = true) by (apply has_column_get; exists c; exact Hc).
      rewrite Hhas, andb_true_r.
      destruct (mem n key_columns), (mem n non_negative_cols); reflexivity.
    - destruct (mem n key_columns && has_column df n), (mem n non_negative_cols);
        reflexivity. }
  rewrite Hcl, Hd2. reflexivity.
Qed.

(** X8.  The frame that [clean_data] returns, written out: the columns of
    the table in their order, each measurement column filled (imputed
    without copy-on-write, as it was with copy-on-write) and each
    non-negative column clamped, and the marker column [Cleaning] assigned
    last, which overwrites a column of that name where it stands. *)
Theorem clean_data_closed_form (fl : Q -> Q) (copy_on_write : bool)
  (self : SolarDataAnalyzer)
  (df : DataFrame) (m : option (list bool)) (cleaned : DataFrame)
  (s : SolarDataAnalyzer) :
  raw_data self = Some df -> NoDup (column_names df) ->
  clean_data fl copy_on_write self m = Ok (cleaned, s) ->
  cleaned =
    set_column
      {| nrows := nrows df;
         columns := map (fun nc => (fst nc,
                                    cleaned_column fl copy_on_write (fst nc) (snd nc)))
                        (columns df) |}
      marker_column (marker_cells (nrows df)) /\
  s = {| raw_data := Some df; cleaned_data := Some cleaned;
         analysis_results := analysis_results self |}.
Proof.
  intros Hraw Hnd Hrun. split.
  - exact (clean_data_frame fl copy_on_write self df m cleaned s Hraw Hnd Hrun).
  - exact (clean_data_store fl copy_on_write self df m cleaned s Hraw Hrun).
Qed.

Lemma clean_data_closed_form_witness :
  (exists s, clean_data binary64 false (loaded scenario) None = Ok (cleaned_scenario, s) /\
             s = {| raw_data := Some scenario; cleaned_data := Some cleaned_scenario;
                    analysis_results := analysis_results (loaded scenario) |}) /\
  (exists cleaned s,
     clean_data binary64 true (loaded scenario) None = Ok (cleaned, s) /\
     cleaned = cleaned_scenario_cow).
Proof.
  assert (Hnd : NoDup (column_names scenario)) by apply scenario_well_formed.
  split.
  - eexists. split; [vm_compute; reflexivity|].
    exact (proj2 (clean_data_closed_form binary64 false (loaded scenario) scenario None _ _
                    eq_refl Hnd eq_refl)).
  - pose proof (proj2 (clean_data_closed_form binary64 true (loaded scenario) scenario None
                         cleaned_scenario_cow _ eq_refl Hnd eq_refl)) as Hs.
    exists cleaned_scenario_cow. eexists. split; [vm_compute; reflexivity|reflexivity].
Defined.

Lemma nth_map_Some {A : Type} (f : option A -> option A) (xs : list (option A))
  (i : nat) (x : A) :
  nth i xs None = Some x -> nth i (map f xs) None = f (Some x).
Proof.
  intros H.
  assert (Hi : (i < length xs)%nat).
  { destruct (Nat.lt_ge_cases i (length xs)) as [Hi|Hi]; [exact Hi|].
    rewrite nth_overflow in H by exact Hi. discriminate. }
  rewrite (nth_indep _ None (f None)) by (rewrite length_map; exact Hi).
  rewrite map_nth, H. reflexivity.
Qed.

Lemma nth_map_None {A : Type} (f : option A -> option A) (xs : list (option A))
  (i : nat) :
  (i < length xs)%nat -> nth i xs None = None -> nth i (map f xs) None = f None.
Proof.
  intros Hi H.
  rewrite (nth_indep _ None (f None)) by (rewrite length_map; exact Hi).
  rewrite map_nth, H. reflexivity.
Qed.

Lemma clean_data_get (fl : Q -> Q) (cow : bool) (self : SolarDataAnalyzer) (df : DataFrame)
  (m : option (list bool)) (cleaned : DataFrame) (s : SolarDataAnalyzer) (n : string) :
  raw_data self = Some df ->
  clean_data fl cow self m = Ok (cleaned, s) ->
  n <> marker_column ->
  get_column cleaned n = option_map (cleaned_column fl cow n) (get_column df n).
Proof.
  intros Hraw Hrun Hn.
  destruct (clean_data_columns fl _ _ _ _ _ Hrun)
    as [df' [d1 [d2 [Hraw' [L1 [L2 [Hcl _]]]]]]].
  assert (df' = df) by congruence. subst df'.
  rewrite Hcl. apply (cleaned_get fl cow df d1 d2 n L1 L2 Hn).
Qed.

Lemma clean_data_marker (fl : Q -> Q) (cow : bool)
  (self : SolarDataAnalyzer) (df : DataFrame)
  (m : option (list bool)) (cleaned : DataFrame) (s : SolarDataAnalyzer) :
  raw_data self = Some df ->
  clean_data fl cow self m = Ok (cleaned, s) ->
  get_column cleaned marker_column = Some (marker_cells (nrows df)).
Proof.
  intros Hraw Hrun.
  destruct (clean_data_columns fl _ _ _ _ _ Hrun)
    as [df' [d1 [d2 [Hraw' [[Hr1 _] [[Hr2 _] [Hcl _]]]]]]].
  assert (df' = df) by congruence. subst df'.
  rewrite Hcl, get_set_same. congruence.
Qed.

(** X9.  In a column other than the marker column [Cleaning], a cell that
    holds a value keeps it, except that a negative value of a non-negative
    column becomes 0; a textual column other than the marker column is
    kept as it is.  The marker column holds the marker in every row,
    whatever a column of that name held before. *)
Theorem clean_data_present_cells (fl : Q -> Q) (copy_on_write : bool)
  (self : SolarDataAnalyzer)
  (df : DataFrame) (m : option (list bool)) (cleaned : DataFrame)
  (s : SolarDataAnalyzer) :
  raw_data self = Some df ->
  clean_data fl copy_on_write self m = Ok (cleaned, s) ->
  (forall n xs i x,
     n <> marker_column ->
     get_column df n = Some (NumCol xs) -> nth i xs None = Some x ->
     exists ys,
       get_column cleaned n = Some (NumCol ys) /\
       nth i ys None
       = Some (if mem n non_negative_cols && negb (Qle_bool 0 x) then 0 else x)) /\
  (forall n xs, n <> marker_column -> get_column df n = Some (TextCol xs) ->
                get_column cleaned n = Some (TextCol xs)) /\
  get_column cleaned marker_column
  = Some (TextCol (repeat (Some marker_value) (nrows df))).
Proof.
  intros Hraw Hrun.
  split; [|split; [|exact (clean_data_marker fl _ _ _ _ _ _ Hraw Hrun)]].
  - intros n xs i x Hn Hc Hx.
    pose proof (clean_data_get fl copy_on_write self df m cleaned s n Hraw Hrun Hn) as Hget.
    rewrite Hc in Hget. cbn [option_map] in Hget.
    unfold cleaned_column in Hget.
    assert (H1 : forall ys, filled fl copy_on_write (NumCol xs) = NumCol ys ->
                            nth i ys None = Some x).
    { intros ys Hys. destruct copy_on_write; cbn [filled imputed] in Hys;
        injection Hys as <-; [exact Hx|].
      unfold impute_cells. destruct (Nat.ltb 0 _); [|exact Hx]. unfold fillna.
      rewrite (nth_map_Some _ xs i x Hx). reflexivity. }
    assert (Hnum : exists ys, filled fl copy_on_write (NumCol xs) = NumCol ys).
    { destruct copy_on_write; eexists; reflexivity. }
    destruct Hnum as [ys Hys]. specialize (H1 ys Hys). rewrite Hys in Hget.
    destruct (mem n key_columns), (mem n non_negative_cols); cbn [clamped] in Hget;
      eexists; (split; [exact Hget|]); cbn [andb]; try exact H1; try exact Hx;
      unfold clamp_negative;
      first [ rewrite (nth_map_Some _ _ i x H1) | rewrite (nth_map_Some _ _ i x Hx) ];
      destruct (negb (Qle_bool 0 x)); reflexivity.
  - intros n xs Hn Hc.
    pose proof (clean_data_get fl copy_on_write self df m cleaned s n Hraw Hrun Hn) as Hget.
    rewrite Hc in Hget. rewrite Hget. cbn [option_map].
    unfold cleaned_column.
    destruct copy_on_write, (mem n key_columns), (mem n non_negative_cols); reflexivity.
Qed.

Lemma clean_data_present_cells_witness :
  (exists ys,
     get_column cleaned_scenario "GHI" = Some (NumCol ys) /\
     nth 2 ys None = Some 0) /\
  get_column cleaned_scenario "Cleaning"
  = Some (TextCol [Some "Post-Clean"; Some "Post-Clean"; Some "Post-Clean"]).
Proof.
  assert (Hn : "GHI" <> marker_column) by discriminate.
  destruct (clean_data_present_cells binary64 false (loaded scenario) scenario None
              cleaned_scenario _ eq_refl eq_refl) as [Hnum [_ Hmark]].
  split; [|exact Hmark].
  exact (Hnum "GHI" [Some 100; None; Some (-5)] 2%nat (-5) Hn eq_refl eq_refl).
Defined.

Lemma missing_cell_counts (xs : list (option Q)) (i : nat) :
  (i < length xs)%nat -> nth i xs None = None -> Nat.ltb 0 (count_na (NumCol xs)) = true.
Proof.
  intros Hi Hnone. apply Nat.ltb_lt. simpl.
  assert (Hin : In None (filter is_none xs)).
  { apply filter_In. split; [|reflexivity]. rewrite <- Hnone. apply nth_In, Hi. }
  destruct (filter is_none xs); [contradiction|simpl; lia].
Qed.

(** X10.  In a numeric column other than the marker column [Cleaning]:
    without copy-on-write a missing cell of a measurement column receives
    the median of the values the column held before cleaning, raised to 0
    when the column is also a non-negative column and the median is
    negative, and it stays missing when the column holds no value at all;
    with copy-on-write it stays missing.  A missing cell of any other
    numeric column stays missing. *)
Theorem clean_data_missing_cells (fl : Q -> Q) (copy_on_write : bool)
  (self : SolarDataAnalyzer)
  (df : DataFrame) (m : option (list bool)) (cleaned : DataFrame)
  (s : SolarDataAnalyzer) (n : string) (xs : list (option Q)) (i : nat) :
  raw_data self = Some df ->
  clean_data fl copy_on_write self m = Ok (cleaned, s) ->
  n <> marker_column ->
  get_column df n = Some (NumCol xs) ->
  (i < length xs)%nat -> nth i xs None = None ->
  exists ys,
    get_column cleaned n = Some (NumCol ys) /\
    nth i ys None
    = if mem n key_columns && negb copy_on_write
      then option_map
             (fun md => if mem n non_negative_cols && negb (Qle_bool 0 md) then 0 else md)
             (median_with fl xs)
      else None.
Proof.
  intros Hraw Hrun Hn Hc Hi Hnone.
  pose proof (clean_data_get fl copy_on_write self df m cleaned s n Hraw Hrun Hn) as Hget.
  rewrite Hc in Hget. cbn [option_map] in Hget. unfold cleaned_column in Hget.
  assert (Himp : nth i (impute_cells fl xs) None = median_with fl xs).
  { unfold impute_cells. rewrite (missing_cell_counts xs i Hi Hnone).
    unfold fillna. rewrite (nth_map_None _ xs i Hi Hnone). reflexivity. }
  assert (Hlen : length (impute_cells fl xs) = length xs).
  { unfold impute_cells. destruct (Nat.ltb 0 _); [apply fillna_length|reflexivity]. }
  assert (Hclamp : forall zs o,
             length zs = length xs -> nth i zs None = o ->
             nth i (clamp_negative zs) None
             = option_map (fun md => if negb (Qle_bool 0 md) then 0 else md) o).
  { intros zs [md|] Hl Hz; unfold clamp_negative.
    - rewrite (nth_map_Some _ zs i md Hz). cbn [option_map].
      destruct (negb (Qle_bool 0 md)); reflexivity.
    - rewrite (nth_map_None _ zs i); [reflexivity|lia|exact Hz]. }
  destruct copy_on_write, (mem n key_columns), (mem n non_negative_cols);
    cbn [filled imputed clamped] in Hget;
    eexists; (split; [exact Hget|]); cbn [andb negb].
  - rewrite (Hclamp _ _ eq_refl Hnone). reflexivity.
  - exact Hnone.
  - rewrite (Hclamp _ _ eq_refl Hnone). reflexivity.
  - exact Hnone.
  - rewrite (Hclamp _ _ Hlen Himp). destruct (median_with fl xs); reflexivity.
  - rewrite Himp. destruct (median_with fl xs); reflexivity.
  - rewrite (Hclamp _ _ eq_refl Hnone). reflexivity.
  - exact Hnone.
Qed.

Lemma clean_data_missing_cells_witness :
  (exists ys,
     get_column cleaned_scenario "GHI" = Some (NumCol ys) /\
     nth 1 ys None = Some (95 # 2)) /\
  (exists ys,
     get_column cleaned_scenario_cow "GHI" = Some (NumCol ys) /\
     nth 1 ys None = None).
Proof.
  assert (Hn : "GHI" <> marker_column) by discriminate.
  assert (Hi : (1 < length [Some 100%Q; None; Some (-5)%Q])%nat) by (simpl; lia).
  split.
  - exact (clean_data_missing_cells binary64 false (loaded scenario) scenario None
             cleaned_scenario _ "GHI" [Some 100; None; Some (-5)] 1%nat
             eq_refl eq_refl Hn eq_refl Hi eq_refl).
  - exact (clean_data_missing_cells binary64 true (loaded scenario) scenario None
             cleaned_scenario_cow _ "GHI" [Some 100; None; Some (-5)] 1%nat
             eq_refl eq_refl Hn eq_refl Hi eq_refl).
Defined.

Lemma sort_values_In (l : list Q) (x : Q) : In x (sort_values l) <-> In x l.
Proof.
  split; apply Permutation_in;
    [apply sort_values_perm|apply Permutation_sym, sort_values_perm].
Qed.

(** X11.  The imputed value is never outside the values observed: the median of
    a column lies between two values the column holds. *)
Theorem median_between_values (xs : list (option Q)) (md : Q) :
  median xs = Some md ->
  exists lo hi, In (Some lo) xs /\ In (Some hi) xs /\ lo <= md /\ md <= hi.
Proof.
  unfold median, median_with, no_rounding. set (s := sort_values (present xs)).
  assert (Hin : forall k, (k < length s)%nat -> In (Some (nth k s 0)) xs).
  { intros k Hk. apply In_present. apply (sort_values_In (present xs)). apply nth_In, Hk. }
  destruct (length s) as [|n'] eqn:Hlen; [discriminate|].
  set (n := S n') in *.
  assert (Hhalf : (n / 2 < n)%nat) by (apply Nat.div_lt; unfold n; lia).
  destruct (Nat.even n) eqn:Heven; intros H; injection H as Hmd.
  - assert (Hpre : (n / 2 - 1 < n)%nat) by lia.
    set (a := nth (n / 2 - 1) s 0) in *. set (b := nth (n / 2) s 0) in *.
    assert (Hq : md == (a + b) / 2) by (rewrite <- Hmd; apply Qred_correct).
    assert (Hq' : md * 2 == a + b) by (rewrite Hq; field).
    destruct (Qlt_le_dec a b) as [Hab|Hab].
    + exists a, b. split; [apply Hin, Hpre|]. split; [apply Hin, Hhalf|]. split; lra.
    + exists b, a. split; [apply Hin, Hhalf|]. split; [apply Hin, Hpre|]. split; lra.
  - assert (Hmid : In (Some md) xs) by (rewrite <- Hmd; apply Hin, Hhalf).
    exists md, md. repeat split; try exact Hmid; apply Qle_refl.
Qed.

Lemma median_between_values_witness :
  exists lo hi,
    In (Some lo) [Some 100; None; Some (-5)] /\
    In (Some hi) [Some 100; None; Some (-5)] /\ lo <= 95 # 2 /\ 95 # 2 <= hi.
Proof.
  exact (median_between_values [Some 100; None; Some (-5)] (95 # 2) eq_refl).
Defined.

Lemma fillna_count_le (v : option Q) (xs : list (option Q)) :
  (count_na (NumCol (fillna v xs)) <= count_na (NumCol xs))%nat.
Proof.
  destruct v as [md|]; [rewrite fillna_Some_count; lia|rewrite fillna_None; lia].
Qed.

Lemma cleaned_column_count_le (fl : Q -> Q) (cow : bool) (n : string) (c : column) :
  (count_na (cleaned_column fl cow n c) <= count_na c)%nat.
Proof.
  unfold cleaned_column.
  assert (Himp : (count_na (filled fl cow c) <= count_na c)%nat).
  { destruct cow; [simpl; lia|].
    destruct c as [xs|xs]; [|simpl; lia]. cbn [filled imputed]. unfold impute_cells.
    destruct (Nat.ltb 0 _); [apply fillna_count_le|lia]. }
  assert (Hcl : forall c', count_na (clamped c') = count_na c').
  { intros [xs|xs]; [apply clamp_negative_count|reflexivity]. }
  destruct (mem n key_columns), (mem n non_negative_cols); rewrite ?Hcl; lia.
Qed.

Lemma marker_cells_complete (rows : nat) : count_na (marker_cells rows) = 0%nat.
Proof.
  unfold marker_cells. simpl. induction rows as [|k IH]; simpl; [reflexivity|exact IH].
Qed.

Lemma assign_total (n : string) (a : column) (l : list (string * column)) :
  count_na a = 0%nat ->
  (list_sum (map (fun nc => count_na (snd nc)) (assign n a l))
   <= list_sum (map (fun nc => count_na (snd nc)) l))%nat /\
  (length l <= length (assign n a l))%nat.
Proof.
  intros Ha. induction l as [|[m c] l [IH1 IH2]]; simpl; [lia|].
  destruct (String.eqb n m); simpl; lia.
Qed.

Lemma percent_of_mono (a a' b b' : nat) :
  (a' <= a)%nat -> (b <= b')%nat -> (0 < b)%nat -> percent_of a' b' <= percent_of a b.
Proof.
  intros Ha Hb Hpos. unfold percent_of.
  pose proof (inject_nat_pos b Hpos) as Hb0.
  pose proof (inject_nat_le _ _ Hb) as Hbb.
  pose proof (inject_nat_le _ _ Ha) as Haa.
  pose proof (inject_nat_nonneg a') as Ha0.
  set (x' := inject_Z (Z.of_nat a')) in *. set (x := inject_Z (Z.of_nat a)) in *.
  set (y' := inject_Z (Z.of_nat b')) in *. set (y := inject_Z (Z.of_nat b)) in *.
  assert (Hy' : 0 < y') by lra.
  assert (Hq : x' / y' <= x / y).
  { apply Qle_shift_div_l; [exact Hb0|].
    assert (Hr0 : 0 <= x' / y') by (apply Qle_shift_div_l; lra).
    assert (Hr : x' / y' * y' == x').
    { field. intros E. rewrite E in Hy'. apply (Qlt_irrefl 0 Hy'). }
    set (r := x' / y') in *. clearbody r.
    assert (Hm : r * y <= r * y').
    { rewrite !(Qmult_comm r). apply Qmult_le_compat_r; assumption. }
    lra. }
  set (q' := x' / y') in *. set (q := x / y) in *. clearbody q q'. lra.
Qed.

(** X12.  Analysing the cleaned table after the loaded one: no more cells are
    missing than before, and the overall completeness is not lower. *)
Theorem cleaning_improves_completeness (fl : Q -> Q) (copy_on_write : bool)
  (self self' : SolarDataAnalyzer)
  (df cleaned : DataFrame) (m : option (list bool)) (t t' : Q)
  (r r' : MissingReport) (s s1 s1' : SolarDataAnalyzer) :
  raw_data self = Some df -> well_formed df ->
  (0 < nrows df)%nat -> columns df <> [] ->
  clean_data fl copy_on_write self m = Ok (cleaned, s) ->
  raw_data self' = Some cleaned ->
  analyze_missing_values self t = Ok (r, s1) ->
  analyze_missing_values self' t' = Ok (r', s1') ->
  (total_missing cleaned <= total_missing df)%nat /\
  exists q q',
    overall_completeness r = Fin q /\ overall_completeness r' = Fin q' /\ q <= q'.
Proof.
  intros Hraw [Hlen Hnd] Hrows Hcols Hclean Hraw' Hrun Hrun'.
  pose proof (clean_data_frame fl copy_on_write self df m cleaned s Hraw Hnd Hclean) as Hcl.
  assert (Hcells : (0 < cell_count df)%nat).
  { unfold cell_count. destruct (columns df); [congruence|]. simpl. lia. }
  set (mapped := map (fun nc => (fst nc, cleaned_column fl copy_on_write (fst nc) (snd nc)))
                     (columns df))
    in *.
  destruct (assign_total marker_column (marker_cells (nrows df)) mapped
              (marker_cells_complete _)) as [Htot Hlen'].
  assert (Hmapped : (list_sum (map (fun nc => count_na (snd nc)) mapped)
                     <= total_missing df)%nat).
  { unfold mapped, total_missing. clear. induction (columns df) as [|[n c] l IH];
      simpl; [lia|]. pose proof (cleaned_column_count_le fl copy_on_write n c). lia. }
  assert (Htotal : (total_missing cleaned <= total_missing df)%nat).
  { rewrite Hcl. unfold total_missing at 1. cbn [columns set_column]. lia. }
  assert (Hcount : (cell_count df <= cell_count cleaned)%nat).
  { rewrite Hcl. unfold cell_count. cbn [nrows columns set_column].
    assert (length mapped = length (columns df)) by apply length_map.
    apply Nat.mul_le_mono_l. lia. }
  assert (Hcells' : (0 < cell_count cleaned)%nat) by lia.
  destruct (overall_completeness_fin _ _ _ _ _ Hraw Hcells Hrun) as [q [Hq Hqq]].
  destruct (overall_completeness_fin _ _ _ _ _ Hraw' Hcells' Hrun') as [q' [Hq' Hqq']].
  split; [exact Htotal|]. exists q, q'. split; [exact Hq|]. split; [exact Hq'|].
  pose proof (percent_of_mono _ _ _ _ Htotal Hcount Hcells) as Hmono.
  rewrite Hqq, Hqq'. lra.
Qed.

Lemma cleaning_improves_completeness_witness :
  exists r s1 r' s1' q q',
    analyze_missing_values (loaded scenario) 5 = Ok (r, s1) /\
    analyze_missing_values (loaded cleaned_scenario) 5 = Ok (r', s1') /\
    overall_completeness r = Fin q /\ overall_completeness r' = Fin q' /\ q <= q'.
Proof.
  assert (Hrows : (0 < nrows scenario)%nat) by (simpl; lia).
  assert (Hcols : columns scenario <> []) by discriminate.
  destruct (cleaning_improves_completeness binary64 false
              (loaded scenario) (loaded cleaned_scenario) scenario cleaned_scenario
              None 5 5 _ _ _ _ _
              eq_refl scenario_well_formed Hrows Hcols eq_refl eq_refl eq_refl eq_refl)
    as [_ [q [q' H]]].
  do 4 eexists. exists q, q'.
  split; [reflexivity|]. split; [reflexivity|]. exact H.
Defined.

(* ===================================================================== *)
(** * Export, summary and a failed cleaning                               *)
(* ===================================================================== *)

Lemma assign_length {A : Type} (n : string) (a : A) (l : list (string * A)) :
  length (assign n a l)
  = (length l + if existsb (String.eqb n) (map fst l) then 0 else 1)%nat.
Proof.
  induction l as [|[m x] l IH]; simpl; [reflexivity|].
  destruct (String.eqb n m); simpl; [lia|rewrite IH; lia].
Qed.

(** X13.  The summary of the analyzer after a cleaning that returned: the
    cleaned table has the rows of the loaded one and one column more,
    unless the loaded table already held a column named as the marker. *)
Theorem analysis_summary_after_clean (fl : Q -> Q) (copy_on_write : bool)
  (self : SolarDataAnalyzer)
  (df : DataFrame)
  (m : option (list bool)) (cleaned : DataFrame) (s : SolarDataAnalyzer)
  (path name : string) (described : option (list (string * ColumnSummary))) :
  raw_data self = Some df -> NoDup (column_names df) ->
  clean_data fl copy_on_write self m = Ok (cleaned, s) ->
  let summary :=
    get_analysis_summary {| data_path := path; country_name := name;
                            object := s; summary_statistics := described |} in
  country summary = name /\
  raw_data_shape summary = Some (nrows df, length (columns df)) /\
  cleaned_data_shape summary
  = Some (nrows df,
          (length (columns df) + if has_column df marker_column then 0 else 1)%nat) /\
  summary_results summary = analysis_results self.
Proof.
  intros Hraw Hnd Hrun. cbv zeta.
  pose proof (clean_data_frame fl copy_on_write self df m cleaned s Hraw Hnd Hrun) as Hcl.
  pose proof (clean_data_store fl copy_on_write self df m cleaned s Hraw Hrun) as Hs.
  unfold get_analysis_summary.
  cbn [country raw_data_shape cleaned_data_shape summary_results object country_name].
  rewrite Hs. cbn [raw_data cleaned_data analysis_results option_map].
  split; [reflexivity|]. split; [reflexivity|]. split; [|reflexivity].
  rewrite Hcl. unfold shape. cbn [nrows columns set_column].
  rewrite assign_length, length_map, map_map. cbn [fst]. reflexivity.
Qed.

Lemma analysis_summary_after_clean_witness :
  cleaned_data_shape
    (get_analysis_summary
       {| data_path := "data/benin.csv"; country_name := "Benin";
          object := {| raw_data := Some scenario; cleaned_data := Some cleaned_scenario;
                       analysis_results := analysis_results (loaded scenario) |};
          summary_statistics := None |})
  = Some (3%nat, 4%nat).
Proof.
  assert (Hnd : NoDup (column_names scenario)) by apply scenario_well_formed.
  exact (proj1 (proj2 (proj2
           (analysis_summary_after_clean binary64 false (loaded scenario) scenario None
              cleaned_scenario _
              "data/benin.csv" "Benin" None eq_refl Hnd eq_refl)))).
Defined.

(** X14.  Only [clean_data] enables the export.  After the analyses alone
    [export_cleaned_data] still raises; after a cleaning that returned it
    asks for the parent directories and writes the frame that [clean_data]
    returned, marker column included. *)
Theorem export_needs_clean (fl : Q -> Q) (self : SolarDataAnalyzer) (path : string) :
  cleaned_data self = None ->
  raises (export_cleaned_data self path) /\
  (forall t r s, analyze_missing_values self t = Ok (r, s) ->
                 raises (export_cleaned_data s path)) /\
  (forall cols z mask s, detect_outliers self cols z = Ok (mask, s) ->
                         raises (export_cleaned_data s path)) /\
  (forall copy_on_write m cleaned s,
     clean_data fl copy_on_write self m = Ok (cleaned, s) ->
     export_cleaned_data s path = Ok [MakeParentDirs path; WriteCsv path cleaned] /\
     get_column cleaned marker_column = Some (marker_cells (nrows cleaned))).
Proof.
  intros Hnone.
  assert (Hraise : forall s, cleaned_data s = None -> raises (export_cleaned_data s path)).
  { intros s Hs. unfold export_cleaned_data. rewrite Hs. exact I. }
  split; [apply Hraise, Hnone|]. split; [|split].
  - intros t r s Hrun. apply Hraise.
    rewrite analyze_missing_values_exact in Hrun.
    destruct (require_loaded self); cbn [bind] in Hrun; [|discriminate].
    injection Hrun as _ <-. exact Hnone.
  - intros cols z mask s Hrun. apply Hraise.
    destruct (detect_outliers_Ok _ _ _ _ _ Hrun) as [df [_ [_ [_ [_ [_ [_ [_ Hc]]]]]]]].
    congruence.
  - intros cow m cleaned s Hrun.
    destruct (clean_data_columns fl _ _ _ _ _ Hrun) as [_ [_ [_ [_ [_ [_ [_ Hs]]]]]]].
    destruct (cleaned_tracked fl _ _ _ _ _ Hrun) as [_ [_ Hmark]].
    unfold export_cleaned_data. rewrite Hs. split; [reflexivity|exact Hmark].
Qed.

Lemma export_needs_clean_witness :
  raises (export_cleaned_data (loaded scenario) "out/benin_clean.csv") /\
  exists s,
    clean_data binary64 false (loaded scenario) None = Ok (cleaned_scenario, s) /\
    export_cleaned_data s "out/benin_clean.csv"
    = Ok [MakeParentDirs "out/benin_clean.csv";
          WriteCsv "out/benin_clean.csv" cleaned_scenario].
Proof.
  destruct (export_needs_clean binary64 (loaded scenario) "out/benin_clean.csv" eq_refl)
    as [Hraise [_ [_ Hclean]]].
  split; [exact Hraise|]. eexists. split; [vm_compute; reflexivity|].
  exact (proj1 (Hclean false None cleaned_scenario _ eq_refl)).
Defined.

Lemma for_each_until_spec {A S : Type} (body : S -> A -> result S) (xs : list A) (s : S) :
  match for_each body xs s with
  | Ok s' => for_each_until body xs s = (s', None)
  | Raise e => exists sp, for_each_until body xs s = (sp, Some e)
  end.
Proof.
  revert s. induction xs as [|x xs IH]; intros s; simpl; [reflexivity|].
  destruct (body s x) as [s'|e]; cbn [bind].
  - apply IH.
  - exists s. reflexivity.
Qed.

(** A loop over columns that stopped early has kept the rows and the
    names of the columns. *)
Lemma for_each_until_shape (body : DataFrame -> string -> result DataFrame) :
  (forall d n d', body d n = Ok d' ->
                  nrows d' = nrows d /\ column_names d' = column_names d) ->
  forall names d sp o,
    for_each_until body names d = (sp, o) ->
    nrows sp = nrows d /\ column_names sp = column_names d.
Proof.
  intros Hbody names. induction names as [|a l IH]; intros d sp o H; simpl in H.
  - injection H as <- _. split; reflexivity.
  - destruct (body d a) as [d1|e] eqn:Hb.
    + destruct (Hbody _ _ _ Hb) as [Hr Hn]. destruct (IH _ _ _ H) as [Hr' Hn'].
      split; congruence.
    + injection H as <- _. split; reflexivity.
Qed.

(** X15.  [clean_data_state] agrees with [clean_data]; and a cleaning that
    raises in one of its loops has already stored a copy of the table:
    the copy has the rows and the column names of the table, so it has no
    marker column unless the table had one, and [export_cleaned_data]
    writes it without raising. *)
Theorem failed_clean_leaves_copy (fl : Q -> Q) (copy_on_write : bool)
  (self : SolarDataAnalyzer)
  (df : DataFrame) (m : option (list bool)) :
  raw_data self = Some df ->
  match clean_data fl copy_on_write self m with
  | Ok (cleaned, s) => clean_data_state fl copy_on_write self m = (s, None)
  | Raise e =>
      exists partial,
        clean_data_state fl copy_on_write self m
        = ({| raw_data := Some df; cleaned_data := Some partial;
              analysis_results := analysis_results self |}, Some e) /\
        nrows partial = nrows df /\
        column_names partial = column_names df /\
        forall path,
          export_cleaned_data (fst (clean_data_state fl copy_on_write self m)) path
          = Ok [MakeParentDirs path; WriteCsv path partial]
  end.
Proof.
  intros Hraw. unfold clean_data, clean_data_state, require_loaded. rewrite Hraw.
  cbn [bind].
  assert (Hstep1 : forall d n d', impute_column fl copy_on_write d n = Ok d' ->
                                   nrows d' = nrows d /\ column_names d' = column_names d).
  { intros d n d' H.
    destruct (impute_column_step fl copy_on_write d n d' H) as [[Hr [Hn _]] _].
    split; assumption. }
  assert (Hstep2 : forall d n d', correct_negative d n = Ok d' ->
                                   nrows d' = nrows d /\ column_names d' = column_names d).
  { intros d n d' H. destruct (correct_negative_step d n d' H) as [[Hr [Hn _]] _].
    split; assumption. }
  pose proof (for_each_until_spec (impute_column fl copy_on_write)
                (filter (has_column df) key_columns) df) as H1.
  destruct (for_each (impute_column fl copy_on_write)
                     (filter (has_column df) key_columns) df) as [d1|e].
  - rewrite H1. cbn [bind].
    pose proof (for_each_until_spec correct_negative non_negative_cols d1) as H2.
    destruct (for_each correct_negative non_negative_cols d1) as [d2|e].
    + rewrite H2. cbn [bind]. reflexivity.
    + destruct H2 as [sp H2]. rewrite H2. cbn [bind].
      destruct (for_each_until_shape _ Hstep2 _ _ _ _ H2) as [Hr2 Hn2].
      destruct (for_each_until_shape _ Hstep1 _ _ _ _ H1) as [Hr1 Hn1].
      exists sp. split; [reflexivity|]. split; [congruence|]. split; [congruence|].
      intros path. reflexivity.
  - destruct H1 as [sp H1]. rewrite H1. cbn [bind].
    destruct (for_each_until_shape _ Hstep1 _ _ _ _ H1) as [Hr1 Hn1].
    exists sp. split; [reflexivity|]. split; [exact Hr1|]. split; [exact Hn1|].
    intros path. reflexivity.
Qed.

Lemma failed_clean_leaves_copy_witness :
  raises (clean_data binary64 false (loaded text_temperature) None) /\
  export_cleaned_data (fst (clean_data_state binary64 false (loaded text_temperature) None))
                      "out/clean.csv"
  = Ok [MakeParentDirs "out/clean.csv";
        WriteCsv "out/clean.csv"
                 {| nrows := 3;
                    columns := [("GHI", NumCol [Some 1; Some 2; Some 3]);
                                ("Tamb", TextCol [Some "hot"; None; Some "cold"])] |}].
Proof.
  pose proof (failed_clean_leaves_copy binary64 false (loaded text_temperature)
                text_temperature
                None eq_refl) as H.
  split; [vm_compute; exact I|].
  vm_compute in H. destruct H as [partial [Hstate [_ [_ Hexport]]]].
  injection Hstate as <-. exact (Hexport "out/clean.csv").
Defined.

(* ===================================================================== *)
(** * More on correlations                                                *)
(* ===================================================================== *)

(** Whenever [corr] returns, it returns the matrix of some columns of
    floats. *)
Lemma corr_Ok (numeric_only : bool) (cols : list (string * column)) (mtx : CorrMatrix) :
  corr numeric_only cols = Ok mtx -> exists floats, mtx = corr_of floats.
Proof.
  unfold corr, corr_with. destruct numeric_only.
  - intros H. injection H as <-. eexists. reflexivity.
  - destruct (for_each _ cols []) as [floats|e]; cbn [bind]; [|discriminate].
    intros H. injection H as <-. exists floats. reflexivity.
Qed.

(** X18.  Raising the threshold can only remove pairs from the report: every
    entry reported at the higher threshold is reported, with the same
    coefficient, at the lower one. *)
Theorem strong_correlations_antitone (numeric_only_default : bool)
  (self : CorrelationAnalyzer) (t1 t2 : Q) (l1 l2 : list (string * string * sqfrac)) :
  well_formed (data self) -> t1 <= t2 ->
  get_strong_correlations numeric_only_default self t1 = Ok l1 ->
  get_strong_correlations numeric_only_default self t2 = Ok l2 ->
  incl l2 l1 /\ (length l2 <= length l1)%nat.
Proof.
  intros [_ Hnd] Hle H1 H2.
  rewrite (get_strong_correlations_eq _ self t1 Hnd) in H1.
  rewrite (get_strong_correlations_eq _ self t2 Hnd) in H2.
  injection H1 as <-. injection H2 as <-. unfold strong_pairs. split.
  - intros e He. apply in_map_iff in He. destruct He as [p [<- Hp]].
    apply filter_In in Hp. destruct Hp as [Hin Hs].
    apply in_map, filter_In. split; [exact Hin|].
    unfold strong in *. apply (abs_gt_antitone _ t1 t2 Hle Hs).
  - rewrite !length_map.
    induction (upper_pairs (select_numeric (data self))) as [|p ps IH]; simpl; [lia|].
    destruct (strong t2 p) eqn:E2.
    + unfold strong in E2. pose proof (abs_gt_antitone _ t1 t2 Hle E2) as E1.
      fold (strong t1 p) in E1. rewrite E1. simpl. lia.
    + destruct (strong t1 p); simpl; lia.
Qed.

Lemma strong_correlations_antitone_witness :
  exists l1 l2,
    get_strong_correlations false (mkCorrelationAnalyzer scenario) (1 # 2) = Ok l1 /\
    get_strong_correlations false (mkCorrelationAnalyzer scenario) 1 = Ok l2 /\
    incl l2 l1.
Proof.
  do 2 eexists. split; [vm_compute; reflexivity|]. split; [vm_compute; reflexivity|].
  refine (proj1 (strong_correlations_antitone false (mkCorrelationAnalyzer scenario)
                   (1 # 2) 1 _ _ scenario_well_formed _ _ _)).
  - discriminate.
  - vm_compute. reflexivity.
  - vm_compute. reflexivity.
Defined.

(** X19.  The two methods agree: a pair reported by [get_strong_correlations]
    carries the coefficient that [analyze_correlations] gives for the two
    columns of the pair. *)
Theorem strong_pair_in_matrix (numeric_only_default : bool)
  (self : CorrelationAnalyzer) (t : Q) (l : list (string * string * sqfrac))
  (a b : string) (v : sqfrac) :
  well_formed (data self) ->
  get_strong_correlations numeric_only_default self t = Ok l ->
  In (a, b, v) l ->
  exists mtx,
    analyze_correlations numeric_only_default self [a; b] = Ok mtx /\
    labels mtx = [a; b] /\
    iloc mtx 0 1 = v /\ iloc mtx 1 0 = v.
Proof.
  intros [_ Hnd] Hrun Hin.
  rewrite (get_strong_correlations_eq _ self t Hnd) in Hrun. injection Hrun as <-.
  unfold strong_pairs in Hin. apply in_map_iff in Hin.
  destruct Hin as [[[a' xs] [b' ys]] [Heq Hf]]. apply filter_In in Hf.
  destruct Hf as [Hup _]. unfold correlation_entry in Heq. cbn [fst snd] in Heq.
  injection Heq as -> -> <-.
  apply upper_pairs_members in Hup. destruct Hup as [Ha Hb].
  apply numeric_columns_In in Ha. apply numeric_columns_In in Hb.
  pose proof (In_lookup a _ _ Hnd Ha) as Hga. pose proof (In_lookup b _ _ Hnd Hb) as Hgb.
  fold (get_column (data self) a) in Hga. fold (get_column (data self) b) in Hgb.
  assert (Hha : has_column (data self) a = true)
    by (apply has_column_get; eexists; exact Hga).
  assert (Hhb : has_column (data self) b = true)
    by (apply has_column_get; eexists; exact Hgb).
  unfold analyze_correlations, analyze_correlations_with.
  change (corr_with corr_of) with corr. cbn [filter]. rewrite Hha, Hhb. cbn [length Nat.ltb Nat.leb].
  unfold select_columns. cbn [flat_map]. rewrite Hga, Hgb. cbn [app].
  change [(a, NumCol xs); (b, NumCol ys)]
    with (map (fun nx : string * list (option Q) => (fst nx, NumCol (snd nx)))
              [(a, xs); (b, ys)]).
  rewrite corr_numeric. eexists. split; [reflexivity|]. split; [reflexivity|].
  split; [reflexivity|]. unfold iloc. simpl. apply pearson_sym.
Qed.

Lemma strong_pair_in_matrix_witness :
  exists mtx,
    analyze_correlations false (mkCorrelationAnalyzer scenario) ["GHI"; "DNI"] = Ok mtx /\
    iloc mtx 0 1 = {| sq_num := - 525 # 2; sq_rad := 275625 # 4 |}.
Proof.
  destruct (strong_pair_in_matrix false (mkCorrelationAnalyzer scenario) (1 # 2)
              [("GHI", "DNI", {| sq_num := - 525 # 2; sq_rad := 275625 # 4 |})]
              "GHI" "DNI" {| sq_num := - 525 # 2; sq_rad := 275625 # 4 |}
              scenario_well_formed) as [mtx [Hrun [_ [Hv _]]]].
  - vm_compute. reflexivity.
  - left. reflexivity.
  - exists mtx. split; [exact Hrun|exact Hv].
Defined.

(* ===================================================================== *)
(** * The heatmap                                                         *)
(* ===================================================================== *)

Lemma triu_ones_nth (n i j : nat) :
  (i < n)%nat -> (j < n)%nat -> nth j (nth i (triu_ones n) []) true = Nat.leb i j.
Proof.
  intros Hi Hj. unfold triu_ones.
  set (row := fun i : nat => map (fun j : nat => Nat.leb i j) (seq 0 n)).
  rewrite (nth_indep (map row (seq 0 n)) [] (row 0%nat))
    by (rewrite length_map, length_seq; exact Hi).
  rewrite (map_nth row (seq 0 n) 0%nat), seq_nth by exact Hi. unfold row.
  rewrite (nth_indep _ true (Nat.leb (0 + i) 0))
    by (rewrite length_map, length_seq; exact Hj).
  rewrite (map_nth (fun j : nat => Nat.leb (0 + i) j) (seq 0 n) 0%nat), seq_nth by exact Hj.
  reflexivity.
Qed.



(* ===================================================================== *)
(** * Summary statistics                                                  *)
(* ===================================================================== *)

Lemma present_and_missing (xs : list (option Q)) :
  (length (present xs) + length (filter is_none xs) = length xs)%nat.
Proof.
  induction xs as [|[x|] xs IH]; [reflexivity| |].
  - change (S (length (present xs)) + length (filter is_none xs) = S (length xs))%nat. lia.
  - change (length (present xs) + S (length (filter is_none xs)) = S (length xs))%nat. lia.
Qed.

Lemma describe_column_count (xs : list (option Q)) :
  d_count (describe_column xs) = length (present xs).
Proof. unfold describe_column. destruct (length (present xs)); reflexivity. Qed.

(** A summary that [get_summary_statistics] returns describes the numeric
    columns of the loaded table. *)
Lemma get_summary_statistics_Ok (self self' : Session)
      (summary : list (string * ColumnSummary)) :
  get_summary_statistics self = Ok (summary, self') ->
  exists df,
    raw_data (object self) = Some df /\
    select_numeric df <> [] /\
    summary = map (fun nx => (fst nx, describe_column (snd nx)))
                  (numeric_columns (select_columns df (map fst (select_numeric df)))) /\
    summary_statistics self' = Some summary /\
    object self' = object self.
Proof.
  unfold get_summary_statistics, require_loaded.
  destruct (raw_data (object self)) as [df|]; [|discriminate].
  cbn [bind]. unfold describe.
  destruct (numeric_columns (select_columns df (map fst (select_numeric df))))
    as [|c l] eqn:E; [discriminate|].
  cbn [bind]. intros H. injection H as <- <-. exists df.
  split; [reflexivity|]. split; [|split; [rewrite E; reflexivity|split; reflexivity]].
  intros Hnil. rewrite Hnil in E. discriminate.
Qed.

Lemma summary_entry (self self' : Session) (summary : list (string * ColumnSummary))
      (n : string) (d : ColumnSummary) :
  get_summary_statistics self = Ok (summary, self') -> In (n, d) summary ->
  exists df xs,
    raw_data (object self) = Some df /\
    get_column df n = Some (NumCol xs) /\ d = describe_column xs.
Proof.
  intros Hrun Hin.
  destruct (get_summary_statistics_Ok _ _ _ Hrun) as [df [Hraw [_ [Hsum _]]]].
  subst summary. apply in_map_iff in Hin. destruct Hin as [[m xs] [Heq Hin]].
  injection Heq as -> <-. apply numeric_columns_In, select_columns_In in Hin.
  exists df, xs. split; [exact Hraw|]. split; [apply Hin|reflexivity].
Qed.

(** X21.  [get_summary_statistics] raises a [ValueError] before a table is
    loaded and when the loaded table has no numeric column; otherwise it
    returns and stores one summary per numeric column, in the order of
    the table, leaves the table and the analysis results as they were, and
    the count of each summary and the number of missing cells of its column
    add up to the number of rows. *)
Theorem summary_statistics_columns (self : Session) :
  (raw_data (object self) = None ->
   get_summary_statistics self
   = Raise (ValueError "Data must be loaded first. Call load_data()")) /\
  (forall df,
     raw_data (object self) = Some df -> well_formed df ->
     (select_numeric df = [] ->
      get_summary_statistics self
      = Raise (ValueError "Cannot describe a DataFrame without columns")) /\
     (select_numeric df <> [] ->
      exists summary self',
        get_summary_statistics self = Ok (summary, self') /\
        summary_statistics self' = Some summary /\
        object self' = object self /\
        map fst summary = map fst (select_numeric df) /\
        forall n d, In (n, d) summary ->
          exists xs, get_column df n = Some (NumCol xs) /\
                     d = describe_column xs /\
                     (d_count d + count_na (NumCol xs) = nrows df)%nat)).
Proof.
  split.
  - intros Hraw. unfold get_summary_statistics, require_loaded. rewrite Hraw. reflexivity.
  - intros df Hraw [Hlen Hnd].
    assert (Hsel : numeric_columns (select_columns df (map fst (select_numeric df)))
                   = select_numeric df).
    { rewrite (select_numeric_columns df Hnd). apply numeric_columns_NumCol. }
    split.
    + intros Hnil. unfold get_summary_statistics, require_loaded. rewrite Hraw.
      cbn [bind]. rewrite Hsel, Hnil. reflexivity.
    + intros Hne.
      destruct (get_summary_statistics self) as [[summary self']|e] eqn:Hrun.
      * exists summary, self'. split; [reflexivity|].
        destruct (get_summary_statistics_Ok _ _ _ Hrun) as [df' [Hraw' [_ [Hsum [Hst Hobj]]]]].
        rewrite Hraw in Hraw'. injection Hraw' as <-.
        split; [exact Hst|]. split; [exact Hobj|]. split.
        { rewrite Hsum, Hsel, map_map. apply map_ext. reflexivity. }
        intros n d Hin.
        destruct (summary_entry _ _ _ n d Hrun Hin) as [df' [xs [Hraw' [Hget Hd]]]].
        rewrite Hraw in Hraw'. injection Hraw' as <-.
        exists xs. split; [exact Hget|]. split; [exact Hd|].
        rewrite Hd, describe_column_count.
        assert (Hcol : col_len (NumCol xs) = nrows df).
        { rewrite Forall_forall in Hlen.
          apply (Hlen (n, NumCol xs)), (lookup_In n). exact Hget. }
        simpl in Hcol. rewrite <- Hcol. apply present_and_missing.
      * exfalso. revert Hrun. unfold get_summary_statistics, require_loaded.
        rewrite Hraw. cbn [bind]. rewrite Hsel. unfold describe.
        destruct (select_numeric df); [congruence|]. cbn [bind]. discriminate.
Qed.

Lemma summary_statistics_columns_witness :
  get_summary_statistics (init "data/benin.csv" "Benin")
  = Raise (ValueError "Data must be loaded first. Call load_data()") /\
  get_summary_statistics
    (mkSession "data/benin.csv" "Benin" (loaded header_only) None)
  = Raise (ValueError "Cannot describe a DataFrame without columns") /\
  exists summary self',
    get_summary_statistics
      (mkSession "data/benin.csv" "Benin" (loaded scenario) None)
    = Ok (summary, self') /\
    map fst summary = ["GHI"; "DNI"].
Proof.
  split.
  { apply (proj1 (summary_statistics_columns (init "data/benin.csv" "Benin"))).
    reflexivity. }
  split.
  { apply (proj2 (summary_statistics_columns
                    (mkSession "data/benin.csv" "Benin"
                               (loaded header_only) None))
                 header_only eq_refl).
    - solve_well_formed.
    - reflexivity. }
  destruct (proj2 (proj2 (summary_statistics_columns
                     (mkSession "data/benin.csv" "Benin"
                                (loaded scenario) None))
                  scenario eq_refl ltac:(solve_well_formed)) ltac:(discriminate))
    as [summary [self' [Hrun [_ [_ [Hnames _]]]]]].
  exists summary, self'. split; [exact Hrun|exact Hnames].
Defined.

(* ===================================================================== *)
(** * Loading a second time                                               *)
(* ===================================================================== *)

(** X24.  [load_data] raises [FileNotFoundError] when the file is not
    there; otherwise it replaces the raw table only.  After a cleaning, a
    second [load_data] leaves the cleaned table and the analysis results of
    the earlier table in place: [export_cleaned_data] still writes the
    table cleaned before, which has the rows of the earlier table, and
    [get_analysis_summary] reports its shape beside the shape of the new
    table. *)
Theorem reload_keeps_cleaned_table (fl : Q -> Q) (copy_on_write : bool) (self : Session)
        (df df' cleaned : DataFrame)
        (a : SolarDataAnalyzer) (m : option (list bool)) (path : string) :
  raw_data (object self) = Some df ->
  clean_data fl copy_on_write (object self) m = Ok (cleaned, a) ->
  let cleaned_session :=
    {| data_path := data_path self; country_name := country_name self;
       object := a; summary_statistics := summary_statistics self |} in
  load_data cleaned_session None
  = FileNotFoundError ("Data file not found: " ++ data_path self) /\
  exists self',
    load_data cleaned_session (Some df') = Loaded df' self' /\
    raw_data (object self') = Some df' /\
    analysis_results (object self') = analysis_results (object self) /\
    export_cleaned_data (object self') path
    = Ok [MakeParentDirs path; WriteCsv path cleaned] /\
    raw_data_shape (get_analysis_summary self') = Some (shape df') /\
    cleaned_data_shape (get_analysis_summary self') = Some (shape cleaned) /\
    nrows cleaned = nrows df.
Proof.
  intros Hraw Hrun. cbv zeta. split; [reflexivity|].
  destruct (clean_data_columns fl _ _ _ _ _ Hrun)
    as [df0 [d1 [d2 [Hraw' [L1 [L2 [Hcl Hs]]]]]]].
  assert (df0 = df) by congruence. subst df0.
  destruct L1 as [Hr1 _]. destruct L2 as [Hr2 _].
  assert (Hres : analysis_results a = analysis_results (object self)).
  { rewrite (clean_data_store fl _ _ df m cleaned a Hraw Hrun). reflexivity. }
  eexists. split; [reflexivity|].
  unfold export_cleaned_data, get_analysis_summary.
  cbn [object raw_data cleaned_data analysis_results raw_data_shape cleaned_data_shape].
  rewrite Hs. cbn [option_map].
  repeat split; trivial.
  rewrite Hcl. cbn [nrows set_column]. congruence.
Qed.

Lemma reload_keeps_cleaned_table_witness :
  exists self',
    load_data (mkSession "data/benin.csv" "Benin"
                 (mkAnalyzer (Some scenario) (Some cleaned_scenario)
                             (analysis_results (loaded scenario))) None)
              (Some header_only)
    = Loaded header_only self' /\
    export_cleaned_data (object self') "out/benin_clean.csv"
    = Ok [MakeParentDirs "out/benin_clean.csv";
          WriteCsv "out/benin_clean.csv" cleaned_scenario] /\
    raw_data_shape (get_analysis_summary self') = Some (0%nat, 1%nat) /\
    cleaned_data_shape (get_analysis_summary self') = Some (3%nat, 4%nat).
Proof.
  destruct (proj2 (reload_keeps_cleaned_table binary64 false
                     (mkSession "data/benin.csv" "Benin" (loaded scenario) None)
                     scenario header_only cleaned_scenario _ None "out/benin_clean.csv"
                     eq_refl eq_refl))
    as [self' [Hload [_ [_ [Hexp [Hshape [Hclean _]]]]]]].
  exists self'. split; [exact Hload|]. split; [exact Hexp|].
  split; [exact Hshape|exact Hclean].
Defined.
